(** * SKU price-regulation dashboard: route guard, complaint controls,
      price form, compliance page, API client and data table.

    A shallow embedding of the TypeScript front end.  React components are
    embedded as the pure functions they are: a render function from props
    and state to what is shown, and handlers from state to state plus the
    requests they emit.  The axios client is embedded with explicit state
    (localStorage, window.location, the network log) and fuel for the
    recursion of its response interceptor. *)

From Stdlib Require Import ZArith QArith Qround Qabs Lia Lqa Bool Ascii String.
From Stdlib Require Import Sorting.Sorted Sorting.Permutation.
From stdpp Require Import base option list strings pretty gmap.

Set Warnings "-clear-no-such-hyp".

Local Open Scope Z_scope.
Local Open Scope string_scope.

(* ===================================================================== *)
(** * Shared data transfer objects (types/index.ts)                       *)
(* ===================================================================== *)

(** [User.role] : 'gov_admin' | 'retailer' | 'farmer'. *)
Inductive Role := gov_admin | retailer | farmer.

#[global] Instance Role_eq_dec : EqDecision Role.
Proof. solve_decision. Defined.

Record User := mkUser {
  user_id : Z;
  username : string;
  email : string;
  role : Role;
  is_verified : bool
}.

Record District := mkDistrict {
  district_id : Z;
  district_name : string
}.

Record SKU := mkSKU {
  sku_id : Z;
  sku_name : string;
  sku_category : string
}.

(* ===================================================================== *)
(** * contexts/AuthContext.tsx and components/layout/ProtectedRoute.tsx   *)
(* ===================================================================== *)

Module ProtectedRoute.

(** The part of [AuthContextType] that the guard reads. *)
Record AuthContextType := mkAuth {
  user : option User;
  isLoading : bool;
  isAuthenticated : bool
}.

(** [AuthProvider]: [const isAuthenticated = !!user]. *)
Definition AuthProvider (u : option User) (loading : bool) : AuthContextType :=
  {| user := u; isLoading := loading; isAuthenticated := bool_decide (is_Some u) |}.

(** [allowedRoles.includes(user.role)]. *)
Definition includes (allowedRoles : list Role) (r : Role) : bool :=
  bool_decide (r ∈ allowedRoles).

(** The default value of the [allowedRoles] prop. *)
Definition defaultAllowedRoles : list Role := [gov_admin; retailer; farmer].

(** The role branch of the effect: the dashboard of the user's own role. *)
Definition dashboardOf (r : Role) : string :=
  match r with
  | gov_admin => "/dashboard/admin"
  | retailer => "/dashboard/retailer"
  | farmer => "/dashboard/farmer"
  end.

(** The body of [useEffect]: the path given to [router.push], if any. *)
Definition routerPush (ctx : AuthContextType) (allowedRoles : list Role)
  : option string :=
  if negb (isLoading ctx) then
    if negb (isAuthenticated ctx) then Some "/login"
    else
      match user ctx with
      | Some u =>
          if negb (includes allowedRoles (role u))
          then Some (dashboardOf (role u))
          else None
      | None => None
      end
  else None.

Inductive Rendered := Spinner | Null | Children.

(** The value returned by the component. *)
Definition render (ctx : AuthContextType) (allowedRoles : list Role) : Rendered :=
  if isLoading ctx then Spinner
  else if negb (isAuthenticated ctx) then Null
  else
    match user ctx with
    | Some u => if negb (includes allowedRoles (role u)) then Null else Children
    | None => Children
    end.

(** The guard as the specification words it, for one context value:
    no mention of the loading state. *)
Definition guards_as_specified (ctx : AuthContextType) (allowedRoles : list Role)
  : Prop :=
  (isAuthenticated ctx = false →
     routerPush ctx allowedRoles = Some "/login"
     ∧ render ctx allowedRoles ≠ Children)
  ∧ (∀ u, user ctx = Some u → isAuthenticated ctx = true →
       role u ∉ allowedRoles →
       routerPush ctx allowedRoles = Some (dashboardOf (role u))
       ∧ render ctx allowedRoles ≠ Children)
  ∧ (render ctx allowedRoles = Children ↔
       ∃ u, user ctx = Some u ∧ isAuthenticated ctx = true
            ∧ role u ∈ allowedRoles).

End ProtectedRoute.

(* ===================================================================== *)
(** * components/admin/ComplaintManagement.tsx                            *)
(* ===================================================================== *)

Module ComplaintManagement.

(** The fields of [Complaint] that the status controls read.  The status is
    kept as the string received from the server. *)
Record Complaint := mkComplaint {
  id : Z;
  title : string;
  status : string;
  priority : string
}.

#[global] Instance Complaint_eq_dec : EqDecision Complaint.
Proof. solve_decision. Defined.

(** The union type of [Complaint.status] in types/index.ts, in order. *)
Definition typedStatuses : list string :=
  ["pending"; "under_review"; "investigation"; "waiting_response";
   "resolved"; "rejected"; "closed"].

(** The [value]s of the options of the status filter [<select>]. *)
Definition statusFilterOptions : list string :=
  ["all"; "pending"; "under_review"; "investigation"; "waiting_response";
   "resolved"; "rejected"; "closed"].

(** The value sent as the [status] query parameter:
    [statusFilter !== 'all' ? statusFilter : undefined]. *)
Definition statusParam (statusFilter : string) : option string :=
  if bool_decide (statusFilter ≠ "all") then Some statusFilter else None.

(** A [switch] over a string: the [case] labels with their results, and the
    [default] result. *)
Definition switch {A} (cases : list (string * A)) (default : A) (s : string) : A :=
  match list_find (λ c, c.1 = s) cases with
  | Some (_, (_, a)) => a
  | None => default
  end.

Definition statusColorCases : list (string * string) :=
  [("pending", "bg-yellow-100 text-yellow-800");
   ("under_review", "bg-blue-100 text-blue-800");
   ("investigation", "bg-purple-100 text-purple-800");
   ("waiting_response", "bg-orange-100 text-orange-800");
   ("resolved", "bg-green-100 text-green-800");
   ("rejected", "bg-red-100 text-red-800");
   ("closed", "bg-gray-100 text-gray-800")].

Definition getStatusColor : string → string :=
  switch statusColorCases "bg-gray-100 text-gray-800".

Inductive Icon := ClockIcon | EyeIcon | ExclamationTriangleIcon
                | CheckCircleIcon | XCircleIcon.

Definition statusIconCases : list (string * Icon) :=
  [("pending", ClockIcon);
   ("under_review", EyeIcon);
   ("investigation", ExclamationTriangleIcon);
   ("waiting_response", ClockIcon);
   ("resolved", CheckCircleIcon);
   ("rejected", XCircleIcon);
   ("closed", XCircleIcon)].

Definition getStatusIcon : string → Icon := switch statusIconCases ClockIcon.

(** The six statuses named by the specification. *)
Definition specifiedStatuses : list string :=
  ["pending"; "under_review"; "investigation"; "resolved"; "rejected"; "closed"].

(** Every status the code types, filters on, colours or gives an icon. *)
Definition handledStatuses : list string :=
  typedStatuses ++ filter (λ s, s ≠ "all") statusFilterOptions
  ++ statusColorCases.*1 ++ statusIconCases.*1.

(** ** Component state, rendered controls and handlers *)

Record ResolutionData := mkResolution {
  resolution_action : string;
  resolution_report : string;
  resolution_notes : string
}.

Definition emptyResolution : ResolutionData := mkResolution "" "" "".

(** The [useState] cells, and [resolveComplaintMutation.isPending]. *)
Record State := mkState {
  selectedComplaint : option Complaint;
  isDetailModalOpen : bool;
  isResolutionModalOpen : bool;
  resolutionData : ResolutionData;
  resolvePending : bool
}.

Definition initialState : State :=
  mkState None false false emptyResolution false.

(** The requests the component's mutations send through [apiClient]. *)
Inductive Request :=
| UpdateComplaintStatus (complaintId : Z) (newStatus : string) (notes : option string)
| ResolveComplaint (complaintId : Z) (data : ResolutionData).

(** The clickable elements of the component. *)
Inductive Control :=
| CardView (c : Complaint)
| CardStartReview (c : Complaint)
| CardResolve (c : Complaint)
| DetailClose
| DetailStartReview
| DetailResolve
| ResolutionCancel
| ResolutionSubmit.

(** [cond && <Button/>]. *)
Definition when (cond : bool) (ctl : Control) : list Control :=
  if cond then [ctl] else [].

(** The button row of one complaint card (lines 414-446). *)
Definition cardControls (c : Complaint) : list Control :=
  [CardView c]
  ++ when (bool_decide (status c = "pending")) (CardStartReview c)
  ++ when (bool_decide (status c = "under_review")) (CardResolve c).

(** The footer of the detail modal (lines 663-686); the modal shows its
    content when [isDetailModalOpen] and a complaint is selected. *)
Definition detailControls (st : State) : list Control :=
  if isDetailModalOpen st then
    match selectedComplaint st with
    | Some c =>
        [DetailClose]
        ++ when (bool_decide (status c = "pending")) DetailStartReview
        ++ when (bool_decide (status c = "under_review")) DetailResolve
    | None => []
    end
  else [].

(** [!s] on a string. *)
Definition isEmpty (s : string) : bool := bool_decide (s = "").

(** The footer of the resolution modal (lines 739-750); the submit button
    is [disabled] without an action, without a report, or while pending. *)
Definition resolutionControls (st : State) : list Control :=
  if isResolutionModalOpen st then
    [ResolutionCancel]
    ++ when (negb (isEmpty (resolution_action (resolutionData st))
                   || isEmpty (resolution_report (resolutionData st))
                   || resolvePending st)) ResolutionSubmit
  else [].

(** Every enabled control the JSX of the page declares, for the complaint
    list on screen: the button rows of the cards and the footers of the two
    modals. *)
Definition offered (complaints : list Complaint) (st : State) : list Control :=
  flat_map cardControls complaints ++ detailControls st ++ resolutionControls st.

#[global] Instance Control_eq_dec : EqDecision Control.
Proof. solve_decision. Defined.

(** [handleUpdateStatus]: [updateStatusMutation.mutate({id, status, notes})]. *)
Definition handleUpdateStatus (complaintId : Z) (newStatus : string)
    (notes : option string) : list Request :=
  [UpdateComplaintStatus complaintId newStatus notes].

(** [handleResolveComplaint]. *)
Definition handleResolveComplaint (st : State) : list Request :=
  match selectedComplaint st with
  | Some c => [ResolveComplaint (id c) (resolutionData st)]
  | None => []
  end.

(** The [onClick] handler of each control: the next state and the requests
    sent. *)
Definition click (st : State) (ctl : Control) : State * list Request :=
  match ctl with
  | CardView c =>                                   (* handleViewDetails *)
      (mkState (Some c) true (isResolutionModalOpen st)
               (resolutionData st) (resolvePending st), [])
  | CardStartReview c =>
      (st, handleUpdateStatus (id c) "under_review" None)
  | CardResolve c =>
      (mkState (Some c) (isDetailModalOpen st) true
               (resolutionData st) (resolvePending st), [])
  | DetailClose =>                                  (* handleCloseModal *)
      (mkState None false (isResolutionModalOpen st)
               (resolutionData st) (resolvePending st), [])
  | DetailStartReview =>
      match selectedComplaint st with
      | Some c => (st, handleUpdateStatus (id c) "under_review" None)
      | None => (st, [])
      end
  | DetailResolve =>
      (mkState (selectedComplaint st) false true
               (resolutionData st) (resolvePending st), [])
  | ResolutionCancel =>                             (* handleCloseResolutionModal *)
      (mkState (selectedComplaint st) (isDetailModalOpen st) false
               emptyResolution (resolvePending st), [])
  | ResolutionSubmit =>
      let reqs := handleResolveComplaint st in
      (mkState (selectedComplaint st) (isDetailModalOpen st)
               (isResolutionModalOpen st) (resolutionData st)
               (bool_decide (reqs ≠ [])), reqs)
  end.

(** What can happen to the component between two renders. *)
Inductive Event :=
| Click (ctl : Control)
| EditResolution (d : ResolutionData)   (* the three textareas' onChange *)
| ResolveSucceeded                      (* resolveComplaintMutation.onSuccess *)
| ResolveFailed.                        (* resolveComplaintMutation.onError *)

Definition step (st : State) (ev : Event) : State * list Request :=
  match ev with
  | Click ctl => click st ctl
  | EditResolution d =>
      (mkState (selectedComplaint st) (isDetailModalOpen st)
               (isResolutionModalOpen st) d (resolvePending st), [])
  | ResolveSucceeded =>
      (mkState (selectedComplaint st) (isDetailModalOpen st) false
               emptyResolution false, [])
  | ResolveFailed =>
      (mkState (selectedComplaint st) (isDetailModalOpen st)
               (isResolutionModalOpen st) (resolutionData st) false, [])
  end.

(** An event the user or the network can produce in state [st] while
    [complaints] is the list on screen: a click on a declared control, an
    edit in the open resolution form, the settling of a pending request. *)
Definition possible (complaints : list Complaint) (st : State) (ev : Event) : bool :=
  match ev with
  | Click ctl => bool_decide (ctl ∈ offered complaints st)
  | EditResolution _ => isResolutionModalOpen st
  | ResolveSucceeded | ResolveFailed => resolvePending st
  end.

(** The event uses no control behind an open modal: no button of a card
    while a modal is open, and no button of the detail modal while the
    resolution modal is open. *)
Definition inFront (st : State) (ev : Event) : bool :=
  match ev with
  | Click (CardView _ | CardStartReview _ | CardResolve _) =>
      negb (isDetailModalOpen st) && negb (isResolutionModalOpen st)
  | Click (DetailClose | DetailStartReview | DetailResolve) =>
      negb (isResolutionModalOpen st)
  | Click (ResolutionCancel | ResolutionSubmit)
  | EditResolution _ | ResolveSucceeded | ResolveFailed => true
  end.


(** One step of a session: the list on screen (it may have been refetched)
    and the event. *)
Definition Session := list (list Complaint * Event).

(** The session is possible from [st] step by step. *)
Fixpoint feasible (st : State) (s : Session) : bool :=
  match s with
  | [] => true
  | (complaints, ev) :: rest =>
      possible complaints st ev && feasible (step st ev).1 rest
  end.

(** The state before each step, the event, and the requests it sent. *)
Fixpoint run (st : State) (s : Session) : list (State * Event * list Request) :=
  match s with
  | [] => []
  | (_, ev) :: rest => (st, ev, (step st ev).2) :: run (step st ev).1 rest
  end.

Fixpoint finalState (st : State) (s : Session) : State :=
  match s with
  | [] => st
  | (_, ev) :: rest => finalState (step st ev).1 rest
  end.

(** No step of the session uses a control behind an open modal. *)
Fixpoint layered (st : State) (s : Session) : bool :=
  match s with
  | [] => true
  | (_, ev) :: rest => inFront st ev && layered (step st ev).1 rest
  end.



(** ** What the component renders *)

(** An exception thrown while rendering. *)
Inductive Thrown := TypeError.

(** [complaint.complainant.get_full_name()] in the card (line 358).  The
    complainant is an object parsed from the JSON body of the response:
    it has the data properties of [User] and no method, so the property
    is [undefined] and the call throws a TypeError. *)
Definition get_full_name (c : Complaint) : Thrown + string :=
  inl TypeError.

(** One complaint card (lines 337-448): the name of the complainant is
    evaluated before the button row. *)
Definition renderCard (c : Complaint) : Thrown + list Control :=
  match get_full_name c with
  | inl e => inl e
  | inr _ => inr (cardControls c)
  end.

(** [results.map(complaint => <Card/>)]: an exception in one card ends the
    map. *)
Fixpoint renderCards (complaints : list Complaint) : Thrown + list Control :=
  match complaints with
  | [] => inr []
  | c :: rest =>
      match renderCard c with
      | inl e => inl e
      | inr controls =>
          match renderCards rest with
          | inl e => inl e
          | inr more => inr (controls ++ more)%list
          end
      end
  end.

(** The component once the query has loaded: the cards, then the two
    modals; an exception ends the render of the whole component. *)
Definition renderPage (complaints : list Complaint) (st : State)
  : Thrown + list Control :=
  match renderCards complaints with
  | inl e => inl e
  | inr cards => inr (cards ++ detailControls st ++ resolutionControls st)%list
  end.

(** The controls on screen: those of a render that completed. *)
Definition onScreen (complaints : list Complaint) (st : State) : list Control :=
  match renderPage complaints st with
  | inr controls => controls
  | inl _ => []
  end.

(** An event that can happen to the component as rendered: a click on a
    control on screen, an edit in the resolution form on screen, the
    settling of a pending request. *)
Definition allowed (complaints : list Complaint) (st : State) (ev : Event) : bool :=
  match ev with
  | Click ctl => bool_decide (ctl ∈ onScreen complaints st)
  | EditResolution _ => bool_decide (ResolutionCancel ∈ onScreen complaints st)
  | ResolveSucceeded | ResolveFailed => resolvePending st
  end.

(** An attempted session: each event takes effect when the component as
    rendered allows it, and is lost otherwise.  The final state and the
    requests sent. *)
Fixpoint attempts (st : State) (s : Session) : State * list Request :=
  match s with
  | [] => (st, [])
  | (complaints, ev) :: rest =>
      if allowed complaints st ev then
        let '(st', sent) := attempts (step st ev).1 rest in
        (st', ((step st ev).2 ++ sent)%list)
      else attempts st rest
  end.

End ComplaintManagement.

(* ===================================================================== *)
(** * JavaScript values and built-ins used by the price form               *)
(* ===================================================================== *)

Module Js.

(** A property that may be absent ([undefined]), [null], or present. *)
Inductive Nullable (A : Type) := Undefined | Null | Val (a : A).
Arguments Undefined {A}.
Arguments Null {A}.
Arguments Val {A} a.

(** A number: [NaN], an infinity, or a finite value.  A finite double is
    the exact rational it denotes (the sign of zero is not kept). *)
Inductive Number (A : Type) := NaN | Infinity (negative : bool) | Num (a : A).
Arguments NaN {A}.
Arguments Infinity {A} negative.
Arguments Num {A} a.

(** The value a form field holds for an id: absent, the string of a
    [<select>], or the integer put there by [reset]. *)
Inductive IdValue := IdUndefined | IdStr (s : string) | IdNum (z : Z).

(** The value a form field holds for a price: absent, the string of the
    number input, or the number put there by [reset]. *)
Inductive PriceValue := PriceUndefined | PriceStr (s : string) | PriceNum (q : Q).

(** Truthiness, as tested by [v ? _ : _], [if (v)] and [v || _]. *)
Definition truthyId (v : IdValue) : bool :=
  match v with
  | IdUndefined => false
  | IdStr s => negb (bool_decide (s = ""))
  | IdNum z => negb (Z.eqb z 0)
  end.

Definition truthyNumber (z : Z) : bool := negb (Z.eqb z 0).

(** ** IEEE 754 doubles *)

(** [2^e] as a rational, for an exponent of either sign. *)
Definition pow2 (e : Z) : Q :=
  if Z.leb 0 e then inject_Z (2 ^ e) else (/ inject_Z (2 ^ (- e)))%Q.

(** The binade of a positive rational: the [e] with [2^e <= q < 2^(e+1)]. *)
Definition binade (q : Q) : Z :=
  let e := Z.log2 (Qnum q) - Z.log2 (Z.pos (Qden q)) in
  if Qle_bool (pow2 e) q then e else e - 1.

(** The nearest integer, the even one of two that are as near. *)
Definition roundHalfEven (x : Q) : Z :=
  let f := Qfloor x in
  match Qcompare (x - inject_Z f) (1 # 2) with
  | Lt => f
  | Gt => f + 1
  | Eq => if Z.even f then f else f + 1
  end.

Definition isNegative (q : Q) : bool := negb (Qle_bool 0 q).

(** The double nearest to a rational, ties to even: 53 bits of
    significand in the binade of the value, the exponent no lower than
    that of the subnormals, and an infinity from [2^1024] on. *)
Definition roundDouble (q : Q) : Number Q :=
  if Qeq_bool q 0 then Num 0%Q
  else
    let a := Qabs q in
    let k := Z.max (binade a - 52) (-1074) in
    let v := Qred (inject_Z (roundHalfEven (a / pow2 k)) * pow2 k) in
    if Qle_bool (pow2 1024) v then Infinity (isNegative q)
    else Num (if isNegative q then Qred (- v) else v).

(** The double nearest to an integer; it is an integer itself. *)
Definition roundInteger (z : Z) : Number Z :=
  match roundDouble (inject_Z z) with
  | Num q => Num (Qfloor q)
  | Infinity negative => Infinity negative
  | NaN => NaN
  end.

(** ** Strings to numbers *)

(** White space and line terminators (of the ASCII range). *)
Definition isWhite (c : ascii) : bool :=
  bool_decide (c = " "%char) || bool_decide (c = "009"%char)
  || bool_decide (c = "010"%char) || bool_decide (c = "011"%char)
  || bool_decide (c = "012"%char) || bool_decide (c = "013"%char).

Definition digitOf (c : ascii) : option Z :=
  let n := Z.of_nat (nat_of_ascii c) in
  if Z.leb 48 n && Z.leb n 57 then Some (n - 48) else None.

(** The value of a digit or letter in a radix up to 16. *)
Definition digitIn (radix : Z) (c : ascii) : option Z :=
  let n := Z.of_nat (nat_of_ascii c) in
  let v :=
    if Z.leb 48 n && Z.leb n 57 then Some (n - 48)
    else if Z.leb 97 n && Z.leb n 102 then Some (n - 87)
    else if Z.leb 65 n && Z.leb n 70 then Some (n - 55)
    else None in
  match v with
  | Some d => if Z.ltb d radix then Some d else None
  | None => None
  end.

Fixpoint skipWhite (s : string) : string :=
  match s with
  | String c rest => if isWhite c then skipWhite rest else s
  | EmptyString => s
  end.

(** The longest prefix of decimal digits: its value, how many digits it
    has, and the rest of the string. *)
Fixpoint digits (acc : Z) (count : nat) (s : string) : Z * nat * string :=
  match s with
  | String c rest =>
      match digitOf c with
      | Some d => digits (10 * acc + d) (S count) rest
      | None => (acc, count, s)
      end
  | EmptyString => (acc, count, s)
  end.

(** What stops the reading of decimal digits: the end of the string, or a
    character that is no digit. *)
Definition stops (rest : string) : Prop :=
  match rest with
  | EmptyString => True
  | String c _ => digitOf c = None
  end.

(** What ends a decimal literal without exponent: the end of the string,
    or a character that is neither a digit nor the mark of an exponent. *)
Definition endsLiteral (rest : string) : Prop :=
  match rest with
  | EmptyString => True
  | String c _ => digitOf c = None ∧ c ≠ "e"%char ∧ c ≠ "E"%char
  end.

(** The same in another radix. *)
Fixpoint radixDigits (radix acc : Z) (count : nat) (s : string)
  : Z * nat * string :=
  match s with
  | String c rest =>
      match digitIn radix c with
      | Some d => radixDigits radix (radix * acc + d) (S count) rest
      | None => (acc, count, s)
      end
  | EmptyString => (acc, count, s)
  end.

(** An optional sign: [true] for '-', and the rest. *)
Definition sign (s : string) : bool * string :=
  match s with
  | String "-"%char rest => (true, rest)
  | String "+"%char rest => (false, rest)
  | _ => (false, s)
  end.

Definition signed (neg : bool) (z : Z) : Z := if neg then - z else z.

(** The prefix [0x] or [0X] of a hexadecimal numeral. *)
Definition hexPrefix (s : string) : option string :=
  match s with
  | String "0"%char (String c rest) =>
      if bool_decide (c = "x"%char) || bool_decide (c = "X"%char)
      then Some rest else None
  | _ => None
  end.

(** [parseInt(s)]: leading white space, a sign, then the digits up to the
    first other character, decimal or, after [0x], hexadecimal; [NaN]
    without a digit; the double nearest to the integer read. *)
Definition parseInt (s : string) : Number Z :=
  let '(neg, s1) := sign (skipWhite s) in
  let '(v, n, _) :=
    match hexPrefix s1 with
    | Some s2 => radixDigits 16 0 0 s2
    | None => digits 0 0 s1
    end in
  if bool_decide (n = 0%nat) then NaN else roundInteger (signed neg v).

(** [10^e] as a rational, for a decimal exponent of either sign. *)
Definition pow10 (e : Z) : Q :=
  if Z.leb 0 e then inject_Z (10 ^ e) else (/ inject_Z (10 ^ (- e)))%Q.

(** The decimal literal at the head of a string: sign, integer digits, an
    optional fraction, an optional exponent; its value and the rest of the
    string, or nothing when there is no digit. *)
Definition decimalPrefix (s : string) : option (Q * string) :=
  let '(neg, s1) := sign s in
  let '(ip, ni, s2) := digits 0 0 s1 in
  let '(fp, nf, s3) :=
    match s2 with
    | String "."%char rest => digits 0 0 rest
    | _ => (0, 0%nat, s2)
    end in
  if bool_decide (ni = 0%nat) && bool_decide (nf = 0%nat) then None
  else
    let mant := (inject_Z ip + inject_Z fp * pow10 (- Z.of_nat nf))%Q in
    let '(e, s4) :=
      match s3 with
      | String c rest =>
          if bool_decide (c = "e"%char) || bool_decide (c = "E"%char) then
            let '(eneg, r1) := sign rest in
            let '(ev, ne, r2) := digits 0 0 r1 in
            if bool_decide (ne = 0%nat) then (0, s3) else (signed eneg ev, r2)
          else (0, s3)
      | EmptyString => (0, s3)
      end in
    let v := (mant * pow10 e)%Q in
    Some (Qred (if neg then (- v)%Q else v), s4).

(** The literal [Infinity] at the head of a string, with its sign. *)
Definition infinityPrefix (s : string) : option (bool * string) :=
  let '(neg, s1) := sign s in
  if String.prefix "Infinity" s1
  then Some (neg, String.substring 8 (String.length s1 - 8) s1)
  else None.

(** The numeric literal at the head of a string, as a double, and the
    rest of the string. *)
Definition numericPrefix (s : string) : option (Number Q * string) :=
  match decimalPrefix s with
  | Some (q, rest) => Some (roundDouble q, rest)
  | None =>
      match infinityPrefix s with
      | Some (neg, rest) => Some (Infinity neg, rest)
      | None => None
      end
  end.

(** [parseFloat(s)]: the literal after leading white space, whatever
    follows it; the double nearest to its value. *)
Definition parseFloat (s : string) : Number Q :=
  match numericPrefix (skipWhite s) with
  | Some (n, _) => n
  | None => NaN
  end.

(** The prefix of a binary, octal or hexadecimal literal, with its radix. *)
Definition radixPrefix (s : string) : option (Z * string) :=
  match s with
  | String "0"%char (String c rest) =>
      if bool_decide (c = "x"%char) || bool_decide (c = "X"%char) then Some (16, rest)
      else if bool_decide (c = "o"%char) || bool_decide (c = "O"%char) then Some (8, rest)
      else if bool_decide (c = "b"%char) || bool_decide (c = "B"%char) then Some (2, rest)
      else None
  | _ => None
  end.

(** [+s], [Number(s)]: the whole string must be one literal, white space
    around it aside; a string of white space only is 0. *)
Definition toNumber (s : string) : Number Q :=
  let t := skipWhite s in
  if bool_decide (t = "") then Num 0%Q
  else
    match radixPrefix t with
    | Some (radix, body) =>
        let '(v, n, rest) := radixDigits radix 0 0 body in
        if bool_decide (n = 0%nat) || negb (bool_decide (skipWhite rest = ""))
        then NaN else roundDouble (inject_Z v)
    | None =>
        match numericPrefix t with
        | Some (n, rest) => if bool_decide (skipWhite rest = "") then n else NaN
        | None => NaN
        end
    end.

(** [parseInt(v.toString())]; [undefined.toString()] throws.  An integer
    prints as its decimal numeral and parses back to itself. *)
Definition parseIntOfToString (v : IdValue) : option (Number Z) :=
  match v with
  | IdUndefined => None
  | IdStr s => Some (parseInt s)
  | IdNum z => Some (Num z)
  end.

(** [parseFloat(v.toString())]; a number prints as a numeral that parses
    back to itself. *)
Definition parseFloatOfToString (v : PriceValue) : option (Number Q) :=
  match v with
  | PriceUndefined => None
  | PriceStr s => Some (parseFloat s)
  | PriceNum q => Some (Num q)
  end.

(** ** Decimal numerals *)

(** The character of a decimal digit. *)
Definition digitChar (d : nat) : ascii := ascii_of_nat (48 + d).

(** The numeral written with the given digits, and the integer it
    denotes. *)
Definition numeral (ds : list nat) : string :=
  string_of_list_ascii (digitChar <$> ds).

Definition numeralValue (ds : list nat) : Z :=
  fold_left (λ acc d, 10 * acc + Z.of_nat d) ds 0.

(** The value of the numeral with integer digits [ip] and fraction digits
    [fp]. *)
Definition decimalValue (ip fp : list nat) : Q :=
  (inject_Z (numeralValue ip)
   + inject_Z (numeralValue fp) / inject_Z (10 ^ Z.of_nat (length fp)))%Q.

(** ** Numbers to strings *)

(** Whether the double nearest to [q] is [x]. *)
Definition roundsTo (x q : Q) : bool :=
  match roundDouble q with
  | Num v => Qeq_bool v x
  | _ => false
  end.

(** The integer [s] next to [x / 10^p] for which [s * 10^p] rounds to the
    double [x], if any; of two, the nearer to [x], and the even one when
    they are as near. *)
Definition decimalOf (x : Q) (p : Z) : option Z :=
  let scale := inject_Z (10 ^ p) in
  let lo := Qfloor (x / scale) in
  let hi := lo + 1 in
  match roundsTo x (inject_Z lo * scale), roundsTo x (inject_Z hi * scale) with
  | true, true =>
      match Qcompare (x - inject_Z lo * scale) (inject_Z hi * scale - x) with
      | Lt => Some lo
      | Gt => Some hi
      | Eq => Some (if Z.even lo then lo else hi)
      end
  | true, false => Some lo
  | false, true => Some hi
  | false, false => None
  end.

(** The fewest digits that give the double [x] back: [s] and [p] with
    [s * 10^p] rounding to [x], trying [k], [k + 1], ... digits; [e10] is
    the decimal exponent of [x]. *)
Fixpoint shortest (x : Q) (e10 : Z) (k : Z) (fuel : nat) : Z * Z :=
  match fuel with
  | O => (Qfloor x, 0)
  | S fuel' =>
      match decimalOf x (e10 + 1 - k) with
      | Some s => (s, e10 + 1 - k)
      | None => shortest x e10 (k + 1) fuel'
      end
  end.

Fixpoint dropZeros (reversed : list ascii) : list ascii :=
  match reversed with
  | "0"%char :: rest => dropZeros rest
  | _ => reversed
  end.

(** [Number::toString] of a double [x] from 1e21 on: the shortest digits
    that give it back and a decimal exponent, as in 1.2345678901234568e+29. *)
Definition exponentForm (x : Q) : string :=
  let e10 := Z.of_nat (String.length (pretty (Qfloor x))) - 1 in
  let '(s, p) := shortest x e10 1 17 in
  let ds := pretty s in
  let e := Z.of_nat (String.length ds) - 1 + p in
  match rev (dropZeros (rev (list_ascii_of_string ds))) with
  | [d] => String d ("e+" +:+ pretty e)
  | d :: more => String d ("." +:+ string_of_list_ascii more +:+ "e+" +:+ pretty e)
  | [] => ds
  end.

End Js.

(* ===================================================================== *)
(** * components/retailer/PriceManagement.tsx (unnamed/part_005)          *)
(* ===================================================================== *)

Module PriceManagement.
Import Js.

Record ReferencePrice := mkReferencePrice {
  rp_id : Z;
  rp_sku : SKU;
  rp_district : Nullable District;
  rp_price : Q;
  rp_is_active : bool
}.

Record PublishedPrice := mkPublishedPrice {
  pp_id : Z;
  pp_sku : SKU;
  pp_district : District;
  pp_price : Q;
  compliant : bool;
  markup_percentage : Q;
  reference_price : Q
}.

(** [ref.district?.id === districtId]. *)
Definition districtIs (d : Nullable District) (districtId : Z) : bool :=
  match d with
  | Val x => Z.eqb (district_id x) districtId
  | Null | Undefined => false
  end.

(** [ref.district === null]. *)
Definition isNull {A} (d : Nullable A) : bool :=
  match d with Null => true | _ => false end.

(** The predicate of the first [find]. *)
Definition isDistrictSpecific (skuId districtId : Z) (ref : ReferencePrice) : bool :=
  Z.eqb (sku_id (rp_sku ref)) skuId && districtIs (rp_district ref) districtId.

(** The predicate of the second [find]. *)
Definition isGlobal (skuId : Z) (ref : ReferencePrice) : bool :=
  Z.eqb (sku_id (rp_sku ref)) skuId && isNull (rp_district ref).

(** [Array.prototype.find]: the first element satisfying the predicate, or
    [undefined]. *)
Definition arrayFind {A} (p : A → bool) (l : list A) : Nullable A :=
  match List.find p l with
  | Some a => Val a
  | None => Undefined
  end.

(** [getReferencePrice(skuId, districtId?)], closed over the results of
    the reference-price query ([None] while there is no data). *)
Definition getReferencePrice (results : option (list ReferencePrice))
    (skuId : Z) (districtId : option Z) : Nullable ReferencePrice :=
  match results with
  | None => Null
  | Some refs =>
      let global := arrayFind (isGlobal skuId) refs in
      match districtId with
      | Some d =>
          if truthyNumber d then
            match arrayFind (isDistrictSpecific skuId d) refs with
            | Val districtSpecific => Val districtSpecific
            | _ => global
            end
          else global
      | None => global
      end
  end.

(** The claim on [getReferencePrice], for a result and the district id
    taken as given ([scope]). *)
Definition reference_price_lookup (refs : list ReferencePrice) (skuId : Z)
    (scope : option Z) (result : Nullable ReferencePrice) : Prop :=
  let scoped ref := ∃ d, scope = Some d ∧ isDistrictSpecific skuId d ref = true in
  ((∃ ref, ref ∈ refs ∧ scoped ref) →
     ∃ ref, result = Val ref ∧ ref ∈ refs ∧ scoped ref)
  ∧ (¬ (∃ ref, ref ∈ refs ∧ scoped ref) →
     (∃ ref, ref ∈ refs ∧ isGlobal skuId ref = true) →
     ∃ ref, result = Val ref ∧ ref ∈ refs ∧ isGlobal skuId ref = true)
  ∧ (¬ (∃ ref, ref ∈ refs ∧ scoped ref) →
     ¬ (∃ ref, ref ∈ refs ∧ isGlobal skuId ref = true) →
     result = Undefined).

(** The district id that [getReferencePrice] takes as given: a zero is
    treated like an absent one. *)
Definition givenDistrict (districtId : option Z) : option Z :=
  match districtId with
  | Some d => if truthyNumber d then Some d else None
  | None => None
  end.

(** ** The publish-price form *)

(** The values held by the form of [useForm<PriceFormData>()]. *)
Record FormValues := mkForm {
  f_sku_id : IdValue;
  f_district_id : IdValue;
  f_price : PriceValue
}.

(** [reset()] without defaults. *)
Definition blankForm : FormValues := mkForm IdUndefined IdUndefined PriceUndefined.

(** [processedData], the body of the create and update requests. *)
Record PriceFormData := mkData {
  data_sku_id : Number Z;
  data_district_id : option (Number Z);     (* [None] is [undefined] *)
  data_price : Number Q
}.

Record FormErrors := mkErrors {
  err_sku_id : option string;
  err_price : option string
}.

Definition noErrors : FormErrors := mkErrors None None.

(** What a handler asks of the outside world. *)
Inductive Effect :=
| CreatePublishedPrice (data : PriceFormData)
| UpdatePublishedPrice (priceId : Z) (data : PriceFormData)
| DeletePublishedPrice (priceId : Z)
| InvalidateQueries (queryKey : string)
| SetTimeoutEdit (ms : Z) (existingPrice : PublishedPrice).
    (* [setTimeout(() => handleEdit(existingPrice), ms)] *)

(** An effect that creates or alters a price on the server. *)
Definition writesPrice (e : Effect) : bool :=
  match e with
  | CreatePublishedPrice _ | UpdatePublishedPrice _ _ | DeletePublishedPrice _ => true
  | InvalidateQueries _ | SetTimeoutEdit _ _ => false
  end.

Record State := mkState {
  isCreateModalOpen : bool;
  editingPrice : option PublishedPrice;
  error : string;
  form : FormValues;
  errors : FormErrors
}.

Definition initialState : State := mkState false None "" blankForm noErrors.

Definition setError (st : State) (msg : string) : State :=
  mkState (isCreateModalOpen st) (editingPrice st) msg (form st) (errors st).

(** The emptiness test of the [required] rule of react-hook-form. *)
Definition emptyId (v : IdValue) : bool :=
  match v with
  | IdUndefined => true
  | IdStr s => bool_decide (s = "")
  | IdNum _ => false
  end.

Definition emptyPrice (v : PriceValue) : bool :=
  match v with
  | PriceUndefined => true
  | PriceStr s => bool_decide (s = "")
  | PriceNum _ => false
  end.

(** The number the [min] rule compares. *)
Definition valueAsNumber (v : PriceValue) : Number Q :=
  match v with
  | PriceUndefined => NaN
  | PriceStr s => toNumber s
  | PriceNum q => Num q
  end.

(** [a < b] on numbers. *)
Definition Qltb (a b : Q) : bool := negb (Qle_bool b a).

(** [register('sku_id', { required: 'Please select a product' })]. *)
Definition validateSku (v : IdValue) : option string :=
  if emptyId v then Some "Please select a product" else None.

(** [register('price', { required: 'Price is required',
      min: { value: 0.01, message: 'Price must be greater than 0' } })]. *)
Definition validatePrice (v : PriceValue) : option string :=
  if emptyPrice v then Some "Price is required"
  else
    match valueAsNumber v with
    | Num q => if Qltb q (1 # 100) then Some "Price must be greater than 0" else None
    | Infinity negative =>
        if negative then Some "Price must be greater than 0" else None
    | NaN => None
    end.

Definition validate (values : FormValues) : FormErrors :=
  mkErrors (validateSku (f_sku_id values)) (validatePrice (f_price values)).

(** [onSubmit(data)]; [None] when [toString] is called on [undefined]. *)
Definition onSubmit (st : State) (data : FormValues) : option (State * list Effect) :=
  match parseIntOfToString (f_sku_id data), parseFloatOfToString (f_price data) with
  | Some sku, Some price =>
      let district :=
        if truthyId (f_district_id data)
        then parseIntOfToString (f_district_id data)
        else None in
      let processedData := mkData sku district price in
      match editingPrice st with
      | Some editing => Some (st, [UpdatePublishedPrice (pp_id editing) processedData])
      | None => Some (st, [CreatePublishedPrice processedData])
      end
  | _, _ => None
  end.

(** The request [onSubmit] sends: an update in edit mode, a creation
    otherwise. *)
Definition submitRequest (st : State) (data : PriceFormData) : Effect :=
  match editingPrice st with
  | Some editing => UpdatePublishedPrice (pp_id editing) data
  | None => CreatePublishedPrice data
  end.

(** [handleSubmit(onSubmit)] of react-hook-form: validate, and call
    [onSubmit] with the values only when no rule fails. *)
Definition handleSubmit (st : State) : option (State * list Effect) :=
  let errs := validate (form st) in
  match err_sku_id errs, err_price errs with
  | None, None =>
      onSubmit (mkState (isCreateModalOpen st) (editingPrice st) (error st)
                        (form st) noErrors) (form st)
  | _, _ =>
      Some (mkState (isCreateModalOpen st) (editingPrice st) (error st)
                    (form st) errs, [])
  end.

(** [handleEdit(price)]: [reset(values)] also clears the field errors. *)
Definition handleEdit (st : State) (price : PublishedPrice) : State :=
  mkState true (Some price) (error st)
    (mkForm (IdNum (sku_id (pp_sku price)))
            (IdNum (district_id (pp_district price)))
            (PriceNum (pp_price price)))
    noErrors.

(** ** createPriceMutation.onError *)

(** [error.response.data] as the server sends it. *)
Inductive ErrorData :=
| ErrArray (messages : list string)
| ErrObject (fields : list (string * list string))
| ErrString (text : string).

Record AxiosError := mkError {
  response_status : option Z;
  response_data : option ErrorData;
  message : string
}.

(** [if (error.response?.data)]. *)
Definition truthyData (d : ErrorData) : bool :=
  match d with
  | ErrString s => negb (bool_decide (s = ""))
  | ErrArray _ | ErrObject _ => true
  end.

Definition overlapError : string :=
  "Published price period overlaps with existing active price.".

Definition activePriceMessage : string :=
  "You already have an active price for this product. Please edit the existing price or wait for it to expire.".

(** [price.sku.id === currentData.sku_id]. *)
Definition sameSku (currentData : PriceFormData) (price : PublishedPrice) : bool :=
  match data_sku_id currentData with
  | Num z => Z.eqb (sku_id (pp_sku price)) z
  | Infinity _ | NaN => false
  end.

(** The price the overlap branch looks for: that of the same SKU in the
    loaded published prices. *)
Definition findExisting (variables : option PriceFormData)
    (publishedPrices : option (list PublishedPrice)) : Nullable PublishedPrice :=
  match variables, publishedPrices with
  | Some currentData, Some results => arrayFind (sameSku currentData) results
  | _, _ => Undefined
  end.

(** [onError] of [createPriceMutation].  [getErrorMessage] is imported from
    lib/utils and taken as a parameter; [variables] is
    [createPriceMutation.variables]; [publishedPrices] the query data. *)
Definition onError (getErrorMessage : AxiosError → string) (st : State)
    (err : AxiosError) (variables : option PriceFormData)
    (publishedPrices : option (list PublishedPrice)) : State * list Effect :=
  match response_data err with
  | Some errorData =>
      if truthyData errorData then
        match errorData with
        | ErrArray messages =>
            if bool_decide (overlapError ∈ messages) then
              (setError st activePriceMessage,
               match findExisting variables publishedPrices with
               | Val existingPrice => [SetTimeoutEdit 1000 existingPrice]
               | _ => []
               end)
            else (setError st (String.concat ", " messages), [])
        | ErrObject fields =>
            (setError st (String.concat ", " (concat (snd <$> fields))), [])
        | ErrString _ => (setError st (getErrorMessage err), [])
        end
      else (setError st (getErrorMessage err), [])
  | None => (setError st (getErrorMessage err), [])
  end.

(** Letting the pending timers fire. *)
Fixpoint runTimers (st : State) (effects : list Effect) : State :=
  match effects with
  | SetTimeoutEdit _ existingPrice :: rest => runTimers (handleEdit st existingPrice) rest
  | _ :: rest => runTimers st rest
  | [] => st
  end.

(** The overlap handling as the specification words it: no price is
    written, the message is set, and the form ends in edit mode on a
    published price of the SKU of the failed request. *)
Definition overlap_handled_as_specified (getErrorMessage : AxiosError → string)
    (st : State) (err : AxiosError) (currentData : PriceFormData)
    (publishedPrices : option (list PublishedPrice)) : Prop :=
  let '(st', effects) := onError getErrorMessage st err (Some currentData) publishedPrices in
  Forall (λ e, writesPrice e = false) effects
  ∧ error st' = activePriceMessage
  ∧ ∃ existing, editingPrice (runTimers st' effects) = Some existing
                ∧ sameSku currentData existing = true.

(** ** Table cells on compliance *)

(** [Number.prototype.toFixed(1)]: a minus sign for a negative number,
    then, for an absolute value below 1e21, its nearest tenth (the larger
    of two that are as near) with one decimal; from 1e21 on, what
    [Number::toString] prints, the exponent form. *)
Definition toFixed1 (q : Q) : string :=
  let a := Qabs q in
  let text :=
    if Qle_bool (inject_Z (10 ^ 21)) a then exponentForm a
    else
      let n := Qfloor (a * 10 + (1 # 2))%Q in
      pretty (n / 10) +:+ "." +:+ pretty (n mod 10) in
  if Qltb q 0 then "-" +:+ text else text.

(** The Markup column. *)
Definition markupClass (item : PublishedPrice) : string :=
  if Qltb 10 (markup_percentage item) then "text-red-600" else "text-green-600".

Definition markupText (item : PublishedPrice) : string :=
  toFixed1 (markup_percentage item) +:+ "%".

(** The Status column: the badge variant and its label. *)
Definition statusBadge (item : PublishedPrice) : string * string :=
  (if compliant item then "success" else "danger",
   if compliant item then "Compliant" else "Non-compliant").

End PriceManagement.

(* ===================================================================== *)
(** * The retailer compliance page (unnamed/part_006)                      *)
(* ===================================================================== *)

Module CompliancePage.
Import Js PriceManagement.

(** [publishedPrices?.data.results || []]. *)
Definition prices (results : option (list PublishedPrice)) : list PublishedPrice :=
  default [] results.

Definition totalPrices (ps : list PublishedPrice) : nat := length ps.

Definition compliantPrices (ps : list PublishedPrice) : nat :=
  length (List.filter compliant ps).

Definition nonCompliantPrices (ps : list PublishedPrice) : nat :=
  (totalPrices ps - compliantPrices ps)%nat.

Definition complianceRate (ps : list PublishedPrice) : Q :=
  if (0 <? totalPrices ps)%nat
  then (inject_Z (Z.of_nat (compliantPrices ps))
        / inject_Z (Z.of_nat (totalPrices ps)) * 100)%Q
  else 0%Q.

(** The colour of the rate bar. *)
Definition rateBarClass (ps : list PublishedPrice) : string :=
  if Qle_bool 80 (complianceRate ps) then "bg-green-600"
  else if Qle_bool 60 (complianceRate ps) then "bg-yellow-600"
  else "bg-red-600".

(** The badge of one row of the details list. *)
Definition rowBadge (price : PublishedPrice) : string * string :=
  (if compliant price then "success" else "danger",
   if compliant price then "Compliant" else "Non-compliant").

(** The claim on compliance rendering: the badge shows the flag received;
    the frontend judges nothing itself, so that two prices received with
    the same flag are marked alike; and the markup is shown as received. *)
Definition compliance_rendered_as_received : Prop :=
  (∀ p, (statusBadge p).2 = (if compliant p then "Compliant" else "Non-compliant")
        ∧ rowBadge p = statusBadge p)
  ∧ (∀ p q, compliant p = compliant q → markupClass p = markupClass q)
  ∧ (∀ p q, markupText p = markupText q →
            (markup_percentage p == markup_percentage q)%Q).

End CompliancePage.

(* ===================================================================== *)
(** * lib/api.ts: the axios client and its interceptors                    *)
(* ===================================================================== *)

Module ApiClient.

Record Tokens := mkTokens { access : string; refresh : string }.

(** The body of a request. *)
Inductive Payload :=
| NoPayload
| RefreshPayload (refreshToken : string)       (* [{ refresh: refreshToken }] *)
| Json (text : string).

(** The request configuration, with the [_retry] mark the interceptor
    adds to it. *)
Record RequestConfig := mkConfig {
  method : string;
  url : string;
  authorization : option string;
  payload : Payload;
  _retry : bool
}.

(** [response.data]: an [AuthResponse] with its token pair, or any other
    body. *)
Inductive Body := AuthBody (tokens : Tokens) | OtherBody (text : string).

Record Response := mkResponse { status : Z; body : Body }.

(** What the network gives back: a response, or none at all. *)
Inductive Outcome := Replied (r : Response) | NoResponse.

(** The server and network: the outcome of the [n]-th request sent. *)
Definition Server := nat → RequestConfig → Outcome.

Record AxiosError := mkError {
  config : RequestConfig;
  response : option Response
}.

(** A settled promise. *)
Inductive Settled := Resolved (r : Response) | Rejected (e : AxiosError).

(** [window]: [localStorage] and [location.href]. *)
Record Window := mkWindow {
  localStorage : gmap string string;
  href : string
}.

(** The state around the client: [window] ([None] where it is undefined)
    and every request sent so far. *)
Record State := mkState {
  window : option Window;
  sent : list RequestConfig
}.

Definition getItem (st : State) (name : string) : option string :=
  w ← window st; localStorage w !! name.

Definition getAccessToken (st : State) : option string := getItem st "access_token".
Definition getRefreshToken (st : State) : option string := getItem st "refresh_token".

Definition setTokens (st : State) (tokens : Tokens) : State :=
  mkState
    ((λ w, mkWindow (<["refresh_token" := refresh tokens]>
                       (<["access_token" := access tokens]> (localStorage w)))
                    (href w)) <$> window st)
    (sent st).

Definition clearTokens (st : State) : State :=
  mkState
    ((λ w, mkWindow (delete "refresh_token" (delete "access_token" (localStorage w)))
                    (href w)) <$> window st)
    (sent st).

(** [window.location.href = target]. *)
Definition setHref (st : State) (target : string) : State :=
  mkState ((λ w, mkWindow (localStorage w) target) <$> window st) (sent st).

(** Truthiness of a token read from storage. *)
Definition truthy (token : option string) : bool :=
  match token with
  | Some t => negb (bool_decide (t = ""))
  | None => false
  end.

Definition bearer (token : string) : string := "Bearer " +:+ token.

Definition withAuthorization (config : RequestConfig) (value : string) : RequestConfig :=
  mkConfig (method config) (url config) (Some value) (payload config) (_retry config).

Definition markRetry (config : RequestConfig) : RequestConfig :=
  mkConfig (method config) (url config) (authorization config) (payload config) true.

(** The request interceptor. *)
Definition requestInterceptor (st : State) (config : RequestConfig) : RequestConfig :=
  match getAccessToken st with
  | Some token => if truthy (Some token) then withAuthorization config (bearer token)
                  else config
  | None => config
  end.

(** [this.client.post('/token/refresh/', { refresh: refreshToken })]. *)
Definition refreshRequest (refreshToken : string) : RequestConfig :=
  mkConfig "post" "/token/refresh/" None (RefreshPayload refreshToken) false.

(** axios' default [validateStatus]. *)
Definition succeeded (r : Response) : bool :=
  Z.leb 200 (status r) && Z.ltb (status r) 300.

Definition statusIs (e : AxiosError) (code : Z) : bool :=
  match response e with
  | Some r => Z.eqb (status r) code
  | None => false
  end.

(** The response interceptor's error handler.  [client] is [this.client]:
    the refresh request and the re-sent request go through the same
    intercepted client.  [None] is a promise that never settles. *)
Definition responseErrorInterceptor
    (client : State → RequestConfig → option (State * Settled))
    (st : State) (error : AxiosError) : option (State * Settled) :=
  let originalRequest := config error in
  if statusIs error 401 && negb (_retry originalRequest) then
    let originalRequest := markRetry originalRequest in
    let error := mkError originalRequest (response error) in
    match getRefreshToken st with
    | Some refreshToken =>
        if truthy (Some refreshToken) then
          match client st (refreshRequest refreshToken) with
          | None => None
          | Some (st, Resolved response) =>
              match body response with
              | AuthBody tokens =>
                  let st := setTokens st tokens in
                  client st (withAuthorization originalRequest (bearer (access tokens)))
              | OtherBody _ =>
                  (* reading [response.data.tokens.access] throws: caught *)
                  Some (setHref (clearTokens st) "/login", Rejected error)
              end
          | Some (st, Rejected refreshError) =>
              Some (setHref (clearTokens st) "/login", Rejected error)
          end
        else Some (st, Rejected error)
    | None => Some (st, Rejected error)
    end
  else Some (st, Rejected error).

(** [this.client(config)]: the request interceptor, the network, and the
    response interceptors.  [fuel] bounds the nesting of requests made from
    within the error handler. *)
Fixpoint request (server : Server) (fuel : nat) (st : State)
    (config : RequestConfig) : option (State * Settled) :=
  match fuel with
  | O => None
  | S fuel =>
      let config := requestInterceptor st config in
      let outcome := server (length (sent st)) config in
      let st := mkState (window st) (sent st ++ [config]) in
      match outcome with
      | Replied r =>
          if succeeded r then Some (st, Resolved r)
          else responseErrorInterceptor (request server fuel) st
                 (mkError config (Some r))
      | NoResponse =>
          responseErrorInterceptor (request server fuel) st (mkError config None)
      end
  end.

(** The outcome of the first attempt of [config] in state [st]. *)
Definition firstOutcome (server : Server) (st : State) (config : RequestConfig)
  : Outcome :=
  server (length (sent st)) (requestInterceptor st config).

Definition failed (o : Outcome) : bool :=
  match o with
  | Replied r => negb (succeeded r)
  | NoResponse => true
  end.

(** "No failure recovery", as the specification words it: a request whose
    first attempt fails is rejected, is sent once, and leaves the stored
    state as it was. *)
Definition no_recovery_as_specified (server : Server) (fuel : nat) (st : State)
    (config : RequestConfig) : Prop :=
  failed (firstOutcome server st config) = true →
  ∃ st' e,
    request server fuel st config = Some (st', Rejected e)
    ∧ sent st' = (sent st ++ [requestInterceptor st config])%list
    ∧ window st' = window st.

(** The failures the interceptor recovers from: a first 401 while a
    non-empty refresh token is stored. *)
Definition recoverable (st : State) (config : RequestConfig) (o : Outcome) : bool :=
  match o with
  | Replied r =>
      Z.eqb (status r) 401 && negb (_retry config) && truthy (getRefreshToken st)
  | NoResponse => false
  end.

End ApiClient.

(* ===================================================================== *)
(** * components/ui/DataTable.tsx                                          *)
(* ===================================================================== *)

Module DataTable.

Inductive Direction := asc | desc.

#[global] Instance Direction_eq_dec : EqDecision Direction.
Proof. solve_decision. Defined.

(** The [sortConfig] state, [null] at first. *)
Record SortConfig := mkSort { key : string; direction : Direction }.

(** [handleSort(key)]: the next [sortConfig]. *)
Definition handleSort (sortConfig : option SortConfig) (k : string)
  : option SortConfig :=
  let direction :=
    match sortConfig with
    | Some c =>
        if bool_decide (key c = k) && bool_decide (direction c = asc)
        then desc else asc
    | None => asc
    end in
  Some (mkSort k direction).

Section Rows.

(** Rows of type [T], cell values of type [V]; [get item k] is [item[k]]
    and [lt a b] is [a < b] on cell values ([a > b] is [lt b a]). *)
Context {T V : Type} (get : T → string → V) (lt : V → V → bool).

(** The comparator given to [sort]. *)
Definition comparator (c : SortConfig) (a b : T) : Z :=
  let aValue := get a (key c) in
  let bValue := get b (key c) in
  if lt aValue bValue then
    match direction c with asc => -1 | desc => 1 end
  else if lt bValue aValue then
    match direction c with asc => 1 | desc => -1 end
  else 0.

(** [Array.prototype.sort] is stable; it is modelled by the stable
    insertion sort: an element goes before the first element of the sorted
    rest that the comparator does not put before it. *)
Fixpoint insert (cmp : T → T → Z) (x : T) (sorted : list T) : list T :=
  match sorted with
  | [] => [x]
  | y :: rest => if Z.leb (cmp x y) 0 then x :: sorted else y :: insert cmp x rest
  end.

Definition sort (cmp : T → T → Z) (l : list T) : list T :=
  foldr (insert cmp) [] l.

(** Arrays live in a heap and are passed by reference. *)
Definition Ref := nat.

(** [[...data]]: a fresh array with the same elements. *)
Definition spread (heap : gmap nat (list T)) (data : Ref)
  : gmap nat (list T) * Ref :=
  let copy := fresh (dom heap) in
  (<[copy := default [] (heap !! data)]> heap, copy).

(** [array.sort(cmp)]: sorts the array in place and returns it. *)
Definition sortInPlace (cmp : T → T → Z) (heap : gmap nat (list T)) (array : Ref)
  : gmap nat (list T) * Ref :=
  (alter (sort cmp) array heap, array).

(** The body of the [useMemo] that computes [sortedData]. *)
Definition sortedData (heap : gmap nat (list T)) (data : Ref)
    (sortConfig : option SortConfig) : gmap nat (list T) * Ref :=
  match sortConfig with
  | None => (heap, data)
  | Some c =>
      let '(heap, copy) := spread heap data in
      sortInPlace (comparator c) heap copy
  end.

(** The rows in the order the table body maps over them. *)
Definition renderedRows (heap : gmap nat (list T)) (data : Ref)
    (sortConfig : option SortConfig) : list T :=
  let '(heap, rows) := sortedData heap data sortConfig in
  default [] (heap !! rows).

(** The order of two rows in a column: [b] may follow [a]. *)
Definition inOrder (c : SortConfig) (a b : T) : Prop :=
  match direction c with
  | asc => lt (get b (key c)) (get a (key c)) = false
  | desc => lt (get a (key c)) (get b (key c)) = false
  end.

(** The ordering as the specification words it, for a data array: with a
    sort column chosen, the rendered rows are ordered by it. *)
Definition ordered_as_specified (heap : gmap nat (list T)) (data : Ref) : Prop :=
  ∀ c, StronglySorted (inOrder c) (renderedRows heap data (Some c)).

End Rows.

(** [a < b] on cells that hold a number or are [undefined]: a comparison
    with [undefined] is false either way. *)
Definition cellLess (a b : option Z) : bool :=
  match a, b with
  | Some x, Some y => Z.ltb x y
  | _, _ => false
  end.

End DataTable.

(* ===================================================================== *)
(** * lib/api.ts: utility methods; contexts/AuthContext.tsx                *)
(* ===================================================================== *)

Module AuthContext.
Import ApiClient.

(** [apiClient.isAuthenticated()]: [!!this.getAccessToken()]. *)
Definition isAuthenticated (st : State) : bool := truthy (getAccessToken st).

(** [apiClient.logout()]: [clearTokens()] is guarded by [typeof window],
    the assignment to [window.location.href] is not: without a window it
    throws ([None]). *)
Definition logout (st : State) : option State :=
  match window st with
  | Some _ => Some (setHref (clearTokens st) "/login")
  | None => None
  end.

(** The state of [AuthProvider]: [user] and [isLoading]. *)
Record AuthState := mkAuthState {
  user : option User;
  isLoading : bool
}.

(** [useState<User | null>(null)], [useState(true)]. *)
Definition initialAuth : AuthState := mkAuthState None true.

(** [this.client.get('/auth/profile/')]. *)
Definition getProfile : RequestConfig :=
  mkConfig "get" "/auth/profile/" None NoPayload false.

(** [this.client.post('/auth/login/', credentials)]. *)
Definition loginRequest (credentials : string) : RequestConfig :=
  mkConfig "post" "/auth/login/" None (Json credentials) false.

(** How an async handler of the context ends. *)
Inductive Ended := Returned | Threw.

(** [setIsLoading(true)], the first statement of [login]: the state of
    the provider for as long as the call has not settled. *)
Definition loginPending (auth : AuthState) : AuthState :=
  mkAuthState (user auth) true.

Section Provider.

(** The body of a response read as a [User] ([response.data], or
    [response.data.user] for the login response). *)
Context (asUser : Body → User).

(** [initializeAuth], run once when the provider mounts.  [None] when the
    profile request never settles. *)
Definition initializeAuth (server : Server) (fuel : nat) (auth : AuthState)
    (st : State) : option (AuthState * State) :=
  if isAuthenticated st then
    match request server fuel st getProfile with
    | None => None
    | Some (st, Resolved response) =>
        Some (mkAuthState (Some (asUser (body response))) false, st)
    | Some (st, Rejected _) =>
        (* catch: apiClient.logout(); finally: setIsLoading(false) *)
        Some (mkAuthState (user auth) false, default st (logout st))
    end
  else Some (mkAuthState (user auth) false, st).

(** [login(credentials)]: the tokens of the response are written with
    [localStorage.setItem] (which needs a window), then the user is set;
    a failure is rethrown; [isLoading] ends false either way. *)
Definition login (server : Server) (fuel : nat) (auth : AuthState) (st : State)
    (credentials : string) : option (AuthState * State * Ended) :=
  match request server fuel st (loginRequest credentials) with
  | None => None
  | Some (st, Resolved response) =>
      match body response, window st with
      | AuthBody tokens, Some _ =>
          Some (mkAuthState (Some (asUser (body response))) false,
                setTokens st tokens, Returned)
      | _, _ => Some (mkAuthState (user auth) false, st, Threw)
      end
  | Some (st, Rejected _) => Some (mkAuthState (user auth) false, st, Threw)
  end.

(** The state of the provider after [login] was called: that of the
    settled call, or the pending state as long as the call has not settled
    (within [fuel] requests). *)
Definition providerAfterLogin (server : Server) (fuel : nat) (auth : AuthState)
    (st : State) (credentials : string) : AuthState :=
  match login server fuel auth st credentials with
  | Some (auth', _, _) => auth'
  | None => loginPending auth
  end.

End Provider.

End AuthContext.

(** ** What a call of the client may do, and what it answers *)

Module ApiClientLaws.
Import ApiClient.

(** What a call of the client may do to the state around it: the log of
    sent requests only grows; a missing window stays missing; of a window,
    only the two token entries of [localStorage] may change, and the
    location only to /login. *)
Definition touchesOnlyTokens (before after : State) : Prop :=
  sent before `prefix_of` sent after
  ∧ match window before, window after with
    | Some w, Some w' =>
        (href w' = href w ∨ href w' = "/login")
        ∧ ∀ name, name ≠ "access_token" → name ≠ "refresh_token" →
                  localStorage w' !! name = localStorage w !! name
    | None, None => True
    | _, _ => False
    end.

(** The request a settled call is about: here, that of [config] up to the
    headers and the retry mark the interceptors set. *)
Definition sameRequest (config config' : RequestConfig) : Prop :=
  method config' = method config ∧ url config' = url config
  ∧ payload config' = payload config.

(** What a settled call hands back: on success the successful reply of the
    server to the last request sent, which is the caller's request; on
    failure an error whose request is the caller's. *)
Definition settledAbout (server : Server) (config : RequestConfig)
    (after : State) (result : Settled) : Prop :=
  match result with
  | Resolved r =>
      ∃ (log : list RequestConfig) (last : RequestConfig),
        sent after = (log ++ [last])%list
        ∧ sameRequest config last
        ∧ server (length log) last = Replied r
        ∧ succeeded r = true
  | Rejected e => sameRequest config (ApiClient.config e)
  end.

(** The answers to a refresh request on which the interceptor gives up:
    no answer, a failure other than 401, or a success without a token
    pair. *)
Definition refreshRefused (o : Outcome) : bool :=
  match o with
  | Replied r =>
      if succeeded r then
        match body r with AuthBody _ => false | OtherBody _ => true end
      else negb (Z.eqb (status r) 401)
  | NoResponse => true
  end.

(** The outcome of a request once it is on the wire with its retry mark:
    it settles with the server's answer, whatever it is. *)
Definition settleMarked (config : RequestConfig) (o : Outcome) : Settled :=
  match o with
  | Replied r => if succeeded r then Resolved r else Rejected (mkError config (Some r))
  | NoResponse => Rejected (mkError config None)
  end.

End ApiClientLaws.

(* ===================================================================== *)
(** * The pages behind the guard (app/dashboard/.../page.tsx)              *)
(* ===================================================================== *)

Module Pages.
Import ProtectedRoute.

(** The [allowedRoles] each page gives to [ProtectedRoute]:
    app/dashboard/admin/page.tsx, RetailerDashboardPage (unnamed/part_002),
    app/dashboard/farmer/page.tsx, app/dashboard/retailer/prices/page.tsx
    and app/dashboard/farmer/search/page.tsx. *)
Definition guardedPages : list (string * list Role) :=
  [("/dashboard/admin", [gov_admin]);
   ("/dashboard/retailer", [retailer]);
   ("/dashboard/farmer", [farmer]);
   ("/dashboard/retailer/prices", [retailer]);
   ("/dashboard/farmer/search", [farmer])].

Definition allowedRolesOf (path : string) : option (list Role) :=
  snd <$> List.find (λ page, bool_decide (page.1 = path)) guardedPages.

(** What a visitor of [path] gets once the auth state is loaded: the
    redirect, if any, and what is rendered. *)
Definition visit (u : option User) (path : string)
  : option (option string * Rendered) :=
  roles ← allowedRolesOf path;
  Some (routerPush (AuthProvider u false) roles, render (AuthProvider u false) roles).

End Pages.

(* ===================================================================== *)
(** * ComplaintManagement.tsx: the modals and the resolve mutation         *)
(* ===================================================================== *)

Module ComplaintSessions.
Import ComplaintManagement.



Definition isResolve (r : Request) : bool :=
  match r with
  | ResolveComplaint _ _ => true
  | UpdateComplaintStatus _ _ _ => false
  end.

(** The resolve requests sent in a session. *)
Definition resolvesSent (st : State) (s : Session) : nat :=
  length (List.filter isResolve (flat_map snd (run st s))).

Definition isSettlement (ev : Event) : bool :=
  match ev with
  | ResolveSucceeded | ResolveFailed => true
  | Click _ | EditResolution _ => false
  end.

(** The resolve requests that came back, with success or failure. *)
Definition settlements (s : Session) : nat :=
  length (List.filter (λ step, isSettlement step.2) s).

Definition pendingCount (st : State) : nat :=
  if resolvePending st then 1 else 0.

End ComplaintSessions.

(* ===================================================================== *)
(** * PriceManagement (unnamed/part_005): the other handlers               *)
(* ===================================================================== *)

Module PriceHandlers.
Import Js PriceManagement.

(** The form of [useForm] holds, besides its values, the default values
    that [reset()] returns to: none at first ([useForm()] is given none),
    and those of [values] after a [reset(values)]. *)
Record Page := mkPage {
  view : State;
  defaultValues : FormValues
}.

Definition mounted : Page := mkPage initialState blankForm.

(** The form values [handleEdit(price)] resets to. *)
Definition valuesOf (price : PublishedPrice) : FormValues :=
  mkForm (IdNum (sku_id (pp_sku price)))
         (IdNum (district_id (pp_district price)))
         (PriceNum (pp_price price)).

(** [handleCloseModal]: its [reset()] puts the default values back into
    the fields and clears the field errors. *)
Definition handleCloseModal (page : Page) : Page :=
  mkPage (mkState false None "" (defaultValues page) noErrors)
         (defaultValues page).

(** The Publish New Price button: [setIsCreateModalOpen(true)]. *)
Definition openModal (st : State) : State :=
  mkState true (editingPrice st) (error st) (form st) (errors st).

(** [createPriceMutation.onSuccess]. *)
Definition createSucceeded (st : State) : State * list Effect :=
  (mkState false (editingPrice st) "" (form st) (errors st),
   [InvalidateQueries "published-prices"]).

(** [updatePriceMutation.onSuccess]. *)
Definition updateSucceeded (st : State) : State * list Effect :=
  (mkState (isCreateModalOpen st) None "" (form st) (errors st),
   [InvalidateQueries "published-prices"]).

(** [updatePriceMutation.onError]. *)
Definition updateFailed (getErrorMessage : AxiosError → string) (st : State)
    (err : AxiosError) : State * list Effect :=
  (setError st (getErrorMessage err), []).

(** What happens to the form between two renders: the Publish New Price
    button; [handleEdit(price)], from the edit button of a row or from the
    timer of the overlap handler; a change of the fields; a submit; the
    outcome of a request; the Cancel button and the closing of the modal. *)
Inductive FormEvent :=
| OpenForm
| EditPrice (price : PublishedPrice)
| Fill (values : FormValues)
| Submit
| CreateSucceeded
| UpdateSucceeded
| RequestFailed (message : string)
| CloseForm.

Definition formStep (page : Page) (e : FormEvent) : Page :=
  let st := view page in
  match e with
  | OpenForm => mkPage (openModal st) (defaultValues page)
  | EditPrice price =>
      mkPage (handleEdit st price) (form (handleEdit st price))
  | Fill values =>
      mkPage (mkState (isCreateModalOpen st) (editingPrice st) (error st)
                      values (errors st))
             (defaultValues page)
  | Submit =>
      mkPage (default st (fst <$> handleSubmit st)) (defaultValues page)
  | CreateSucceeded => mkPage (createSucceeded st).1 (defaultValues page)
  | UpdateSucceeded => mkPage (updateSucceeded st).1 (defaultValues page)
  | RequestFailed message => mkPage (setError st message) (defaultValues page)
  | CloseForm => handleCloseModal page
  end.

(** The page after a sequence of events, from the mount. *)
Definition pageAfter (events : list FormEvent) : Page :=
  fold_left formStep events mounted.

(** The price last opened for editing, if any. *)
Definition lastEdited (events : list FormEvent) : option PublishedPrice :=
  fold_left (λ last e, match e with EditPrice price => Some price | _ => last end)
    events None.

(** [handleDelete(id)], with the answer to the [confirm] dialog. *)
Definition handleDelete (confirmed : bool) (priceId : Z) : list Effect :=
  if confirmed then [DeletePublishedPrice priceId] else [].

(** The title of the modal and the label of its submit button. *)
Definition modalTitle (st : State) : string :=
  match editingPrice st with Some _ => "Edit Price" | None => "Publish New Price" end.

Definition submitLabel (st : State) : string :=
  match editingPrice st with Some _ => "Update Price" | None => "Publish Price" end.

(** The mark on an option of the product select:
    [publishedPrices?.data.results.some(price => price.sku.id === sku.id)]. *)
Definition hasActivePrice (publishedPrices : option (list PublishedPrice))
    (sku : SKU) : bool :=
  match publishedPrices with
  | Some results => existsb (λ price, Z.eqb (sku_id (pp_sku price)) (sku_id sku)) results
  | None => false
  end.

(** The district a reference price is scoped to, if any. *)
Definition scopeOf (ref : ReferencePrice) : option Z :=
  match rp_district ref with
  | Val d => Some (district_id d)
  | Null | Undefined => None
  end.

End PriceHandlers.

(* ===================================================================== *)
(** * DataTable.tsx: the header icons and the body                         *)
(* ===================================================================== *)

Module DataTableView.
Import DataTable.

(** The icon of a sortable header: the dimmed chevron, or the chevron of
    the current direction. *)
Inductive SortIcon := DimmedUp | ChevronUp | ChevronDown.

(** [getSortIcon(key)]. *)
Definition getSortIcon (sortConfig : option SortConfig) (k : string) : SortIcon :=
  match sortConfig with
  | None => DimmedUp
  | Some c =>
      if bool_decide (key c ≠ k) then DimmedUp
      else match direction c with asc => ChevronUp | desc => ChevronDown end
  end.

Section Ties.
Context {T V : Type} (get : T → string → V) (lt : V → V → bool).

(** Two rows neither of which is before the other in the sort column. *)
Definition tied (c : SortConfig) (a b : T) : bool :=
  negb (lt (get a (key c)) (get b (key c)))
  && negb (lt (get b (key c)) (get a (key c))).

End Ties.

End DataTableView.

(* ===================================================================== *)
(** * app/dashboard/farmer/comparison: the comparison page                *)
(* ===================================================================== *)

Module ComparisonPage.
Import Js PriceManagement.

(** [publishedPrices?.data.results || []]. *)
Definition prices (publishedPrices : option (list PublishedPrice))
  : list PublishedPrice := default [] publishedPrices.

(** [selectedPrices.includes(id)]. *)
Definition includes (selectedPrices : list Z) (id : Z) : bool :=
  existsb (Z.eqb id) selectedPrices.

Definition comparisonData (prices : list PublishedPrice) (selectedPrices : list Z)
  : list PublishedPrice :=
  List.filter (λ price, includes selectedPrices (pp_id price)) prices.

(** The updater [handleTogglePrice(priceId)] hands to [setSelectedPrices]. *)
Definition handleTogglePrice (priceId : Z) (prev : list Z) : list Z :=
  if includes prev priceId
  then List.filter (λ id, negb (Z.eqb id priceId)) prev
  else (prev ++ [priceId])%list.

(** [onClick] of a row, rendered with [selectedPrices], applied to the
    state [prev] the updater receives. *)
Definition rowClick (selectedPrices : list Z) (id : Z) (prev : list Z) : list Z :=
  if includes selectedPrices id then handleTogglePrice id prev
  else if (length selectedPrices <? 5)%nat then handleTogglePrice id prev
  else prev.

(** The [disabled] attribute of the checkbox of a row. *)
Definition checkboxDisabled (selectedPrices : list Z) (id : Z) : bool :=
  negb (includes selectedPrices id) && (5 <=? length selectedPrices)%nat.

(** A click on a row outside its checkbox runs [onClick]; a click on an
    enabled checkbox runs its [onChange] and then, bubbling to the row,
    the [onClick] of the same render. *)
Inductive Click := ClickRow (id : Z) | ClickCheckbox (id : Z).

Definition click (selectedPrices : list Z) (e : Click) : list Z :=
  match e with
  | ClickRow id => rowClick selectedPrices id selectedPrices
  | ClickCheckbox id =>
      if checkboxDisabled selectedPrices id then selectedPrices
      else rowClick selectedPrices id (handleTogglePrice id selectedPrices)
  end.

(** The selection after a sequence of clicks, from [useState([])]. *)
Definition selectionAfter (clicks : list Click) : list Z :=
  fold_left click clicks [].

Definition lower (lowest current : PublishedPrice) : PublishedPrice :=
  if Qltb (pp_price current) (pp_price lowest) then current else lowest.

Definition higher (highest current : PublishedPrice) : PublishedPrice :=
  if Qltb (pp_price highest) (pp_price current) then current else highest.

(** [getLowestPrice]: [null] on an empty comparison, else [reduce] without
    an initial value, which starts from the first row. *)
Definition getLowestPrice (comparisonData : list PublishedPrice)
  : Nullable PublishedPrice :=
  match comparisonData with
  | [] => Null
  | first :: rest => Val (fold_left lower rest first)
  end.

Definition getHighestPrice (comparisonData : list PublishedPrice)
  : Nullable PublishedPrice :=
  match comparisonData with
  | [] => Null
  | first :: rest => Val (fold_left higher rest first)
  end.

End ComparisonPage.

(* ===================================================================== *)
(** * components/complaints: ComplaintRegistration                        *)
(* ===================================================================== *)

Module ComplaintRegistration.
Import Js.

Record PriceViolationComplaintData := mkData {
  title : string;
  description : string;
  district : Number Z;
  sku : Number Z;
  reported_retailer : Number Z;
  reported_price : Number Q;
  incident_location : string;
  incident_date : string;
  witness_details : string;
  contact_number : string;
  priority : string
}.

Record File := mkFile { file_name : string; file_type : string }.

Record State := mkState {
  isOpen : bool;
  formData : PriceViolationComplaintData;
  evidenceFiles : list File;
  isSubmitting : bool
}.

Definition emptyFormData : PriceViolationComplaintData :=
  mkData "" "" (Num 0) (Num 0) (Num 0) (Num 0%Q) "" "" "" "" "medium".

Definition initialState : State := mkState false emptyFormData [] false.

(** Truthiness of a number: [NaN] and zero are falsy. *)
Definition truthyZ (n : Number Z) : bool :=
  match n with
  | NaN => false
  | Infinity _ => true
  | Num z => negb (Z.eqb z 0)
  end.

Definition truthyQ (n : Number Q) : bool :=
  match n with
  | NaN => false
  | Infinity _ => true
  | Num q => negb (Qeq_bool q 0)
  end.

Definition truthyString (s : string) : bool := negb (bool_decide (s = "")).

(** [n || 0]. *)
Definition orZero (n : Number Q) : Number Q := if truthyQ n then n else Num 0%Q.

(** A field of the form together with the value written to it. *)
Inductive FieldValue :=
| Title (v : string)
| Description (v : string)
| DistrictField (v : Number Z)
| Sku (v : Number Z)
| ReportedRetailer (v : Number Z)
| ReportedPrice (v : Number Q)
| IncidentLocation (v : string)
| IncidentDate (v : string)
| WitnessDetails (v : string)
| ContactNumber (v : string)
| Priority (v : string).

(** [setFormData(prev => ({ ...prev, [field]: value }))]. *)
Definition handleInputChange (fv : FieldValue) (st : State) : State :=
  let d := formData st in
  let d' :=
    match fv with
    | Title v => mkData v (description d) (district d) (sku d) (reported_retailer d) (reported_price d) (incident_location d) (incident_date d) (witness_details d) (contact_number d) (priority d)
    | Description v => mkData (title d) v (district d) (sku d) (reported_retailer d) (reported_price d) (incident_location d) (incident_date d) (witness_details d) (contact_number d) (priority d)
    | DistrictField v => mkData (title d) (description d) v (sku d) (reported_retailer d) (reported_price d) (incident_location d) (incident_date d) (witness_details d) (contact_number d) (priority d)
    | Sku v => mkData (title d) (description d) (district d) v (reported_retailer d) (reported_price d) (incident_location d) (incident_date d) (witness_details d) (contact_number d) (priority d)
    | ReportedRetailer v => mkData (title d) (description d) (district d) (sku d) v (reported_price d) (incident_location d) (incident_date d) (witness_details d) (contact_number d) (priority d)
    | ReportedPrice v => mkData (title d) (description d) (district d) (sku d) (reported_retailer d) v (incident_location d) (incident_date d) (witness_details d) (contact_number d) (priority d)
    | IncidentLocation v => mkData (title d) (description d) (district d) (sku d) (reported_retailer d) (reported_price d) v (incident_date d) (witness_details d) (contact_number d) (priority d)
    | IncidentDate v => mkData (title d) (description d) (district d) (sku d) (reported_retailer d) (reported_price d) (incident_location d) v (witness_details d) (contact_number d) (priority d)
    | WitnessDetails v => mkData (title d) (description d) (district d) (sku d) (reported_retailer d) (reported_price d) (incident_location d) (incident_date d) v (contact_number d) (priority d)
    | ContactNumber v => mkData (title d) (description d) (district d) (sku d) (reported_retailer d) (reported_price d) (incident_location d) (incident_date d) (witness_details d) v (priority d)
    | Priority v => mkData (title d) (description d) (district d) (sku d) (reported_retailer d) (reported_price d) (incident_location d) (incident_date d) (witness_details d) (contact_number d) v
    end in
  mkState (isOpen st) d' (evidenceFiles st) (isSubmitting st).

(** [setEvidenceFiles(prev => [...prev, ...files])]. *)
Definition handleFileUpload (files : list File) (st : State) : State :=
  mkState (isOpen st) (formData st) (evidenceFiles st ++ files)%list (isSubmitting st).

(** [Array.prototype.filter] with the index passed to the callback. *)
Fixpoint filterIndexed {A} (p : A → nat → bool) (i : nat) (l : list A) : list A :=
  match l with
  | [] => []
  | x :: rest =>
      if p x i then x :: filterIndexed p (S i) rest
      else filterIndexed p (S i) rest
  end.

(** [setEvidenceFiles(prev => prev.filter((_, i) => i !== index))]. *)
Definition removeFile (index : nat) (st : State) : State :=
  mkState (isOpen st) (formData st)
    (filterIndexed (λ _ i, negb (Nat.eqb i index)) 0 (evidenceFiles st))
    (isSubmitting st).

Definition handleClose (st : State) : State :=
  mkState false emptyFormData [] (isSubmitting st).

Inductive Effect :=
| CreatePriceViolationComplaint (data : PriceViolationComplaintData)
| UploadComplaintEvidence (complaintId : Z) (file : File)
    (fileType description : string)
| ToastSuccess (msg : string)
| ToastError (msg : string)
| InvalidateComplaints
| OnSuccess.

(** The test of [handleSubmit] on the required fields. *)
Definition missingRequired (d : PriceViolationComplaintData) : bool :=
  negb (truthyString (title d)) || negb (truthyString (description d))
  || negb (truthyZ (district d)) || negb (truthyZ (sku d))
  || negb (truthyZ (reported_retailer d)) || negb (truthyQ (reported_price d)).

(** [handleSubmit], up to the request it hands to the mutation; the
    [finally] block leaves [isSubmitting] false. *)
Definition handleSubmit (st : State) : State * list Effect :=
  let st' := mkState (isOpen st) (formData st) (evidenceFiles st) false in
  if missingRequired (formData st)
  then (st', [ToastError "Please fill in all required fields"])
  else (st', [CreatePriceViolationComplaint (formData st)]).

(** The events of the form: the [onChange] handlers of the inputs, with
    the string the input holds; the file input; the remove button of the
    file at an index; the buttons that open and close the modal. *)
Inductive Event :=
| ChangeTitle (v : string)
| ChangeDescription (v : string)
| ChangePriority (v : string)
| ChangeContactNumber (v : string)
| ChangeSku (v : string)
| ChangeReportedRetailer (v : string)
| ChangeDistrict (v : string)
| ChangeReportedPrice (v : string)
| ChangeIncidentLocation (v : string)
| ChangeIncidentDate (v : string)
| ChangeWitnessDetails (v : string)
| ChooseFiles (files : list File)
| RemoveFile (index : nat)
| Open
| Close.

Definition step (st : State) (e : Event) : State :=
  match e with
  | ChangeTitle v => handleInputChange (Title v) st
  | ChangeDescription v => handleInputChange (Description v) st
  | ChangePriority v => handleInputChange (Priority v) st
  | ChangeContactNumber v => handleInputChange (ContactNumber v) st
  | ChangeSku v => handleInputChange (Sku (parseInt v)) st
  | ChangeReportedRetailer v => handleInputChange (ReportedRetailer (parseInt v)) st
  | ChangeDistrict v => handleInputChange (DistrictField (parseInt v)) st
  | ChangeReportedPrice v => handleInputChange (ReportedPrice (orZero (parseFloat v))) st
  | ChangeIncidentLocation v => handleInputChange (IncidentLocation v) st
  | ChangeIncidentDate v => handleInputChange (IncidentDate v) st
  | ChangeWitnessDetails v => handleInputChange (WitnessDetails v) st
  | ChooseFiles files => handleFileUpload files st
  | RemoveFile index => removeFile index st
  | Open => mkState true (formData st) (evidenceFiles st) (isSubmitting st)
  | Close => handleClose st
  end.

Definition stateAfter (events : list Event) : State :=
  fold_left step events initialState.

(** [file.type.startsWith('image/') ? 'image' : 'document']. *)
Definition evidenceType (file : File) : string :=
  if String.prefix "image/" (file_type file) then "image" else "document".

(** [response?.data?.id] as a condition. *)
Definition truthyResponseId (id : option Z) : option Z :=
  match id with
  | Some z => if Z.eqb z 0 then None else Some z
  | None => None
  end.

(** The loop over the evidence files: every file is uploaded; [uploaded i
    file] tells whether the upload of the [i]-th file resolved.  Returns
    the requests and [uploadSuccess]. *)
Fixpoint uploadAll (uploaded : nat → File → bool) (complaintId : Z)
    (description : string) (i : nat) (files : list File) : list Effect * bool :=
  match files with
  | [] => ([], true)
  | file :: rest =>
      let '(reqs, ok) := uploadAll uploaded complaintId description (S i) rest in
      (UploadComplaintEvidence complaintId file (evidenceType file) description
         :: reqs,
       uploaded i file && ok)
  end.

(** [onSuccess] of [createComplaintMutation]. *)
Definition onSuccess (uploaded : nat → File → bool) (responseId : option Z)
    (st : State) : State * list Effect :=
  let first :=
    match evidenceFiles st, truthyResponseId responseId with
    | _ :: _, Some id =>
        let '(reqs, uploadSuccess) :=
          uploadAll uploaded id
            ("Evidence for complaint: " +:+ title (formData st)) 0
            (evidenceFiles st) in
        (reqs ++
         [ToastSuccess
            (if uploadSuccess
             then "Complaint and evidence submitted successfully!"
             else "Complaint submitted successfully, but some evidence files failed to upload")])%list
    | _, _ => [ToastSuccess "Complaint submitted successfully!"]
    end in
  (handleClose st, (first ++ [InvalidateComplaints; OnSuccess])%list).

Definition uploadedFile (e : Effect) : option File :=
  match e with UploadComplaintEvidence _ file _ _ => Some file | _ => None end.

Definition toastOf (e : Effect) : option Effect :=
  match e with
  | ToastSuccess _ | ToastError _ => Some e
  | _ => None
  end.

End ComplaintRegistration.

(* ===================================================================== *)
(** * components/layout/Sidebar.tsx: the navigation of a role             *)
(* ===================================================================== *)

Module Sidebar.
Import ProtectedRoute.

Record NavItem := mkNav { nav_name : string; href : string }.

Definition retailerNavItems : list NavItem :=
  [mkNav "Dashboard" "/dashboard/retailer";
   mkNav "Price Management" "/dashboard/retailer/prices";
   mkNav "Product Catalog" "/dashboard/retailer/catalog";
   mkNav "Compliance Reports" "/dashboard/retailer/compliance";
   mkNav "Profile" "/dashboard/retailer/profile"].

Definition farmerNavItems : list NavItem :=
  [mkNav "Dashboard" "/dashboard/farmer";
   mkNav "Price Search" "/dashboard/farmer/search";
   mkNav "Price Comparison" "/dashboard/farmer/comparison";
   mkNav "Complaints" "/dashboard/farmer#complaints";
   mkNav "Favorites" "/dashboard/farmer/favorites";
   mkNav "Alerts" "/dashboard/farmer/alerts";
   mkNav "Profile" "/dashboard/farmer/profile"].

Definition adminNavItems : list NavItem :=
  [mkNav "Dashboard" "/dashboard/admin";
   mkNav "Users" "/dashboard/admin/users";
   mkNav "Reference Prices" "/dashboard/admin/prices";
   mkNav "Compliance" "/dashboard/admin/compliance";
   mkNav "Settings" "/dashboard/admin/settings"].

(** [user?.role === r]. *)
Definition hasRole (user : option User) (r : Role) : bool :=
  match user with
  | Some u => bool_decide (role u = r)
  | None => false
  end.

Definition getNavItems (user : option User) : list NavItem :=
  if hasRole user retailer then retailerNavItems
  else if hasRole user farmer then farmerNavItems
  else if hasRole user gov_admin then adminNavItems
  else [].

(** The heading above the navigation. *)
Definition portalTitle (user : option User) : string :=
  if hasRole user retailer then "Retailer Portal"
  else if hasRole user farmer then "Farmer Portal"
  else "Admin Portal".

(** The page a link leads to: its [href] without the fragment. *)
Fixpoint pathOf (href : string) : string :=
  match href with
  | EmptyString => EmptyString
  | String c rest =>
      if bool_decide (c = "#"%char) then EmptyString else String c (pathOf rest)
  end.

End Sidebar.

(* ===================================================================== *)
(** * Sample data for the evaluated examples                              *)
(* ===================================================================== *)

Section ComplaintControlsData.
Import ComplaintManagement.

(** A session: start the review of a pending complaint from its card, open
    the resolution form of a complaint under review, fill it in, submit. *)
Definition sampleComplaints : list Complaint :=
  [mkComplaint 1 "Overpriced urea" "pending" "high";
   mkComplaint 2 "No receipt" "under_review" "low";
   mkComplaint 3 "Short weight" "resolved" "medium"].

Definition sampleSession : Session :=
  [(sampleComplaints, Click (CardStartReview (mkComplaint 1 "Overpriced urea" "pending" "high")));
   (sampleComplaints, Click (CardResolve (mkComplaint 2 "No receipt" "under_review" "low")));
   (sampleComplaints, EditResolution (mkResolution "Fined" "Retailer fined" ""));
   (sampleComplaints, Click ResolutionSubmit);
   (sampleComplaints, ResolveSucceeded)].

(** Two clicks on cards, the second while the resolution modal is open. *)
Definition cardsBehindModal : Session :=
  [(sampleComplaints, Click (CardResolve (mkComplaint 2 "No receipt" "under_review" "low")));
   (sampleComplaints, Click (CardView (mkComplaint 1 "Overpriced urea" "pending" "high")))].

End ComplaintControlsData.

Section ReferencePriceLookupData.
Import Js PriceManagement.

Definition urea : SKU := mkSKU 1 "Urea" "Nitrogen".
Definition globalUrea : ReferencePrice :=
  mkReferencePrice 10 urea Null (266 # 1) true.
Definition districtZeroUrea : ReferencePrice :=
  mkReferencePrice 11 urea (Val (mkDistrict 0 "Capital")) (270 # 1) true.

End ReferencePriceLookupData.

Section OverlapErrorData.
Import Js PriceManagement.

Definition overlapResponse : AxiosError :=
  mkError (Some 400) (Some (ErrArray [overlapError])) "Request failed with status code 400".

Definition ureaRequest : PriceFormData := mkData (Num 1) None (Num (270 # 1)).

Definition loadedUrea : PublishedPrice :=
  mkPublishedPrice 5 (mkSKU 1 "Urea" "Nitrogen") (mkDistrict 7 "North")
    (280 # 1) false (12 # 1) (250 # 1).

End OverlapErrorData.

Section PublishFormData.
Import Js PriceManagement.

(** A valid form (product 3, no district, price 266.35) and an invalid one
    (no product, price 0.005). *)
Definition validForm : State :=
  mkState true None "" (mkForm (IdStr "3") (IdStr "") (PriceStr "266.35")) noErrors.

Definition invalidForm : State :=
  mkState true None "" (mkForm (IdStr "") (IdStr "4") (PriceStr "0.005")) noErrors.

End PublishFormData.

Section ComplianceRenderingData.
Import Js PriceManagement CompliancePage.

Definition compliantAtTwelve : PublishedPrice :=
  mkPublishedPrice 1 (mkSKU 1 "Urea" "Nitrogen") (mkDistrict 7 "North")
    (280 # 1) true (12 # 1) (250 # 1).

Definition compliantAtFive : PublishedPrice :=
  mkPublishedPrice 2 (mkSKU 2 "DAP" "Phosphate") (mkDistrict 7 "North")
    (1260 # 1) true (5 # 1) (1200 # 1).

End ComplianceRenderingData.

Section TokenRefreshData.
Import ApiClient.

(** A server on which the access token a1 has expired and the refresh
    token is still good: it answers 401 to a1, issues the pair (a2, r2) on
    refresh, and serves requests bearing a2. *)
Definition renewingServer : Server := λ _ config,
  if bool_decide (url config = "/token/refresh/")
  then Replied (mkResponse 200 (AuthBody (mkTokens "a2" "r2")))
  else if bool_decide (authorization config = Some "Bearer a2")
       then Replied (mkResponse 200 (OtherBody "[]"))
       else Replied (mkResponse 401 (OtherBody "token expired")).

(** A server on which every token has expired. *)
Definition unauthorizedServer : Server := λ _ _,
  Replied (mkResponse 401 (OtherBody "token not valid")).

Definition signedIn : State :=
  mkState (Some (mkWindow {[ "access_token" := "a1"; "refresh_token" := "r1" ]}
                          "/dashboard/retailer"))
          [].

Definition getPublishedPrices : RequestConfig :=
  mkConfig "get" "/pricing/published-prices/" None NoPayload false.

(** A server that is down for maintenance. *)
Definition unavailableServer : Server := λ _ _,
  Replied (mkResponse 503 (OtherBody "maintenance")).

(** The first four requests of that run: the original one, then refresh
    requests only. *)
Definition refusingAfter (n : nat) : Server := λ k config,
  if (k <? n)%nat then unauthorizedServer k config
  else Replied (mkResponse 400 (OtherBody "bad request")).

End TokenRefreshData.

Section PriceTableData.
Import DataTable.

(** A table of products with a price column. *)
Definition priceRows : list (string * Z) :=
  [("DAP", 1350); ("Urea", 266); ("MOP", 900); ("SSP", 266)].

Definition cell (row : string * Z) (k : string) : Z :=
  if bool_decide (k = "price") then row.2 else 0.

Definition priceHeap : gmap nat (list (string * Z)) := {[ 0%nat := priceRows ]}.

(** A table in which one row has no price. *)
Definition sparseRows : list (string * option Z) :=
  [("DAP", Some 2); ("Urea", None); ("MOP", Some 1)].

Definition sparseCell (row : string * option Z) (k : string) : option Z :=
  if bool_decide (k = "price") then row.2 else None.

Definition sparseHeap : gmap nat (list (string * option Z)) :=
  {[ 0%nat := sparseRows ]}.

End PriceTableData.

Section AuthFlowData.
Import ApiClient AuthContext.

(** A browser that holds no token. *)
Definition signedOut : State := mkState (Some (mkWindow ∅ "/dashboard/farmer")) [].

(** A server that accepts the credentials it is sent. *)
Definition loginServer : Server := λ _ _,
  Replied (mkResponse 200 (AuthBody (mkTokens "a1" "r1"))).

(** The user read from any body. *)
Definition asha (_ : Body) : User := mkUser 1 "asha" "asha@example.org" farmer true.

End AuthFlowData.

(* ##################################################################### *)
(** * Properties                                                          *)
(* ##################################################################### *)

(* ===================================================================== *)
(** ** Route guard                                                        *)
(* ===================================================================== *)

Section RouteGuard.
Import ProtectedRoute.

Lemma includes_true allowed r : includes allowed r = true ↔ r ∈ allowed.
Proof. unfold includes. apply bool_decide_eq_true. Qed.

Lemma includes_false allowed r : includes allowed r = false ↔ r ∉ allowed.
Proof. unfold includes. apply bool_decide_eq_false. Qed.

(** While the auth state is loading, the guard shows the spinner and
    redirects nobody. *)
Lemma loading_shows_spinner u allowed :
  routerPush (AuthProvider u true) allowed = None
  ∧ render (AuthProvider u true) allowed = Spinner.
Proof. split; reflexivity. Qed.

(** C1, refuted as worded: a visitor without a user whose auth state is
    still loading is not redirected to /login. *)
Lemma guest_while_loading_not_redirected :
  ¬ guards_as_specified (AuthProvider None true) [gov_admin].
Proof.
  intros (Hguest & _ & _).
  specialize (Hguest eq_refl) as [Hpush _].
  discriminate Hpush.
Qed.

(** C1, amended: once the auth state has finished loading, a visitor without
    a user is sent to /login and sees nothing; a user whose role is not
    allowed is sent to the dashboard of their own role and sees nothing; and
    the children render exactly for a user whose role is allowed.  While the
    auth state is loading, the spinner is rendered and nobody is redirected. *)
Theorem route_guard_once_loaded (u : option User) (allowed : list Role) :
  guards_as_specified (AuthProvider u false) allowed
  ∧ routerPush (AuthProvider u true) allowed = None
  ∧ render (AuthProvider u true) allowed = Spinner.
Proof.
  split; [|apply loading_shows_spinner].
  unfold guards_as_specified, routerPush, render.
  destruct u as [usr|]; cbn.
  - destruct (includes allowed (role usr)) eqn:Hin; cbn.
    + apply includes_true in Hin.
      split; [discriminate|]. split.
      * intros v [= <-] _ Hnot. contradiction.
      * split; [eauto|done].
    + apply includes_false in Hin.
      split; [discriminate|]. split.
      * intros v [= <-] _ _. done.
      * split; [discriminate|].
        intros (v & [= <-] & _ & Hv). contradiction.
  - split; [done|]. split; [discriminate|].
    split; [discriminate|]. intros (v & Hv & _). discriminate.
Qed.

(** The three dashboards of the claim. *)
Lemma dashboards :
  dashboardOf gov_admin = "/dashboard/admin"
  ∧ dashboardOf retailer = "/dashboard/retailer"
  ∧ dashboardOf farmer = "/dashboard/farmer".
Proof. repeat split. Qed.

End RouteGuard.

(* ===================================================================== *)
(** ** Complaint statuses                                                 *)
(* ===================================================================== *)

Section ComplaintStatuses.
Import ComplaintManagement.

(** C3, refuted as worded: 'waiting_response' is typed, offered by the
    filter, and given a colour and an icon of its own, and it is not one of
    the six statuses of the specification. *)
Lemma waiting_response_is_handled :
  ¬ (∀ s, s ∈ handledStatuses → s ∈ specifiedStatuses).
Proof.
  intros H.
  assert (Hin : "waiting_response" ∈ handledStatuses) by (vm_compute; set_solver).
  apply H in Hin. vm_compute in Hin. set_solver.
Qed.

End ComplaintStatuses.

Section ComplaintControls.
Import ComplaintManagement.

Lemma switch_default {A} (cases : list (string * A)) (d : A) (s : string) :
  s ∉ cases.*1 → switch cases d s = d.
Proof.
  intros Hs. unfold switch.
  destruct (list_find _ cases) as [[i [k a]]|] eqn:Hfind; [|done].
  apply list_find_Some in Hfind as (Hi & Hk & _). cbn in Hk. subst k.
  exfalso. apply Hs. apply list_elem_of_fmap. exists (s, a). split; [done|].
  by eapply list_elem_of_lookup_2.
Qed.

(** C3, amended: the code types, filters on and gives a colour and an icon
    to exactly seven statuses, the six of the specification and
    'waiting_response'; every handled status is one of the seven, and any
    other string received is rendered with the default colour and icon. *)
Theorem handled_statuses_are_the_seven :
  typedStatuses =
    ["pending"; "under_review"; "investigation"; "waiting_response";
     "resolved"; "rejected"; "closed"]
  ∧ filter (λ s, s ≠ "all") statusFilterOptions = typedStatuses
  ∧ statusColorCases.*1 = typedStatuses
  ∧ statusIconCases.*1 = typedStatuses
  ∧ (∀ s, s ∈ handledStatuses ↔ s ∈ "waiting_response" :: specifiedStatuses)
  ∧ (∀ s, s ∉ typedStatuses →
       getStatusColor s = "bg-gray-100 text-gray-800"
       ∧ getStatusIcon s = ClockIcon).
Proof.
  split; [reflexivity|]. split; [reflexivity|].
  split; [reflexivity|]. split; [reflexivity|]. split.
  - intros s. unfold handledStatuses.
    change (filter _ statusFilterOptions) with typedStatuses.
    change (statusColorCases.*1) with typedStatuses.
    change (statusIconCases.*1) with typedStatuses.
    rewrite !elem_of_app. unfold typedStatuses, specifiedStatuses.
    rewrite !elem_of_cons. rewrite !elem_of_nil. tauto.
  - intros s Hs. split; apply switch_default; exact Hs.
Qed.

Lemma elem_of_when cond (ctl x : Control) :
  x ∈ when cond ctl ↔ cond = true ∧ x = ctl.
Proof.
  destruct cond; cbn.
  - rewrite list_elem_of_singleton. naive_solver.
  - rewrite elem_of_nil. naive_solver.
Qed.

Lemma elem_of_cardControls (c : Complaint) (x : Control) :
  x ∈ cardControls c ↔
    x = CardView c
    ∨ (status c = "pending" ∧ x = CardStartReview c)
    ∨ (status c = "under_review" ∧ x = CardResolve c).
Proof.
  unfold cardControls. rewrite !elem_of_app, !elem_of_when.
  rewrite list_elem_of_singleton, !bool_decide_eq_true. tauto.
Qed.

Lemma elem_of_cards (cs : list Complaint) (x : Control) :
  x ∈ flat_map cardControls cs ↔ ∃ c, c ∈ cs ∧ x ∈ cardControls c.
Proof.
  rewrite list_elem_of_In, in_flat_map.
  split; intros (c & Hc & Hx); exists c; split;
    first [by apply list_elem_of_In | by apply list_elem_of_In in Hc
          | by apply list_elem_of_In in Hx].
Qed.

Lemma elem_of_detailControls (st : State) (x : Control) :
  x ∈ detailControls st ↔
    isDetailModalOpen st = true ∧
    ∃ c, selectedComplaint st = Some c ∧
      (x = DetailClose
       ∨ (status c = "pending" ∧ x = DetailStartReview)
       ∨ (status c = "under_review" ∧ x = DetailResolve)).
Proof.
  unfold detailControls.
  destruct (isDetailModalOpen st); [|rewrite elem_of_nil; naive_solver].
  destruct (selectedComplaint st) as [c|]; [|rewrite elem_of_nil; naive_solver].
  rewrite !elem_of_app, !elem_of_when, list_elem_of_singleton,
    !bool_decide_eq_true.
  split.
  - intros H. split; [done|]. exists c. tauto.
  - intros (_ & c' & [= <-] & H). tauto.
Qed.

Lemma elem_of_resolutionControls (st : State) (x : Control) :
  x ∈ resolutionControls st →
    isResolutionModalOpen st = true ∧ (x = ResolutionCancel ∨ x = ResolutionSubmit).
Proof.
  unfold resolutionControls.
  destruct (isResolutionModalOpen st); [|rewrite elem_of_nil; done].
  rewrite elem_of_app, elem_of_when, list_elem_of_singleton. naive_solver.
Qed.

(** The declared controls, by layer. *)
Lemma offered_cases cs st ctl :
  ctl ∈ offered cs st →
  (isResolutionModalOpen st = true
   ∧ (ctl = ResolutionCancel
      ∨ (ctl = ResolutionSubmit
         ∧ isEmpty (resolution_action (resolutionData st)) = false
         ∧ isEmpty (resolution_report (resolutionData st)) = false
         ∧ resolvePending st = false)))
  ∨ (isDetailModalOpen st = true
     ∧ ∃ c, selectedComplaint st = Some c
            ∧ (ctl = DetailClose ∨ ctl = DetailStartReview ∨ ctl = DetailResolve))
  ∨ (∃ c, ctl = CardView c ∨ ctl = CardStartReview c ∨ ctl = CardResolve c).
Proof.
  unfold offered. rewrite !elem_of_app. intros [Hin|[Hin|Hin]].
  - right. right. apply elem_of_cards in Hin as (c & _ & Hin). exists c.
    apply elem_of_cardControls in Hin. tauto.
  - right. left. apply elem_of_detailControls in Hin as (Hdet & c & Hc & Hin).
    split; [done|]. exists c. split; [done|]. tauto.
  - left. unfold resolutionControls in Hin.
    destruct (isResolutionModalOpen st) eqn:Hres; [|by apply elem_of_nil in Hin].
    split; [done|]. apply elem_of_app in Hin as [Hin|Hin].
    + apply list_elem_of_singleton in Hin. by left.
    + apply elem_of_when in Hin as [Hen ->]. right. split; [done|].
      apply negb_true_iff in Hen.
      apply orb_false_iff in Hen as [Hen Hp].
      by apply orb_false_iff in Hen as [Ha Hr].
Qed.





(** A list with a pending complaint: the render throws, and a click on
    Start Review, attempted all the same, sends nothing. *)
Example pending_complaint_is_not_rendered :
  renderPage sampleComplaints initialState = inl TypeError
  ∧ attempts initialState sampleSession = (initialState, []).
Proof. vm_compute. split; reflexivity. Qed.

(** Were the cards to render, the detail modal would go by the status the
    complaint had when it was selected: with the list refetched after a
    first Start Review, the button is still declared and sends the same
    request again. *)
Example selected_complaint_is_a_snapshot :
  let st := (click initialState (CardView (mkComplaint 1 "Overpriced urea" "pending" "high"))).1 in
  let refetched := [mkComplaint 1 "Overpriced urea" "under_review" "high"] in
  DetailStartReview ∈ offered refetched st
  ∧ (click st DetailStartReview).2 = [UpdateComplaintStatus 1 "under_review" None].
Proof.
  cbn. split; [|done].
  apply (bool_decide_unpack (DetailStartReview ∈ _)). by vm_compute.
Qed.

(** The requests of the sample session, were its cards to render. *)
Example sample_session_requests :
  feasible initialState sampleSession = true
  ∧ flat_map snd (run initialState sampleSession) =
      [UpdateComplaintStatus 1 "under_review" None;
       ResolveComplaint 2 (mkResolution "Fined" "Retailer fined" "")].
Proof. vm_compute. split; reflexivity. Qed.

End ComplaintControls.

(* ===================================================================== *)
(** ** Reference price lookup                                             *)
(* ===================================================================== *)

Section ReferencePriceLookup.
Import Js PriceManagement.

Lemma arrayFind_Val {A} (p : A → bool) (l : list A) (a : A) :
  arrayFind p l = Val a → a ∈ l ∧ p a = true.
Proof.
  unfold arrayFind. destruct (List.find p l) as [x|] eqn:Hf; [|done].
  intros [= <-]. apply find_some in Hf as [Hin Hp].
  split; [by apply list_elem_of_In | done].
Qed.

Lemma arrayFind_Undefined {A} (p : A → bool) (l : list A) :
  arrayFind p l = Undefined ↔ ∀ a, a ∈ l → p a = false.
Proof.
  unfold arrayFind. destruct (List.find p l) as [x|] eqn:Hf.
  - apply find_some in Hf as [Hin Hp]. split; [done|].
    intros H. apply list_elem_of_In in Hin. apply H in Hin. congruence.
  - split; [|done]. intros _ a Ha. apply list_elem_of_In in Ha.
    by eapply find_none in Hf.
Qed.

Lemma arrayFind_cases {A} (p : A → bool) (l : list A) :
  (∃ a, arrayFind p l = Val a) ∨ arrayFind p l = Undefined.
Proof. unfold arrayFind. destruct (List.find p l); eauto. Qed.

(** [find] returns the first match: nothing before it satisfies [p]. *)
Lemma arrayFind_first {A} (p : A → bool) (l : list A) (a : A) :
  arrayFind p l = Val a →
  ∃ before after : list A,
    l = (before ++ a :: after)%list ∧ ∀ b, b ∈ before → p b = false.
Proof.
  unfold arrayFind. induction l as [|x l IH]; cbn; [done|].
  destruct (p x) eqn:Hx.
  - intros [= <-]. exists [], l. split; [done|]. intros b Hb.
    by apply elem_of_nil in Hb.
  - intros H. destruct (IH H) as (before & after & -> & Hb).
    exists (x :: before), after. split; [done|].
    intros b [-> | Hin]%elem_of_cons; auto.
Qed.

(** Without a usable district id the lookup is the global one. *)
Lemma lookup_without_district refs skuId districtId :
  givenDistrict districtId = None →
  getReferencePrice (Some refs) skuId districtId = arrayFind (isGlobal skuId) refs.
Proof.
  unfold givenDistrict, getReferencePrice.
  destruct districtId as [d|]; [|done].
  by destruct (truthyNumber d).
Qed.

Lemma lookup_with_district refs skuId districtId d :
  givenDistrict districtId = Some d →
  getReferencePrice (Some refs) skuId districtId =
    match arrayFind (isDistrictSpecific skuId d) refs with
    | Val districtSpecific => Val districtSpecific
    | _ => arrayFind (isGlobal skuId) refs
    end.
Proof.
  unfold givenDistrict, getReferencePrice.
  destruct districtId as [d'|]; [|done].
  destruct (truthyNumber d') eqn:Ht; [|done].
  by intros [= ->].
Qed.

Lemma global_lookup_meets_claim refs skuId scope :
  ¬ (∃ ref, ref ∈ refs ∧ ∃ d, scope = Some d ∧ isDistrictSpecific skuId d ref = true) →
  reference_price_lookup refs skuId scope (arrayFind (isGlobal skuId) refs).
Proof.
  intros Hnone. unfold reference_price_lookup. split; [|split].
  - intros H. contradiction.
  - intros _ (g & Hg & Hglobal).
    destruct (arrayFind_cases (isGlobal skuId) refs) as [[a Ha] | Hu].
    + exists a. split; [done|]. by apply arrayFind_Val in Ha.
    + rewrite arrayFind_Undefined in Hu. apply Hu in Hg. congruence.
  - intros _ Hno. apply arrayFind_Undefined. intros a Ha.
    destruct (isGlobal skuId a) eqn:Hga; [|done].
    exfalso. apply Hno. eauto.
Qed.

(** C4, refuted as worded: for the district id 0 a reference price scoped
    to that district exists, and the lookup returns the global price. *)
Lemma district_zero_gets_global_price :
  ¬ reference_price_lookup [globalUrea; districtZeroUrea] 1 (Some 0)
      (getReferencePrice (Some [globalUrea; districtZeroUrea]) 1 (Some 0)).
Proof.
  intros (Hscoped & _).
  destruct Hscoped as (ref & Href & _ & d & [= <-] & Hd).
  - exists districtZeroUrea. split; [set_solver|]. by exists 0.
  - vm_compute in Href. injection Href as <-. vm_compute in Hd. discriminate Hd.
Qed.

(** C4, amended: for every SKU id, district id and list of reference
    prices, with a district id of 0 counting as absent like a missing one:
    [getReferencePrice] returns a reference price of the list matching both
    the SKU id and the district id when one exists; otherwise a reference
    price of the list for that SKU whose district is null when one exists;
    otherwise nothing.  While the reference prices are not loaded it
    returns null. *)
Theorem reference_price_lookup_nonzero_district
    (refs : list ReferencePrice) (skuId : Z) (districtId : option Z) :
  reference_price_lookup refs skuId (givenDistrict districtId)
    (getReferencePrice (Some refs) skuId districtId)
  ∧ getReferencePrice None skuId districtId = Null.
Proof.
  split; [|done].
  destruct (givenDistrict districtId) as [d|] eqn:Hgiven.
  - rewrite (lookup_with_district _ _ _ d Hgiven).
    destruct (arrayFind_cases (isDistrictSpecific skuId d) refs)
      as [[a Ha] | Hu].
    + rewrite Ha. apply arrayFind_Val in Ha as [Hin Hp].
      assert (Hex : ∃ ref, ref ∈ refs ∧
                ∃ d0, Some d = Some d0 ∧ isDistrictSpecific skuId d0 ref = true)
        by (exists a; eauto).
      unfold reference_price_lookup. split; [|split].
      * intros _. exists a. eauto.
      * intros Hno. contradiction.
      * intros Hno. contradiction.
    + rewrite Hu. apply global_lookup_meets_claim.
      intros (ref & Href & d0 & [= <-] & Hd).
      rewrite arrayFind_Undefined in Hu. apply Hu in Href. congruence.
  - rewrite (lookup_without_district _ _ _ Hgiven).
    apply global_lookup_meets_claim.
    intros (ref & _ & d0 & Hd & _). discriminate Hd.
Qed.

(** The lookup on a non-zero district, evaluated. *)
Example district_price_found :
  getReferencePrice
    (Some [globalUrea; mkReferencePrice 12 urea (Val (mkDistrict 7 "North")) (270 # 1) true])
    1 (Some 7)
  = Val (mkReferencePrice 12 urea (Val (mkDistrict 7 "North")) (270 # 1) true).
Proof. reflexivity. Qed.

End ReferencePriceLookup.

(* ===================================================================== *)
(** ** The overlap error of the publish-price request                     *)
(* ===================================================================== *)

Section OverlapError.
Import Js PriceManagement.

Lemma runTimers_single st ms existing :
  runTimers st [SetTimeoutEdit ms existing] = handleEdit st existing.
Proof. reflexivity. Qed.

Lemma findExisting_Val variables publishedPrices existing :
  findExisting variables publishedPrices = Val existing →
  ∃ currentData results,
    variables = Some currentData ∧ publishedPrices = Some results
    ∧ existing ∈ results ∧ sameSku currentData existing = true.
Proof.
  unfold findExisting.
  destruct variables as [currentData|]; [|done].
  destruct publishedPrices as [results|]; [|done].
  intros [Hin Hsame]%arrayFind_Val. eauto 6.
Qed.

(** C5, refuted as worded: the overlap error arrives while the loaded list
    of published prices holds no price of the SKU (here it is empty); the
    message is set and the form is not switched into edit mode. *)
Lemma overlap_without_loaded_price_no_edit :
  ¬ overlap_handled_as_specified message initialState overlapResponse
      ureaRequest (Some []).
Proof.
  unfold overlap_handled_as_specified. cbn.
  intros (_ & _ & existing & Hedit & _). discriminate Hedit.
Qed.

(** C5, amended: when the create request fails with a server error list
    containing the overlap message, the handler writes no price; it sets
    the active-price message; and when the loaded published prices hold a
    price of the SKU of the failed request it schedules, one second later,
    the switch of the form into edit mode for the first such price, which
    opens the modal with that price's values.  When they hold none, it does
    nothing more. *)
Theorem overlap_error_sets_message_and_edits_loaded_price
    (getErrorMessage : AxiosError → string) (st : State)
    (status : option Z) (messages : list string) (text : string)
    (variables : option PriceFormData)
    (publishedPrices : option (list PublishedPrice)) :
  overlapError ∈ messages →
  let err := mkError status (Some (ErrArray messages)) text in
  let result := onError getErrorMessage st err variables publishedPrices in
  Forall (λ e, writesPrice e = false) result.2
  ∧ result.1 = setError st activePriceMessage
  ∧ match findExisting variables publishedPrices with
    | Val existing =>
        result.2 = [SetTimeoutEdit 1000 existing]
        ∧ runTimers result.1 result.2 = handleEdit result.1 existing
        ∧ editingPrice (runTimers result.1 result.2) = Some existing
        ∧ isCreateModalOpen (runTimers result.1 result.2) = true
        ∧ form (runTimers result.1 result.2) =
            mkForm (IdNum (sku_id (pp_sku existing)))
                   (IdNum (district_id (pp_district existing)))
                   (PriceNum (pp_price existing))
        ∧ ∃ currentData results,
            variables = Some currentData ∧ publishedPrices = Some results
            ∧ existing ∈ results ∧ sameSku currentData existing = true
    | _ => result.2 = [] ∧ runTimers result.1 result.2 = result.1
    end.
Proof.
  intros Hin err result. subst err result. unfold onError. cbn.
  rewrite (bool_decide_eq_true_2 _ Hin). cbn.
  destruct (findExisting variables publishedPrices) as [| |existing] eqn:Hfind;
    cbn.
  - split; [constructor|]. done.
  - split; [constructor|]. done.
  - split; [by repeat constructor|]. split; [done|].
    split; [done|]. split; [done|]. split; [done|]. split; [done|].
    split; [done|]. by apply findExisting_Val.
Qed.

(** The amended claim at the overlap response, with the urea price loaded. *)
Lemma overlap_error_with_loaded_price :
  overlapError ∈ [overlapError]
  ∧ editingPrice
      (runTimers
         (onError message initialState overlapResponse (Some ureaRequest)
            (Some [loadedUrea])).1
         (onError message initialState overlapResponse (Some ureaRequest)
            (Some [loadedUrea])).2) = Some loadedUrea.
Proof.
  assert (Hin : overlapError ∈ [overlapError]) by (apply list_elem_of_singleton; reflexivity).
  split; [exact Hin|].
  pose proof (overlap_error_sets_message_and_edits_loaded_price message
                initialState (Some 400) [overlapError]
                "Request failed with status code 400"
                (Some ureaRequest) (Some [loadedUrea]) Hin) as H.
  cbv zeta in H. destruct H as (_ & _ & H).
  change (findExisting (Some ureaRequest) (Some [loadedUrea])) with (Val loadedUrea) in H.
  cbv beta iota in H. exact (proj1 (proj2 (proj2 H))).
Defined.

End OverlapError.

(* ===================================================================== *)
(** ** Validation and submission of the publish-price form                *)
(* ===================================================================== *)

Section PublishForm.
Import Js PriceManagement.

Lemma Qltb_lt a b : Qltb a b = true ↔ (a < b)%Q.
Proof.
  unfold Qltb. rewrite negb_true_iff, <- not_true_iff_false, Qle_bool_iff.
  split; [apply Qnot_le_lt | apply Qlt_not_le].
Qed.

Lemma validate_passes values :
  validate values = noErrors ↔
    emptyId (f_sku_id values) = false ∧ validatePrice (f_price values) = None.
Proof.
  unfold validate, noErrors, validateSku.
  destruct (emptyId (f_sku_id values)); split.
  - intros [= ]. 
  - intros [? _]. done.
  - intros [= ->]. done.
  - intros [_ ->]. done.
Qed.

(** The [min] rule on a price that was entered: it fails exactly on a
    number below 0.01. *)
Lemma validatePrice_entered v :
  emptyPrice v = false →
  (validatePrice v = Some "Price must be greater than 0" ↔
     (∃ q, valueAsNumber v = Num q ∧ (q < 1 # 100)%Q)
     ∨ valueAsNumber v = Infinity true)
  ∧ (validatePrice v = None ∨ validatePrice v = Some "Price must be greater than 0").
Proof.
  intros Hentered. unfold validatePrice. rewrite Hentered.
  destruct (valueAsNumber v) as [|[]|q] eqn:Hv.
  - split; [|by left]. split; [done|]. by intros [(q & ? & _)|?].
  - split; [|by right]. split; [by right|done].
  - split; [|by left]. split; [done|]. by intros [(q & ? & _)|?].
  - destruct (Qltb q (1 # 100)) eqn:Hlt.
    + split; [|by right]. split; [|done]. intros _. left. exists q.
      split; [done|]. by apply Qltb_lt.
    + split; [|by left]. split; [done|].
      intros [(q' & [= <-] & Hq)|?]; [|done].
      apply Qltb_lt in Hq. congruence.
Qed.

Lemma parseIntOfToString_not_empty v :
  emptyId v = false → ∃ n, parseIntOfToString v = Some n.
Proof. destruct v; cbn; [done| |]; eauto. Qed.

Lemma parseFloatOfToString_not_empty v :
  emptyPrice v = false → ∃ n, parseFloatOfToString v = Some n.
Proof. destruct v; cbn; [done| |]; eauto. Qed.

(** *** The parsers on decimal numerals *)

Lemma digitOf_digitChar d : (d < 10)%nat → digitOf (digitChar d) = Some (Z.of_nat d).
Proof.
  intros Hd. do 10 (destruct d as [|d]; [reflexivity|]). lia.
Qed.

Lemma isWhite_digitChar d : (d < 10)%nat → isWhite (digitChar d) = false.
Proof.
  intros Hd. do 10 (destruct d as [|d]; [reflexivity|]). lia.
Qed.

Lemma digits_stops acc n rest : stops rest → digits acc n rest = (acc, n, rest).
Proof. destruct rest as [|c rest]; cbn; [done|]. by intros ->. Qed.

Lemma digits_numeral ds : ∀ acc n rest,
  Forall (λ d, (d < 10)%nat) ds → stops rest →
  digits acc n (numeral ds +:+ rest)
  = (fold_left (λ acc d, 10 * acc + Z.of_nat d) ds acc, (n + length ds)%nat, rest).
Proof.
  induction ds as [|d ds IH]; intros acc n rest Hds Hrest.
  - cbn. rewrite Nat.add_0_r. by apply digits_stops.
  - apply Forall_cons in Hds as [Hd Hds].
    change (numeral (d :: ds) +:+ rest)
      with (String (digitChar d) (numeral ds +:+ rest)).
    cbn [digits]. rewrite (digitOf_digitChar d Hd), IH by done.
    cbn [fold_left length]. by rewrite Nat.add_succ_r.
Qed.

Lemma numeral_head ds rest :
  Forall (λ d, (d < 10)%nat) ds → ds ≠ [] →
  ∃ d tail, (d < 10)%nat ∧ numeral ds +:+ rest = String (digitChar d) tail.
Proof.
  intros Hds Hne. destruct ds as [|d ds]; [done|].
  apply Forall_cons in Hds as [Hd _]. by exists d, (numeral ds +:+ rest).
Qed.

Lemma skipWhite_numeral ds rest :
  Forall (λ d, (d < 10)%nat) ds → ds ≠ [] →
  skipWhite (numeral ds +:+ rest) = numeral ds +:+ rest.
Proof.
  intros Hds Hne. destruct (numeral_head ds rest Hds Hne) as (d & tail & Hd & ->).
  cbn. by rewrite (isWhite_digitChar d Hd).
Qed.

Lemma sign_numeral ds rest :
  Forall (λ d, (d < 10)%nat) ds → ds ≠ [] →
  sign (numeral ds +:+ rest) = (false, numeral ds +:+ rest).
Proof.
  intros Hds Hne. destruct (numeral_head ds rest Hds Hne) as (d & tail & Hd & ->).
  do 10 (destruct d as [|d]; [reflexivity|]). lia.
Qed.

Lemma hexPrefix_numeral ds :
  Forall (λ d, (d < 10)%nat) ds → hexPrefix (numeral ds) = None.
Proof.
  intros Hds. destruct ds as [|d ds]; [done|].
  apply Forall_cons in Hds as [Hd Hds].
  destruct ds as [|d' ds].
  - do 10 (destruct d as [|d]; [reflexivity|]). lia.
  - apply Forall_cons in Hds as [Hd' _].
    change (numeral (d :: d' :: ds))
      with (String (digitChar d) (String (digitChar d') (numeral ds))).
    do 10 (destruct d as [|d];
           [do 10 (destruct d' as [|d']; [reflexivity|]); lia|]).
    lia.
Qed.

Lemma radixPrefix_numeral ds rest :
  Forall (λ d, (d < 10)%nat) ds → ds ≠ [] →
  radixPrefix (numeral ds +:+ String "."%char rest) = None.
Proof.
  intros Hds Hne. destruct ds as [|d ds]; [done|].
  apply Forall_cons in Hds as [Hd Hds].
  destruct ds as [|d' ds].
  - change (numeral [d] +:+ String "."%char rest)
      with (String (digitChar d) (String "."%char rest)).
    do 10 (destruct d as [|d]; [reflexivity|]). lia.
  - apply Forall_cons in Hds as [Hd' _].
    change (numeral (d :: d' :: ds) +:+ String "."%char rest)
      with (String (digitChar d)
              (String (digitChar d') (numeral ds +:+ String "."%char rest))).
    do 10 (destruct d as [|d];
           [do 10 (destruct d' as [|d']; [reflexivity|]); lia|]).
    lia.
Qed.

Lemma append_empty (s : string) : s +:+ "" = s.
Proof.
  induction s as [|c s IH]; [done|].
  change (String c s +:+ "") with (String c (s +:+ "")). by f_equal.
Qed.

Lemma hexPrefix_numeral_point ds rest :
  Forall (λ d, (d < 10)%nat) ds → ds ≠ [] →
  hexPrefix (numeral ds +:+ String "."%char rest) = None.
Proof.
  intros Hds Hne. destruct ds as [|d ds]; [done|].
  apply Forall_cons in Hds as [Hd Hds].
  destruct ds as [|d' ds].
  - change (numeral [d] +:+ String "."%char rest)
      with (String (digitChar d) (String "."%char rest)).
    do 10 (destruct d as [|d]; [reflexivity|]). lia.
  - apply Forall_cons in Hds as [Hd' _].
    change (numeral (d :: d' :: ds) +:+ String "."%char rest)
      with (String (digitChar d)
              (String (digitChar d') (numeral ds +:+ String "."%char rest))).
    do 10 (destruct d as [|d];
           [do 10 (destruct d' as [|d']; [reflexivity|]); lia|]).
    lia.
Qed.

Lemma endsLiteral_stops rest : endsLiteral rest → stops rest.
Proof. destruct rest as [|c rest]; [done|]. by intros [H _]. Qed.

(** The decimal literal read at the head of [ip.fp] followed by [rest] is
    the numeral, with its value; [rest] is left. *)
Lemma decimalPrefix_numeral_rest ip fp rest :
  Forall (λ d, (d < 10)%nat) ip → Forall (λ d, (d < 10)%nat) fp → ip ≠ [] →
  endsLiteral rest →
  decimalPrefix (numeral ip +:+ "." +:+ numeral fp +:+ rest)
  = Some (Qred (decimalValue ip fp), rest).
Proof.
  intros Hip Hfp Hne Hrest. unfold decimalPrefix.
  rewrite (sign_numeral ip _ Hip Hne).
  rewrite (digits_numeral ip 0 0%nat ("." +:+ numeral fp +:+ rest) Hip) by done.
  change ("." +:+ numeral fp +:+ rest) with (String "."%char (numeral fp +:+ rest)).
  cbv beta iota.
  rewrite (digits_numeral fp 0 0%nat rest Hfp) by (by apply endsLiteral_stops).
  cbn [Nat.add].
  rewrite bool_decide_eq_false_2 by (destruct ip; [done|cbn; lia]).
  cbn [andb].
  assert (Hexp :
    match rest with
    | String c rest' =>
        if bool_decide (c = "e"%char) || bool_decide (c = "E"%char)
        then let '(eneg, r1) := sign rest' in
             let '(ev, ne, r2) := digits 0 0 r1 in
             if bool_decide (ne = 0%nat) then (0, rest) else (signed eneg ev, r2)
        else (0, rest)
    | EmptyString => (0, rest)
    end = (0, rest)).
  { destruct rest as [|c rest']; [done|]. destruct Hrest as (_ & He & HE).
    by rewrite !bool_decide_eq_false_2 by done. }
  rewrite Hexp. f_equal. f_equal. apply Qred_complete.
  unfold decimalValue, numeralValue, pow10.
  set (i := inject_Z (fold_left _ ip 0)). set (f := inject_Z (fold_left _ fp 0)).
  change (if Z.leb 0 0 then inject_Z (10 ^ 0) else / inject_Z (10 ^ (- 0)))
    with 1%Q.
  destruct (length fp) as [|n].
  - change (if Z.leb 0 (- Z.of_nat 0) then inject_Z (10 ^ (- Z.of_nat 0))
            else / inject_Z (10 ^ (- - Z.of_nat 0))) with 1%Q.
    change (inject_Z (10 ^ Z.of_nat 0)) with 1%Q. field.
  - rewrite (proj2 (Z.leb_gt _ _)) by lia.
    rewrite Z.opp_involutive. unfold Qdiv. ring.
Qed.

(** The decimal literal read from the numeral [ip.fp] is the whole of it,
    with the value of the numeral. *)
Lemma decimalPrefix_numeral ip fp :
  Forall (λ d, (d < 10)%nat) ip → Forall (λ d, (d < 10)%nat) fp → ip ≠ [] →
  decimalPrefix (numeral ip +:+ "." +:+ numeral fp)
  = Some (Qred (decimalValue ip fp), "").
Proof.
  intros Hip Hfp Hne.
  rewrite <- (append_empty (numeral fp)) at 1.
  by apply (decimalPrefix_numeral_rest ip fp "").
Qed.

(** C8: on every submission of the publish-price form, an empty product
    field fails validation with 'Please select a product', an entered price
    whose number is below 0.01 fails it with 'Price must be greater than
    0', and in both cases nothing is sent; validation passes exactly when
    a product is chosen and a price is entered that is not below 0.01; then
    exactly one request is sent, carrying the product field parsed by
    parseInt, the price parsed by parseFloat, and the district parsed by
    parseInt when the district field is given (a non-empty string, or a
    non-zero number) and undefined otherwise.  Parsed means: for a decimal
    numeral, the double nearest to the number it denotes; text after the
    numeral that does not continue it is ignored by parseFloat, and so is
    all that follows the integer digits by parseInt, while the number the
    rules compare is NaN unless only white space follows. *)
Theorem publish_form_validates_then_sends (st : State) :
  let values := form st in
  (emptyId (f_sku_id values) = true →
     ∃ st', handleSubmit st = Some (st', [])
            ∧ err_sku_id (errors st') = Some "Please select a product")
  ∧ (emptyPrice (f_price values) = false →
     (∃ q, valueAsNumber (f_price values) = Num q ∧ (q < 1 # 100)%Q)
     ∨ valueAsNumber (f_price values) = Infinity true →
     ∃ st', handleSubmit st = Some (st', [])
            ∧ err_price (errors st') = Some "Price must be greater than 0")
  ∧ (validate values = noErrors ↔
       emptyId (f_sku_id values) = false
       ∧ emptyPrice (f_price values) = false
       ∧ ¬ ((∃ q, valueAsNumber (f_price values) = Num q ∧ (q < 1 # 100)%Q)
            ∨ valueAsNumber (f_price values) = Infinity true))
  ∧ (validate values = noErrors →
     ∃ sku price,
       parseIntOfToString (f_sku_id values) = Some sku
       ∧ parseFloatOfToString (f_price values) = Some price
       ∧ handleSubmit st =
           Some (mkState (isCreateModalOpen st) (editingPrice st) (error st)
                         values noErrors,
                 [submitRequest st
                    (mkData sku
                       match f_district_id values with
                       | IdStr s => if bool_decide (s = "") then None
                                    else Some (parseInt s)
                       | IdNum z => if Z.eqb z 0 then None else Some (Num z)
                       | IdUndefined => None
                       end
                       price)]))
  ∧ (∀ ip fp : list nat,
       Forall (λ d, (d < 10)%nat) ip → Forall (λ d, (d < 10)%nat) fp → ip ≠ [] →
       parseInt (numeral ip) = roundInteger (numeralValue ip)
       ∧ parseFloat (numeral ip +:+ "." +:+ numeral fp)
         = roundDouble (Qred (decimalValue ip fp))
       ∧ toNumber (numeral ip +:+ "." +:+ numeral fp)
         = roundDouble (Qred (decimalValue ip fp)))
  ∧ (∀ (ip fp : list nat) (rest : string),
       Forall (λ d, (d < 10)%nat) ip → Forall (λ d, (d < 10)%nat) fp → ip ≠ [] →
       endsLiteral rest →
       parseInt (numeral ip +:+ "." +:+ numeral fp +:+ rest)
       = roundInteger (numeralValue ip)
       ∧ parseFloat (numeral ip +:+ "." +:+ numeral fp +:+ rest)
         = roundDouble (Qred (decimalValue ip fp))
       ∧ toNumber (numeral ip +:+ "." +:+ numeral fp +:+ rest)
         = if bool_decide (skipWhite rest = "")
           then roundDouble (Qred (decimalValue ip fp)) else NaN).
Proof.
  intros values. subst values. split; [|split; [|split; [|split; [|split]]]].
  - intros Hempty. unfold handleSubmit, validate, validateSku.
    rewrite Hempty. cbn. eauto.
  - intros Hentered Hbelow.
    apply (validatePrice_entered _ Hentered) in Hbelow.
    unfold handleSubmit, validate. rewrite Hbelow. cbn.
    destruct (validateSku (f_sku_id (form st))); eauto.
  - rewrite validate_passes. split.
    + intros [Hsku Hprice]. split; [done|].
      assert (Hentered : emptyPrice (f_price (form st)) = false).
      { unfold validatePrice in Hprice.
        by destruct (emptyPrice (f_price (form st))). }
      split; [done|]. intros Hbelow.
      apply (validatePrice_entered _ Hentered) in Hbelow. congruence.
    + intros (Hsku & Hentered & Hbelow). split; [done|].
      destruct (validatePrice_entered _ Hentered) as [Hiff [Hok|Hbad]]; [done|].
      apply Hiff in Hbad. done.
  - intros Hok. pose proof Hok as Hok'.
    apply validate_passes in Hok' as [Hsku Hprice].
    destruct (parseIntOfToString_not_empty _ Hsku) as [sku Hs].
    assert (Hp : emptyPrice (f_price (form st)) = false).
    { unfold validatePrice in Hprice.
      by destruct (emptyPrice (f_price (form st))). }
    destruct (parseFloatOfToString_not_empty _ Hp) as [price Hpr].
    exists sku, price. split; [done|]. split; [done|].
    unfold handleSubmit. rewrite Hok. cbn.
    unfold onSubmit. cbn. rewrite Hs, Hpr. unfold submitRequest.
    destruct (f_district_id (form st)) as [|s|z]; cbn.
    + by destruct (editingPrice st).
    + destruct (bool_decide (s = "")); cbn; by destruct (editingPrice st).
    + destruct (Z.eqb z 0); cbn; by destruct (editingPrice st).
  - intros ip fp Hip Hfp Hne. split; [|split].
    + unfold parseInt.
      pose proof (skipWhite_numeral ip "" Hip Hne) as Hskip.
      pose proof (sign_numeral ip "" Hip Hne) as Hsign.
      pose proof (digits_numeral ip 0 0%nat "" Hip I) as Hdigits.
      rewrite append_empty in Hskip, Hsign, Hdigits.
      rewrite Hskip, Hsign, (hexPrefix_numeral ip Hip), Hdigits.
      rewrite bool_decide_eq_false_2 by (destruct ip; [done|cbn; lia]).
      reflexivity.
    + unfold parseFloat, numericPrefix.
      rewrite (skipWhite_numeral ip _ Hip Hne).
      by rewrite (decimalPrefix_numeral ip fp Hip Hfp Hne).
    + unfold toNumber, numericPrefix.
      rewrite (skipWhite_numeral ip _ Hip Hne).
      destruct (numeral_head ip ("." +:+ numeral fp) Hip Hne)
        as (d & tail & Hd & Hhead).
      rewrite bool_decide_eq_false_2 by (rewrite Hhead; done).
      assert (Hradix : radixPrefix (numeral ip +:+ "." +:+ numeral fp) = None).
      { apply (radixPrefix_numeral ip (numeral fp)); done. }
      rewrite Hradix.
      by rewrite (decimalPrefix_numeral ip fp Hip Hfp Hne).
  - intros ip fp rest Hip Hfp Hne Hrest. split; [|split].
    + unfold parseInt.
      rewrite (skipWhite_numeral ip _ Hip Hne), (sign_numeral ip _ Hip Hne).
      change ("." +:+ numeral fp +:+ rest)
        with (String "."%char (numeral fp +:+ rest)).
      rewrite (hexPrefix_numeral_point ip _ Hip Hne).
      rewrite (digits_numeral ip 0 0%nat _ Hip) by done.
      rewrite bool_decide_eq_false_2 by (destruct ip; [done|cbn; lia]).
      reflexivity.
    + unfold parseFloat, numericPrefix.
      rewrite (skipWhite_numeral ip _ Hip Hne).
      by rewrite (decimalPrefix_numeral_rest ip fp rest Hip Hfp Hne Hrest).
    + unfold toNumber, numericPrefix.
      rewrite (skipWhite_numeral ip _ Hip Hne).
      destruct (numeral_head ip ("." +:+ numeral fp +:+ rest) Hip Hne)
        as (d & tail & Hd & Hhead).
      rewrite bool_decide_eq_false_2 by (rewrite Hhead; done).
      assert (Hradix :
        radixPrefix (numeral ip +:+ "." +:+ numeral fp +:+ rest) = None).
      { apply (radixPrefix_numeral ip (numeral fp +:+ rest)); done. }
      rewrite Hradix.
      by rewrite (decimalPrefix_numeral_rest ip fp rest Hip Hfp Hne Hrest).
Qed.

Example invalid_form_messages :
  handleSubmit invalidForm =
    Some (mkState true None "" (form invalidForm)
            (mkErrors (Some "Please select a product")
                      (Some "Price must be greater than 0")), []).
Proof. vm_compute. reflexivity. Qed.

(** A price typed just under one hundredth is the double 0.01: it passes
    the [min] rule and is sent as that double. *)
Example price_rounding_to_one_hundredth :
  handleSubmit (mkState true None ""
                  (mkForm (IdStr "3") (IdStr "") (PriceStr "0.0099999999999999999"))
                  noErrors)
  = Some (mkState true None ""
            (mkForm (IdStr "3") (IdStr "") (PriceStr "0.0099999999999999999"))
            noErrors,
          [CreatePublishedPrice
             (mkData (Num 3) None
                (Num (5764607523034235 # 576460752303423488)))]).
Proof. vm_compute. reflexivity. Qed.

(** Text after the numeral: dropped by the two parsers of [onSubmit], not
    a number for the [min] rule. *)
Example trailing_text_is_dropped :
  parseFloat "12.5px" = Num (25 # 2)
  ∧ parseInt "12.7" = Num 12
  ∧ toNumber "12.5px" = NaN
  ∧ toNumber " 12.5 " = Num (25 # 2).
Proof. vm_compute. repeat split. Qed.

(** A price of thirty digits is sent as the double nearest to it, and one
    beyond the range of the doubles as an infinity. *)
Example long_price_is_rounded :
  parseFloat "123456789012345678901234567890"
  = Num (123456789012345677877719597056 # 1)
  ∧ parseFloat "1e400" = Infinity false
  ∧ parseInt "9007199254740993" = Num 9007199254740992.
Proof. vm_compute. repeat split. Qed.

(** The theorem applied to the valid form: product 3, no district, and
    the price 266.35 as the double nearest to it. *)
Lemma publish_form_valid_sample :
  validate (form validForm) = noErrors
  ∧ handleSubmit validForm =
      Some (validForm,
            [CreatePublishedPrice
               (mkData (Num 3) None
                  (Num (2342839376465101 # 8796093022208)))]).
Proof.
  assert (Hok : validate (form validForm) = noErrors) by (vm_compute; reflexivity).
  split; [exact Hok|].
  destruct (publish_form_validates_then_sends validForm) as (_ & _ & _ & H & _).
  destruct (H Hok) as (sku & price & Hsku & Hprice & Hsend).
  rewrite Hsend.
  assert (Hs : sku = Num 3) by (vm_compute in Hsku; congruence).
  assert (Hp : price = Num (2342839376465101 # 8796093022208))
    by (vm_compute in Hprice; congruence).
  rewrite Hs, Hp. reflexivity.
Defined.

End PublishForm.

(* ===================================================================== *)
(** ** Compliance rendering                                               *)
(* ===================================================================== *)

Section ComplianceRendering.
Import Js PriceManagement CompliancePage.

(** C7, refuted as worded: two prices received as compliant are coloured
    differently, because the Markup cell compares the markup with 10
    itself: red at 12 percent, green at 5 percent. *)
Lemma markup_colour_is_a_frontend_judgment :
  ¬ compliance_rendered_as_received.
Proof.
  intros (_ & Hcolour & _).
  specialize (Hcolour compliantAtTwelve compliantAtFive eq_refl).
  vm_compute in Hcolour. discriminate Hcolour.
Qed.

Lemma filter_length_split {A} (f : A → bool) (l : list A) :
  (length (List.filter f l) + length (List.filter (λ x, negb (f x)) l))%nat
  = length l.
Proof.
  induction l as [|x l IH]; cbn; [done|].
  destruct (f x); cbn; lia.
Qed.

Lemma compliant_at_most_total ps : (compliantPrices ps ≤ totalPrices ps)%nat.
Proof.
  unfold compliantPrices, totalPrices.
  pose proof (filter_length_split compliant ps). lia.
Qed.

Lemma complianceRate_bounds ps : (0 <= complianceRate ps <= 100)%Q.
Proof.
  unfold complianceRate. pose proof (compliant_at_most_total ps) as Hle.
  destruct (0 <? totalPrices ps)%nat eqn:Hpos.
  - apply Nat.ltb_lt in Hpos.
    set (c := compliantPrices ps) in *. set (t := totalPrices ps) in *.
    assert (Ht : (0 < inject_Z (Z.of_nat t))%Q).
    { change 0%Q with (inject_Z 0). rewrite <- Zlt_Qlt. lia. }
    assert (Hc : (0 <= inject_Z (Z.of_nat c))%Q).
    { change 0%Q with (inject_Z 0). rewrite <- Zle_Qle. lia. }
    assert (Hct : (inject_Z (Z.of_nat c) <= inject_Z (Z.of_nat t))%Q).
    { rewrite <- Zle_Qle. lia. }
    split.
    + apply Qmult_le_0_compat; [|done].
      apply Qle_shift_div_l; [done|]. by rewrite Qmult_0_l.
    + apply Qle_trans with (1 * 100)%Q; [|by rewrite Qmult_1_l; apply Qle_refl].
      apply Qmult_le_compat_r; [|done].
      apply Qle_shift_div_r; [done|]. by rewrite Qmult_1_l.
  - split; [apply Qle_refl | done].
Qed.

(** C7, amended: the Status badge of the price table and of the compliance
    page shows the compliant flag exactly as received, and nothing else of
    the price enters it.  The other figures are the frontend's own: the
    Markup cell is red exactly when the received markup exceeds 10, whatever
    the flag, and shows the markup rounded to one decimal: the nearest
    tenth of its absolute value (the larger of two that are as near), after
    a minus sign when the markup is negative, for absolute values below
    1e21, and the exponent form from there on; the compliance page counts
    the total, the compliant and the non-compliant prices from the received
    flags and computes the rate, between 0 and 100, as compliant / total *
    100 (0 for an empty list). *)
Theorem compliance_flag_as_received_figures_computed :
  (∀ p, statusBadge p =
          (if compliant p then ("success", "Compliant")
           else ("danger", "Non-compliant"))
        ∧ rowBadge p = statusBadge p)
  ∧ (∀ p q, compliant p = compliant q → statusBadge p = statusBadge q)
  ∧ (∀ p, markupClass p = "text-red-600" ↔ (10 < markup_percentage p)%Q)
  ∧ (∀ p, markupClass p = "text-green-600" ↔ (markup_percentage p <= 10)%Q)
  ∧ (∀ p, (Qabs (markup_percentage p) < inject_Z (10 ^ 21))%Q →
       ∃ n : Z,
         (inject_Z n - (1 # 2) <= Qabs (markup_percentage p) * 10
            < inject_Z n + (1 # 2))%Q
         ∧ ((0 <= markup_percentage p)%Q →
            markupText p
            = (pretty (n / 10) +:+ "." +:+ pretty (n mod 10)) +:+ "%")
         ∧ ((markup_percentage p < 0)%Q →
            markupText p
            = ("-" +:+ pretty (n / 10) +:+ "." +:+ pretty (n mod 10)) +:+ "%"))
  ∧ (∀ p, (inject_Z (10 ^ 21) <= Qabs (markup_percentage p))%Q →
       ((0 <= markup_percentage p)%Q →
        markupText p = exponentForm (Qabs (markup_percentage p)) +:+ "%")
       ∧ ((markup_percentage p < 0)%Q →
          markupText p
          = ("-" +:+ exponentForm (Qabs (markup_percentage p))) +:+ "%"))
  ∧ (∀ ps,
       totalPrices ps = length ps
       ∧ compliantPrices ps = length (List.filter compliant ps)
       ∧ nonCompliantPrices ps = length (List.filter (λ p, negb (compliant p)) ps)
       ∧ (compliantPrices ps + nonCompliantPrices ps)%nat = totalPrices ps
       ∧ (0 <= complianceRate ps <= 100)%Q
       ∧ (ps ≠ [] →
          (complianceRate ps ==
             inject_Z (Z.of_nat (compliantPrices ps))
             / inject_Z (Z.of_nat (totalPrices ps)) * 100)%Q)
       ∧ complianceRate [] = 0%Q).
Proof.
  split; [|split; [|split; [|split; [|split; [|split]]]]].
  - intros p. unfold statusBadge, rowBadge. by destruct (compliant p).
  - intros p q H. unfold statusBadge. by rewrite H.
  - intros p. unfold markupClass. rewrite <- Qltb_lt.
    destruct (Qltb 10 (markup_percentage p)); split; done.
  - intros p. unfold markupClass.
    destruct (Qltb 10 (markup_percentage p)) eqn:Hlt; split; try done.
    + intros Hle. apply Qltb_lt in Hlt. by apply Qlt_not_le in Hlt.
    + intros _. apply Qnot_lt_le. intros H%Qltb_lt. congruence.
  - intros p Hsmall. set (m := markup_percentage p) in *.
    exists (Qfloor (Qabs m * 10 + (1 # 2))).
    assert (Htest : Qle_bool (inject_Z (10 ^ 21)) (Qabs m) = false).
    { apply not_true_iff_false. intros H%Qle_bool_iff.
      by apply Qlt_not_le in Hsmall. }
    split; [|split].
    + pose proof (Qfloor_le (Qabs m * 10 + (1 # 2))) as Hlo.
      pose proof (Qlt_floor (Qabs m * 10 + (1 # 2))) as Hhi.
      rewrite inject_Z_plus in Hhi.
      set (n := inject_Z (Qfloor (Qabs m * 10 + (1 # 2)))) in *.
      change (inject_Z 1) with 1%Q in Hhi.
      generalize dependent (Qabs m). intros a _ _ n Hlo Hhi. lra.
    + intros Hpos. unfold markupText, toFixed1. fold m. rewrite Htest.
      assert (Hnot : Qltb m 0 = false).
      { apply not_true_iff_false. intros H%Qltb_lt. by apply Qlt_not_le in H. }
      by rewrite Hnot.
    + intros Hneg. unfold markupText, toFixed1. fold m. rewrite Htest.
      by rewrite (proj2 (Qltb_lt m 0) Hneg).
  - intros p Hlarge. set (m := markup_percentage p) in *.
    assert (Htest : Qle_bool (inject_Z (10 ^ 21)) (Qabs m) = true)
      by (by apply Qle_bool_iff).
    split.
    + intros Hpos. unfold markupText, toFixed1. fold m. rewrite Htest.
      assert (Hnot : Qltb m 0 = false).
      { apply not_true_iff_false. intros H%Qltb_lt. by apply Qlt_not_le in H. }
      by rewrite Hnot.
    + intros Hneg. unfold markupText, toFixed1. fold m. rewrite Htest.
      by rewrite (proj2 (Qltb_lt m 0) Hneg).
  - intros ps. split; [done|]. split; [done|].
    pose proof (filter_length_split compliant ps) as Hsplit.
    pose proof (compliant_at_most_total ps) as Hle.
    unfold nonCompliantPrices, compliantPrices, totalPrices in *.
    split; [lia|]. split; [lia|].
    split; [apply complianceRate_bounds|]. split; [|done].
    intros Hne. unfold complianceRate, totalPrices.
    destruct ps; [done|]. cbn [length Nat.ltb Nat.leb]. reflexivity.
Qed.

(** The compliance page on the two prices above and a non-compliant one. *)
Example compliance_page_sample :
  let ps := [compliantAtTwelve; compliantAtFive;
             mkPublishedPrice 3 (mkSKU 3 "MOP" "Potash") (mkDistrict 7 "North")
               (900 # 1) false (20 # 1) (750 # 1)] in
  (totalPrices ps, compliantPrices ps, nonCompliantPrices ps) = (3, 2, 1)%nat
  ∧ Qred (complianceRate ps) = (200 # 3)
  ∧ rateBarClass ps = "bg-yellow-600"
  ∧ markupText compliantAtTwelve = "12.0%".
Proof. vm_compute. repeat split. Qed.

(** Markup cells of negative, tiny and huge markups: the doubles -2.35,
    -0.03125, 0.25, 1e21 and that of a number of thirty digits. *)
Example markup_text_samples :
  toFixed1 (- (5291729562160333 # 2251799813685248)) = "-2.4"
  ∧ toFixed1 (- (1 # 32)) = "-0.0"
  ∧ toFixed1 (1 # 4) = "0.3"
  ∧ toFixed1 (1000000000000000000000 # 1) = "1e+21"
  ∧ toFixed1 (- (123456789012345677877719597056 # 1)) = "-1.2345678901234568e+29".
Proof. vm_compute. repeat split. Qed.

End ComplianceRendering.

(* ===================================================================== *)
(** ** The API client: token refresh and failures                         *)
(* ===================================================================== *)

Section TokenRefresh.
Import ApiClient.

(** One unfolding of [this.client(config)]. *)
Lemma request_unfold server fuel st config :
  request server (S fuel) st config =
    let sentConfig := requestInterceptor st config in
    let st1 := mkState (window st) (sent st ++ [sentConfig]) in
    match firstOutcome server st config with
    | Replied r =>
        if succeeded r then Some (st1, Resolved r)
        else responseErrorInterceptor (request server fuel) st1
               (mkError sentConfig (Some r))
    | NoResponse =>
        responseErrorInterceptor (request server fuel) st1 (mkError sentConfig None)
    end.
Proof. reflexivity. Qed.

Lemma requestInterceptor_retry st config :
  _retry (requestInterceptor st config) = _retry config.
Proof.
  unfold requestInterceptor.
  destruct (getAccessToken st) as [t|]; [|done].
  by destruct (truthy (Some t)).
Qed.

Lemma getRefreshToken_sent w l1 l2 :
  getRefreshToken (mkState w l1) = getRefreshToken (mkState w l2).
Proof. reflexivity. Qed.

(** The run on the renewing server: three requests on the wire, the new
    pair stored, the original request answered. *)
Example renewed_and_resent :
  request renewingServer 3 signedIn getPublishedPrices =
    Some (mkState
            (Some (mkWindow {[ "access_token" := "a2"; "refresh_token" := "r2" ]}
                            "/dashboard/retailer"))
            [mkConfig "get" "/pricing/published-prices/" (Some "Bearer a1") NoPayload false;
             mkConfig "post" "/token/refresh/" (Some "Bearer a1") (RefreshPayload "r1") false;
             mkConfig "get" "/pricing/published-prices/" (Some "Bearer a2") NoPayload true],
          Resolved (mkResponse 200 (OtherBody "[]"))).
Proof. vm_compute. reflexivity. Qed.

(** C6, refuted as worded: the first attempt fails with 401, and the
    client does not reject: it renews the stored tokens and sends the
    request again. *)
Lemma unauthorized_request_is_recovered :
  ¬ no_recovery_as_specified renewingServer 3 signedIn getPublishedPrices.
Proof.
  intros H. destruct (H eq_refl) as (st' & e & Hreq & _).
  rewrite renewed_and_resent in Hreq. discriminate Hreq.
Qed.

(** C6, amended: a request whose failure is not a first 401 with a
    non-empty refresh token in storage is rejected with its own error,
    having been sent once, and the stored state is left as it was.  (On a
    first 401 with a refresh token stored the interceptor does recover: it
    renews the tokens and sends the request again.) *)
Theorem unrecoverable_failure_is_rejected_untouched
    (server : Server) (fuel : nat) (st : State) (config : RequestConfig) :
  failed (firstOutcome server st config) = true →
  recoverable st config (firstOutcome server st config) = false →
  ∃ e,
    request server (S fuel) st config =
      Some (mkState (window st) (sent st ++ [requestInterceptor st config]),
            Rejected e)
    ∧ response e =
        match firstOutcome server st config with
        | Replied r => Some r
        | NoResponse => None
        end
    ∧ url (ApiClient.config e) = url config
    ∧ payload (ApiClient.config e) = payload config.
Proof.
  intros Hfail Hrec. rewrite request_unfold. cbv zeta.
  assert (Hurl : ∀ c, url (requestInterceptor st c) = url c
                      ∧ payload (requestInterceptor st c) = payload c).
  { intros c. unfold requestInterceptor.
    destruct (getAccessToken st) as [t|]; [|done].
    by destruct (truthy (Some t)). }
  destruct (firstOutcome server st config) as [r|] eqn:Hout; cbn in Hfail, Hrec.
  - apply negb_true_iff in Hfail. rewrite Hfail.
    unfold responseErrorInterceptor, statusIs. cbn [ApiClient.config response].
    rewrite requestInterceptor_retry.
    change (getRefreshToken _) with (getRefreshToken st).
    destruct (Z.eqb (status r) 401) eqn:H401; cbn [andb] in *.
    + destruct (_retry config) eqn:Hretry; cbn [negb andb] in *.
      * eexists. split; [reflexivity|]. cbn. split; [done|]. apply Hurl.
      * destruct (getRefreshToken st) as [t|] eqn:Htok.
        -- rewrite Hrec. eexists. split; [reflexivity|]. cbn.
           split; [done|]. apply Hurl.
        -- eexists. split; [reflexivity|]. cbn. split; [done|]. apply Hurl.
    + eexists. split; [reflexivity|]. cbn. split; [done|]. apply Hurl.
  - unfold responseErrorInterceptor, statusIs. cbn.
    eexists. split; [reflexivity|]. cbn. split; [done|]. apply Hurl.
Qed.

(** The amended claim on the unavailable server. *)
Lemma unavailable_server_is_rejected_untouched :
  failed (firstOutcome unavailableServer signedIn getPublishedPrices) = true
  ∧ recoverable signedIn getPublishedPrices
      (firstOutcome unavailableServer signedIn getPublishedPrices) = false
  ∧ ∃ e,
      request unavailableServer 1 signedIn getPublishedPrices =
        Some (mkState (window signedIn)
                [requestInterceptor signedIn getPublishedPrices], Rejected e).
Proof.
  split; [reflexivity|]. split; [reflexivity|].
  destruct (unrecoverable_failure_is_rejected_untouched unavailableServer 0
              signedIn getPublishedPrices eq_refl eq_refl) as (e & He & _).
  exists e. exact He.
Defined.

(** On a server that answers 401 to everything, a request made while a
    refresh token is stored never settles: the refresh request is itself
    answered 401, which the same interceptor answers with a further refresh
    request, and so on. *)
Lemma refresh_of_refresh_never_settles fuel : ∀ st config,
  truthy (getRefreshToken st) = true →
  _retry config = false →
  request unauthorizedServer fuel st config = None.
Proof.
  induction fuel as [|fuel IH]; intros st config Htok Hretry; [done|].
  rewrite request_unfold. cbv zeta.
  unfold firstOutcome, unauthorizedServer. cbn [succeeded status].
  change (Z.leb 200 401 && Z.ltb 401 300) with false. cbv iota.
  unfold responseErrorInterceptor, statusIs. cbn [ApiClient.config response status].
  rewrite requestInterceptor_retry, Hretry.
  change (Z.eqb 401 401 && negb false) with true. cbv iota.
  change (getRefreshToken _) with (getRefreshToken st).
  destruct (getRefreshToken st) as [t|] eqn:Ht; [|done].
  rewrite Htok.
  rewrite IH; [done| |done].
  change (getRefreshToken _) with (getRefreshToken st). by rewrite Ht.
Qed.

(** C9, the failing input: with the pair (a1, r1) stored and both tokens
    expired, so that the server answers 401 to the request and to the
    refresh request, the call never settles, whatever the number of nested
    requests allowed: the tokens are never removed and the browser is never
    sent to /login. *)
Theorem expired_refresh_token_never_logs_out (fuel : nat) :
  request unauthorizedServer fuel signedIn getPublishedPrices = None.
Proof. by apply refresh_of_refresh_never_settles. Qed.

Example refresh_requests_pile_up :
  (λ r, url <$> sent r.1) <$> request (refusingAfter 3) 9 signedIn getPublishedPrices =
    Some ["/pricing/published-prices/"; "/token/refresh/"; "/token/refresh/";
          "/token/refresh/"].
Proof. vm_compute. reflexivity. Qed.

(** When the refresh request is refused with another status, the catch
    branch runs: both tokens are removed and the browser goes to /login. *)
Example refused_refresh_logs_out :
  (λ r, window r.1) <$> request (refusingAfter 1) 2 signedIn getPublishedPrices =
    Some (Some (mkWindow ∅ "/login")).
Proof. vm_compute. reflexivity. Qed.

End TokenRefresh.

(* ===================================================================== *)
(** ** Sorting in the data table                                          *)
(* ===================================================================== *)

Section SortedRows.
Import DataTable.

Context {T V : Type} (get : T → string → V) (lt : V → V → bool).

(** [<] on the cell values of the table is a strict weak order: it is
    asymmetric, and a value between two ordered values is ordered with one
    of them.  Numbers without NaN and strings are such values. *)
Hypothesis lt_asymmetric : ∀ a b, lt a b = true → lt b a = false.
Hypothesis lt_between : ∀ a b c, lt a c = true → lt a b = true ∨ lt b c = true.

Lemma insert_perm (cmp : T → T → Z) x l : insert cmp x l ≡ₚ x :: l.
Proof.
  induction l as [|y l IH]; cbn; [done|].
  destruct (Z.leb (cmp x y) 0); [done|].
  rewrite IH. apply Permutation_swap.
Qed.

Lemma sort_perm (cmp : T → T → Z) l : sort cmp l ≡ₚ l.
Proof.
  induction l as [|x l IH]; cbn; [done|].
  fold (sort cmp l). by rewrite insert_perm, IH.
Qed.

Lemma inOrder_trans c a b d :
  inOrder get lt c a b → inOrder get lt c b d → inOrder get lt c a d.
Proof.
  unfold inOrder. destruct (direction c); intros Hab Hbd.
  - destruct (lt (get d (key c)) (get a (key c))) eqn:Hda; [|done].
    destruct (lt_between _ (get b (key c)) _ Hda); congruence.
  - destruct (lt (get a (key c)) (get d (key c))) eqn:Had; [|done].
    destruct (lt_between _ (get b (key c)) _ Had); congruence.
Qed.

(** The comparator does not put [y] before [x]: [x] may go first. *)
Lemma comparator_nonpositive c x y :
  Z.leb (comparator get lt c x y) 0 = true → inOrder get lt c x y.
Proof.
  unfold comparator, inOrder.
  destruct (lt (get x (key c)) (get y (key c))) eqn:Hxy.
  - apply lt_asymmetric in Hxy. destruct (direction c); [done|].
    intros H. discriminate H.
  - destruct (lt (get y (key c)) (get x (key c))) eqn:Hyx;
      destruct (direction c); try done; intros H; discriminate H.
Qed.

(** The comparator puts [y] before [x]. *)
Lemma comparator_positive c x y :
  Z.leb (comparator get lt c x y) 0 = false → inOrder get lt c y x.
Proof.
  unfold comparator, inOrder.
  destruct (lt (get x (key c)) (get y (key c))) eqn:Hxy.
  - destruct (direction c); [intros H; discriminate H |].
    intros _. by apply lt_asymmetric.
  - destruct (lt (get y (key c)) (get x (key c))) eqn:Hyx;
      destruct (direction c); try done; intros H; discriminate H.
Qed.

Lemma insert_sorted c x l :
  StronglySorted (inOrder get lt c) l →
  StronglySorted (inOrder get lt c) (insert (comparator get lt c) x l).
Proof.
  induction 1 as [|y l Hsorted IH Hy]; cbn.
  - repeat constructor.
  - destruct (Z.leb (comparator get lt c x y) 0) eqn:Hcmp.
    + apply comparator_nonpositive in Hcmp.
      constructor; [by constructor|].
      constructor; [done|].
      eapply Forall_impl; [exact Hy|].
      intros z Hyz. by eapply inOrder_trans.
    + apply comparator_positive in Hcmp.
      constructor; [done|].
      rewrite insert_perm. by constructor.
Qed.

Lemma sort_sorted c l :
  StronglySorted (inOrder get lt c) (sort (comparator get lt c) l).
Proof.
  induction l as [|x l IH]; cbn; [constructor|].
  by apply insert_sorted.
Qed.

(** The copy is a new array: the data array keeps its elements. *)
Lemma sortedData_Some (heap : gmap nat (list T)) (data : Ref) rows c :
  heap !! data = Some rows →
  let copy := fresh (dom heap) in
  sortedData get lt heap data (Some c) =
    (<[copy := sort (comparator get lt c) rows]> heap, copy)
  ∧ copy ≠ data.
Proof.
  intros Hdata copy.
  assert (Hfresh : heap !! copy = None).
  { apply not_elem_of_dom. apply is_fresh. }
  split; [|intros Heq; rewrite Heq in Hfresh; congruence].
  unfold sortedData, spread, sortInPlace. rewrite Hdata. cbn.
  fold copy. f_equal. by rewrite alter_insert_eq.
Qed.

End SortedRows.

Section SortedCopy.
Import DataTable.

Context {T V : Type} (get : T → string → V) (lt : V → V → bool).

(** C10, refuted as worded: a table whose rows hold the prices 2,
    undefined and 1 is rendered in that very order when sorted by price,
    ascending: the comparator returns 0 on every comparison with
    undefined, so the row of 2 stays before the row of 1. *)
Lemma undefined_cells_stay_unordered :
  ¬ ordered_as_specified sparseCell cellLess sparseHeap 0%nat.
Proof.
  intros H. specialize (H (mkSort "price" asc)).
  assert (Hrows : renderedRows sparseCell cellLess sparseHeap 0%nat
                    (Some (mkSort "price" asc)) = sparseRows)
    by (vm_compute; reflexivity).
  rewrite Hrows in H. apply StronglySorted_inv in H as [_ H].
  apply Forall_cons in H as [_ H]. apply Forall_cons in H as [H _].
  vm_compute in H. discriminate H.
Qed.

(** C10, amended: as long as no sort column is chosen the table renders
    the data array itself, in its order.  A click on a sortable header
    chooses ascending order, a second click on the same header descending
    order, a third ascending again, and a click on another header ascending
    order for that one.  With a sort column chosen the rendered rows are a
    permutation of the data held in a new array: the data array still
    holds its rows in their order.  They are ordered by that column in
    that direction whenever [<] is a strict weak order on the cell values
    (asymmetric, and a value between two ordered values is ordered with one
    of them), as it is on numbers without NaN and on strings. *)
Theorem table_rows_sorted_copy
    (heap : gmap nat (list T)) (data : Ref) (rows : list T) :
  heap !! data = Some rows →
  (sortedData get lt heap data None = (heap, data)
   ∧ renderedRows get lt heap data None = rows)
  ∧ (∀ k, handleSort None k = Some (mkSort k asc)
          ∧ handleSort (Some (mkSort k asc)) k = Some (mkSort k desc)
          ∧ handleSort (Some (mkSort k desc)) k = Some (mkSort k asc)
          ∧ ∀ k' d, k' ≠ k → handleSort (Some (mkSort k' d)) k = Some (mkSort k asc))
  ∧ (∀ c,
       renderedRows get lt heap data (Some c) ≡ₚ rows
       ∧ (sortedData get lt heap data (Some c)).1 !! data = Some rows
       ∧ (sortedData get lt heap data (Some c)).2 ≠ data)
  ∧ ((∀ a b, lt a b = true → lt b a = false) →
     (∀ a b c, lt a c = true → lt a b = true ∨ lt b c = true) →
     (∀ c, StronglySorted (inOrder get lt c)
             (renderedRows get lt heap data (Some c)))
     ∧ (∀ k,
          StronglySorted (λ a b, lt (get b k) (get a k) = false)
            (renderedRows get lt heap data (handleSort None k))
          ∧ StronglySorted (λ a b, lt (get a k) (get b k) = false)
              (renderedRows get lt heap data
                 (handleSort (handleSort None k) k)))).
Proof.
  intros Hdata.
  assert (Hsorted : ∀ c,
    renderedRows get lt heap data (Some c) = sort (comparator get lt c) rows).
  { intros c. unfold renderedRows.
    destruct (sortedData_Some get lt heap data rows c Hdata) as [-> _].
    by rewrite lookup_insert_eq. }
  split; [|split; [|split]].
  - split; [done|]. unfold renderedRows. cbn. by rewrite Hdata.
  - intros k. unfold handleSort. cbn.
    rewrite !bool_decide_eq_true_2 by done. cbn.
    split; [done|]. split; [done|]. split; [done|].
    intros k' d Hk. by rewrite bool_decide_eq_false_2.
  - intros c. rewrite Hsorted.
    destruct (sortedData_Some get lt heap data rows c Hdata) as [-> Hcopy]. cbn.
    split; [apply sort_perm|].
    split; [|done]. by rewrite lookup_insert_ne.
  - intros Hasym Hbetween. split.
    + intros c. rewrite Hsorted. by apply sort_sorted.
    + intros k.
      assert (Hsecond : handleSort (handleSort None k) k = Some (mkSort k desc)).
      { unfold handleSort. cbn. by rewrite !bool_decide_eq_true_2 by done. }
      rewrite Hsecond. change (handleSort None k) with (Some (mkSort k asc)).
      rewrite !Hsorted. split.
      * apply (sort_sorted get lt Hasym Hbetween (mkSort k asc)).
      * apply (sort_sorted get lt Hasym Hbetween (mkSort k desc)).
Qed.

End SortedCopy.

Section PriceTable.
Import DataTable.

Example price_rows_ascending :
  renderedRows cell Z.ltb priceHeap 0%nat (handleSort None "price") =
    [("Urea", 266); ("SSP", 266); ("MOP", 900); ("DAP", 1350)].
Proof. vm_compute. reflexivity. Qed.

Example price_rows_descending :
  renderedRows cell Z.ltb priceHeap 0%nat
    (handleSort (handleSort None "price") "price") =
    [("DAP", 1350); ("MOP", 900); ("Urea", 266); ("SSP", 266)].
Proof. vm_compute. reflexivity. Qed.

(** The rows without a price stay where they are, and so do the others
    around them. *)
Example sparse_rows_as_rendered :
  renderedRows sparseCell cellLess sparseHeap 0%nat (handleSort None "price")
  = [("DAP", Some 2); ("Urea", None); ("MOP", Some 1)].
Proof. vm_compute. reflexivity. Qed.

(** The theorem on the price table, with [<] on integers. *)
Lemma price_table_sorted_copy :
  priceHeap !! 0%nat = Some priceRows
  ∧ renderedRows cell Z.ltb priceHeap 0%nat (Some (mkSort "price" asc)) ≡ₚ priceRows
  ∧ (sortedData cell Z.ltb priceHeap 0%nat (Some (mkSort "price" asc))).1 !! 0%nat
    = Some priceRows
  ∧ StronglySorted (inOrder cell Z.ltb (mkSort "price" asc))
      (renderedRows cell Z.ltb priceHeap 0%nat (Some (mkSort "price" asc))).
Proof.
  assert (Hdata : priceHeap !! 0%nat = Some priceRows) by reflexivity.
  split; [exact Hdata|].
  assert (Hasym : ∀ a b : Z, Z.ltb a b = true → Z.ltb b a = false) by lia.
  assert (Hbetween : ∀ a b c : Z,
            Z.ltb a c = true → Z.ltb a b = true ∨ Z.ltb b c = true) by lia.
  destruct (table_rows_sorted_copy cell Z.ltb
              priceHeap 0%nat priceRows Hdata) as (_ & _ & H & Hord).
  destruct (H (mkSort "price" asc)) as (Hperm & Hkept & _).
  split; [exact Hperm|]. split; [exact Hkept|].
  exact (proj1 (Hord Hasym Hbetween) (mkSort "price" asc)).
Defined.

End PriceTable.

(* ===================================================================== *)
(** ** The API client: storage, refresh and what a call may touch         *)
(* ===================================================================== *)

Section ClientLaws.
Import ApiClient AuthContext ApiClientLaws.

(** X1: with a window, the token pair written by setTokens is the pair read
    back, the client counts as authenticated exactly when the access token
    is not empty, clearTokens and logout remove both tokens (logout also
    sends the browser to /login), and no other entry of localStorage is
    changed by any of them.  Without a window nothing is stored or read. *)
Theorem token_storage_round_trip
    (w : Window) (log : list RequestConfig) (tokens : Tokens) :
  let st := mkState (Some w) log in
  (getAccessToken (setTokens st tokens) = Some (access tokens)
   ∧ getRefreshToken (setTokens st tokens) = Some (refresh tokens)
   ∧ isAuthenticated (setTokens st tokens) = negb (bool_decide (access tokens = "")))
  ∧ (getAccessToken (clearTokens (setTokens st tokens)) = None
     ∧ getRefreshToken (clearTokens (setTokens st tokens)) = None
     ∧ isAuthenticated (clearTokens st) = false)
  ∧ (∃ st', logout (setTokens st tokens) = Some st'
            ∧ isAuthenticated st' = false
            ∧ getRefreshToken st' = None
            ∧ (href <$> window st') = Some "/login")
  ∧ (∀ name, name ≠ "access_token" → name ≠ "refresh_token" →
       getItem (setTokens st tokens) name = getItem st name
       ∧ getItem (clearTokens st) name = getItem st name)
  ∧ (setTokens (mkState None log) tokens = mkState None log
     ∧ getAccessToken (mkState None log) = None
     ∧ logout (mkState None log) = None).
Proof.
  intros st. subst st. unfold isAuthenticated, getAccessToken, getRefreshToken,
    getItem, setTokens, clearTokens, logout, setHref. cbn.
  split; [|split; [|split; [|split]]].
  - by simplify_map_eq.
  - by simplify_map_eq.
  - eexists. split; [reflexivity|]. cbn. by simplify_map_eq.
  - intros name Ha Hr. by simplify_map_eq.
  - done.
Qed.

Lemma touchesOnlyTokens_refl st : touchesOnlyTokens st st.
Proof.
  split; [done|]. destruct (window st); [|done]. split; [by left | done].
Qed.

Lemma touchesOnlyTokens_trans a b c :
  touchesOnlyTokens a b → touchesOnlyTokens b c → touchesOnlyTokens a c.
Proof.
  intros [Hab Wab] [Hbc Wbc]. split; [by etrans|].
  destruct (window a) as [wa|], (window b) as [wb|], (window c) as [wc|];
    try done.
  destruct Wab as [Hh1 Hk1], Wbc as [Hh2 Hk2]. split.
  - destruct Hh2 as [-> | ->]; [done | by right].
  - intros name Ha Hr. rewrite Hk2, Hk1 by done. done.
Qed.

Lemma touchesOnlyTokens_sent st c :
  touchesOnlyTokens st (mkState (window st) (sent st ++ [c])).
Proof.
  split; [by apply prefix_app_r|]. cbn.
  destruct (window st); [|done]. split; [by left | done].
Qed.

Lemma touchesOnlyTokens_setTokens st tokens :
  touchesOnlyTokens st (setTokens st tokens).
Proof.
  split; [done|]. unfold setTokens. cbn.
  destruct (window st) as [w|]; [|done]. cbn. split; [by left|].
  intros name Ha Hr. by rewrite !lookup_insert_ne.
Qed.

Lemma touchesOnlyTokens_logged_out st :
  touchesOnlyTokens st (setHref (clearTokens st) "/login").
Proof.
  split; [done|]. unfold setHref, clearTokens. cbn.
  destruct (window st) as [w|]; [|done]. cbn. split; [by right|].
  intros name Ha Hr. by rewrite !lookup_delete_ne.
Qed.

Lemma interceptor_touches client st err st' res :
  (∀ s c s' r, client s c = Some (s', r) → touchesOnlyTokens s s') →
  responseErrorInterceptor client st err = Some (st', res) →
  touchesOnlyTokens st st'.
Proof.
  intros Hclient. unfold responseErrorInterceptor.
  destruct (statusIs err 401 && negb (_retry (ApiClient.config err)));
    [|intros [= <- _]; apply touchesOnlyTokens_refl].
  destruct (getRefreshToken st) as [t|];
    [|intros [= <- _]; apply touchesOnlyTokens_refl].
  destruct (truthy (Some t)); [|intros [= <- _]; apply touchesOnlyTokens_refl].
  destruct (client st (refreshRequest t)) as [[st1 [response|e]]|] eqn:Hrefresh;
    [| |done].
  - apply Hclient in Hrefresh.
    destruct (body response) as [tokens|text].
    + intros Hretry. apply Hclient in Hretry.
      eapply touchesOnlyTokens_trans; [exact Hrefresh|].
      eapply touchesOnlyTokens_trans; [apply touchesOnlyTokens_setTokens|done].
    + intros [= <- _].
      eapply touchesOnlyTokens_trans; [exact Hrefresh|].
      apply touchesOnlyTokens_logged_out.
  - apply Hclient in Hrefresh. intros [= <- _].
    eapply touchesOnlyTokens_trans; [exact Hrefresh|].
    apply touchesOnlyTokens_logged_out.
Qed.

(** The frame of a call, by induction on the nesting of requests. *)
Lemma request_frame (server : Server) (fuel : nat) :
  ∀ st config st' result,
    request server fuel st config = Some (st', result) →
    touchesOnlyTokens st st'.
Proof.
  induction fuel as [|fuel IH]; intros st config st' result; [done|].
  rewrite request_unfold. cbv zeta.
  assert (Hint : ∀ err,
    responseErrorInterceptor (request server fuel)
      (mkState (window st) (sent st ++ [requestInterceptor st config])) err
      = Some (st', result) → touchesOnlyTokens st st').
  { intros err H. eapply touchesOnlyTokens_trans;
      [apply touchesOnlyTokens_sent|].
    eapply interceptor_touches; [|exact H]. exact IH. }
  destruct (firstOutcome server st config) as [r|]; [|apply Hint].
  destruct (succeeded r); [|apply Hint].
  intros [= <- _]. apply touchesOnlyTokens_sent.
Qed.

(** X2: whatever the server answers and however the call settles, the
    client only appends to the log of sent requests, changes no entry of
    localStorage other than access_token and refresh_token, moves the
    location nowhere but to /login, and conjures no window; and the
    request itself is the first thing it appends. *)
Theorem request_touches_only_tokens (server : Server) (fuel : nat)
    (st : State) (config : RequestConfig) (st' : State) (result : Settled) :
  request server fuel st config = Some (st', result) →
  touchesOnlyTokens st st'
  ∧ (sent st ++ [requestInterceptor st config])%list `prefix_of` sent st'.
Proof.
  intros Hreq. split; [by eapply request_frame|].
  destruct fuel as [|fuel]; [done|].
  rewrite request_unfold in Hreq. cbv zeta in Hreq.
  assert (Hint : ∀ err,
    responseErrorInterceptor (request server fuel)
      (mkState (window st) (sent st ++ [requestInterceptor st config])) err
      = Some (st', result) →
    (sent st ++ [requestInterceptor st config])%list `prefix_of` sent st').
  { intros err H.
    apply (interceptor_touches _ _ _ _ _ (request_frame server fuel)) in H.
    exact (proj1 H). }
  destruct (firstOutcome server st config) as [r|]; [|by eapply Hint].
  destruct (succeeded r); [|by eapply Hint].
  by injection Hreq as <- _.
Qed.

Lemma sameRequest_refl c : sameRequest c c.
Proof. by repeat split. Qed.

Lemma sameRequest_trans a b c :
  sameRequest a b → sameRequest b c → sameRequest a c.
Proof.
  intros (? & ? & ?) (? & ? & ?). repeat split; congruence.
Qed.

Lemma sameRequest_interceptor st c : sameRequest c (requestInterceptor st c).
Proof.
  unfold requestInterceptor.
  destruct (getAccessToken st) as [t|]; [|apply sameRequest_refl].
  destruct (truthy (Some t)); [by repeat split | apply sameRequest_refl].
Qed.

Lemma settledAbout_same server c c' st res :
  sameRequest c c' → settledAbout server c' st res → settledAbout server c st res.
Proof.
  intros Hsame. destruct res as [r|e]; cbn.
  - intros (log & last & ? & ? & ?). exists log, last.
    split; [done|]. split; [by eapply sameRequest_trans | done].
  - by apply sameRequest_trans.
Qed.

Lemma interceptor_about server client st c1 resp st' res :
  (∀ s c s' r, client s c = Some (s', r) → settledAbout server c s' r) →
  responseErrorInterceptor client st (mkError c1 resp) = Some (st', res) →
  settledAbout server c1 st' res.
Proof.
  intros Hclient. unfold responseErrorInterceptor. cbn [ApiClient.config response].
  assert (Hmarked : sameRequest c1 (markRetry c1)) by (by repeat split).
  destruct (statusIs (mkError c1 resp) 401 && negb (_retry c1));
    [|intros [= _ <-]; apply sameRequest_refl].
  destruct (getRefreshToken st) as [t|]; [|intros [= _ <-]; exact Hmarked].
  destruct (truthy (Some t)); [|intros [= _ <-]; exact Hmarked].
  destruct (client st (refreshRequest t)) as [[st1 [response|e]]|]; [| |done].
  - destruct (body response) as [tokens|text].
    + intros Hretry. apply Hclient in Hretry.
      eapply settledAbout_same; [|exact Hretry]. by repeat split.
    + intros [= _ <-]. exact Hmarked.
  - intros [= _ <-]. exact Hmarked.
Qed.

(** X3: however a call settles, it settles about the caller's own request:
    a resolved call returns the server's successful reply to the last
    request sent, and that request has the method, url and body of the
    caller's; a rejected call carries an error whose request has them too.
    The reply or the failure of the token refresh is never handed to the
    caller. *)
Theorem settled_call_is_about_its_request (server : Server) (fuel : nat) :
  ∀ st config st' result,
    request server fuel st config = Some (st', result) →
    settledAbout server config st' result.
Proof.
  induction fuel as [|fuel IH]; intros st config st' result; [done|].
  rewrite request_unfold. cbv zeta.
  assert (Hint : ∀ resp,
    responseErrorInterceptor (request server fuel)
      (mkState (window st) (sent st ++ [requestInterceptor st config]))
      (mkError (requestInterceptor st config) resp) = Some (st', result) →
    settledAbout server config st' result).
  { intros resp H. eapply settledAbout_same; [apply sameRequest_interceptor|].
    eapply interceptor_about; [|exact H]. exact IH. }
  destruct (firstOutcome server st config) as [r|] eqn:Hfirst; [|apply Hint].
  destruct (succeeded r) eqn:Hok; [|apply Hint].
  intros [= <- <-]. cbn.
  exists (sent st), (requestInterceptor st config).
  split; [done|]. split; [apply sameRequest_interceptor|]. by split.
Qed.

Lemma unauthorized_not_succeeded r : status r = 401 → succeeded r = false.
Proof. unfold succeeded. by intros ->. Qed.

Lemma truthy_Some t : t ≠ "" → truthy (Some t) = true.
Proof. intros H. cbn. by rewrite bool_decide_eq_false_2. Qed.

(** The first steps of every recovery: the request is answered 401, it is
    marked, and the refresh request goes out. *)
Lemma unauthorized_starts_refresh server fuel w log cfg r1 t :
  let st := mkState (Some w) log in
  let c1 := requestInterceptor st cfg in
  let st1 := mkState (Some w) (log ++ [c1]) in
  _retry cfg = false →
  localStorage w !! "refresh_token" = Some t → t ≠ "" →
  server (length log) c1 = Replied r1 → status r1 = 401 →
  request server (S fuel) st cfg =
    match request server fuel st1 (refreshRequest t) with
    | None => None
    | Some (st2, Resolved response) =>
        match body response with
        | AuthBody tokens =>
            request server fuel (setTokens st2 tokens)
              (withAuthorization (markRetry c1) (bearer (access tokens)))
        | OtherBody _ =>
            Some (setHref (clearTokens st2) "/login",
                  Rejected (mkError (markRetry c1) (Some r1)))
        end
    | Some (st2, Rejected _) =>
        Some (setHref (clearTokens st2) "/login",
              Rejected (mkError (markRetry c1) (Some r1)))
    end.
Proof.
  intros st c1 st1 Hretry Htoken Hne Hfirst H401.
  rewrite request_unfold. cbv zeta. unfold firstOutcome.
  change (sent st) with log. change (window st) with (Some w). fold c1.
  rewrite Hfirst, (unauthorized_not_succeeded _ H401).
  unfold responseErrorInterceptor, statusIs. cbn [ApiClient.config response].
  rewrite H401.
  assert (Hc1 : _retry c1 = false)
    by (subst c1; by rewrite requestInterceptor_retry).
  rewrite Hc1.
  change (Z.eqb 401 401 && negb false) with true. cbv iota.
  change (getRefreshToken _) with (localStorage w !! "refresh_token").
  rewrite Htoken, (truthy_Some _ Hne). reflexivity.
Qed.

(** X4: a request answered 401 for the first time, while a non-empty
    refresh token is stored and the refresh request is answered with a new
    token pair, is sent again exactly once, bearing the new access token
    and the retry mark; the new pair is in localStorage; and the call
    settles with whatever the server answers to that second attempt, a
    further 401 included: three requests are on the wire, no more. *)
Theorem refresh_then_resend_once (server : Server) (fuel : nat)
    (w : Window) (log : list RequestConfig) (cfg : RequestConfig)
    (r1 r2 : Response) (t : string) (tokens : Tokens) :
  let st := mkState (Some w) log in
  let c1 := requestInterceptor st cfg in
  let c2 := requestInterceptor st (refreshRequest t) in
  let st2 := setTokens (mkState (Some w) (log ++ [c1; c2])) tokens in
  let c3 := requestInterceptor st2
              (withAuthorization (markRetry c1) (bearer (access tokens))) in
  _retry cfg = false →
  localStorage w !! "refresh_token" = Some t → t ≠ "" →
  server (length log) c1 = Replied r1 → status r1 = 401 →
  server (S (length log)) c2 = Replied r2 →
  succeeded r2 = true → body r2 = AuthBody tokens →
  request server (S (S fuel)) st cfg =
    Some (mkState (window st2) (log ++ [c1; c2; c3]),
          settleMarked c3 (server (S (S (length log))) c3))
  ∧ _retry c3 = true
  ∧ getAccessToken st2 = Some (access tokens)
  ∧ getRefreshToken st2 = Some (refresh tokens).
Proof.
  intros st c1 c2 st2 c3 Hretry Htoken Hne Hfirst H401 Hsecond Hok Hbody.
  split; [|split; [|split]].
  - subst st. rewrite (unauthorized_starts_refresh server (S fuel) w log cfg r1 t)
      by done.
    fold c1. rewrite request_unfold. cbv zeta. unfold firstOutcome.
    cbn [sent window].
    change (requestInterceptor _ (refreshRequest t)) with c2.
    replace (length (log ++ [c1])) with (S (length log))
      by (rewrite length_app; cbn; lia).
    rewrite Hsecond, Hok, Hbody.
    rewrite request_unfold. cbv zeta. unfold firstOutcome.
    replace ((log ++ [c1]) ++ [c2])%list with (log ++ [c1; c2])%list
      by (by rewrite <- app_assoc).
    fold st2. fold c3.
    replace (length (sent st2)) with (S (S (length log)))
      by (subst st2; cbn; rewrite length_app; cbn; lia).
    assert (Hsent : (sent st2 ++ [c3])%list = (log ++ [c1; c2; c3])%list).
    { subst st2. cbn. by rewrite <- app_assoc. }
    rewrite Hsent.
    assert (Hmarked : _retry c3 = true).
    { subst c3. by rewrite requestInterceptor_retry. }
    unfold settleMarked.
    destruct (server (S (S (length log))) c3) as [r3|]; [destruct (succeeded r3)|];
      try reflexivity;
      unfold responseErrorInterceptor, statusIs; cbn [ApiClient.config response];
      rewrite Hmarked, andb_false_r; reflexivity.
  - subst c3. by rewrite requestInterceptor_retry.
  - subst st2. unfold getAccessToken, getItem, setTokens. cbn. by simplify_map_eq.
  - subst st2. unfold getRefreshToken, getItem, setTokens. cbn. by simplify_map_eq.
Qed.

(** X5: a request answered 401 for the first time, while a non-empty
    refresh token is stored and the refresh request gets no answer, a
    failure other than 401, or a success without a token pair: both tokens
    are removed from localStorage, the browser is sent to /login, and the
    call is rejected with the 401 of the original request; two requests are
    on the wire. *)
Theorem refused_refresh_removes_tokens (server : Server) (fuel : nat)
    (w : Window) (log : list RequestConfig) (cfg : RequestConfig)
    (r1 : Response) (t : string) :
  let st := mkState (Some w) log in
  let c1 := requestInterceptor st cfg in
  let c2 := requestInterceptor st (refreshRequest t) in
  let after := setHref (clearTokens (mkState (Some w) (log ++ [c1; c2]))) "/login" in
  _retry cfg = false →
  localStorage w !! "refresh_token" = Some t → t ≠ "" →
  server (length log) c1 = Replied r1 → status r1 = 401 →
  refreshRefused (server (S (length log)) c2) = true →
  request server (S (S fuel)) st cfg =
    Some (after, Rejected (mkError (markRetry c1) (Some r1)))
  ∧ getAccessToken after = None
  ∧ getRefreshToken after = None
  ∧ (href <$> window after) = Some "/login".
Proof.
  intros st c1 c2 after Hretry Htoken Hne Hfirst H401 Hrefused.
  split; [|split; [|split]].
  - subst st. rewrite (unauthorized_starts_refresh server (S fuel) w log cfg r1 t)
      by done.
    fold c1. rewrite request_unfold. cbv zeta. unfold firstOutcome.
    cbn [sent window].
    change (requestInterceptor _ (refreshRequest t)) with c2.
    replace (length (log ++ [c1])) with (S (length log))
      by (rewrite length_app; cbn; lia).
    replace ((log ++ [c1]) ++ [c2])%list with (log ++ [c1; c2])%list
      by (by rewrite <- app_assoc).
    unfold refreshRefused in Hrefused.
    assert (Hfresh : _retry c2 = false).
    { subst c2. by rewrite requestInterceptor_retry. }
    destruct (server (S (length log)) c2) as [r2|].
    + destruct (succeeded r2).
      * destruct (body r2); [done | reflexivity].
      * unfold responseErrorInterceptor, statusIs.
        cbn [ApiClient.config response].
        apply negb_true_iff in Hrefused. rewrite Hrefused. reflexivity.
    + reflexivity.
  - subst after. unfold getAccessToken, getItem, setHref, clearTokens. cbn.
    by simplify_map_eq.
  - subst after. unfold getRefreshToken, getItem, setHref, clearTokens. cbn.
    by simplify_map_eq.
  - reflexivity.
Qed.

End ClientLaws.

Section ClientLawsSamples.
Import ApiClient AuthContext ApiClientLaws.

(** X2 on the renewing server. *)
Lemma renewed_call_touches_only_tokens :
  ∃ st' result,
    request renewingServer 3 signedIn getPublishedPrices = Some (st', result)
    ∧ touchesOnlyTokens signedIn st'.
Proof.
  eexists _, _. split; [vm_compute; reflexivity|].
  refine (proj1 (request_touches_only_tokens renewingServer 3 signedIn
                   getPublishedPrices _ _ _)).
  vm_compute; reflexivity.
Defined.

(** X3 on the renewing server. *)
Lemma renewed_call_is_about_its_request :
  ∃ st' result,
    request renewingServer 3 signedIn getPublishedPrices = Some (st', result)
    ∧ settledAbout renewingServer getPublishedPrices st' result.
Proof.
  eexists _, _. split; [vm_compute; reflexivity|].
  refine (settled_call_is_about_its_request renewingServer 3 signedIn
            getPublishedPrices _ _ _).
  vm_compute; reflexivity.
Defined.

(** X4 on the renewing server. *)
Lemma renewing_server_resends_once :
  _retry getPublishedPrices = false
  ∧ ∃ st' result,
      request renewingServer 2 signedIn getPublishedPrices = Some (st', result)
      ∧ length (sent st') = 3%nat.
Proof.
  split; [reflexivity|]. eexists _, _. split.
  - refine (proj1 (refresh_then_resend_once renewingServer 0
              (mkWindow {[ "access_token" := "a1"; "refresh_token" := "r1" ]}
                        "/dashboard/retailer")
              [] getPublishedPrices
              (mkResponse 401 (OtherBody "token expired")) (mkResponse 200 (AuthBody (mkTokens "a2" "r2")))
              "r1" (mkTokens "a2" "r2") _ _ _ _ _ _ _ _));
      first [reflexivity | discriminate].
  - vm_compute. reflexivity.
Defined.

(** X5 on a server that answers 401 once and 400 afterwards. *)
Lemma refusing_server_removes_tokens :
  refreshRefused (refusingAfter 1 1%nat (requestInterceptor signedIn (refreshRequest "r1"))) = true
  ∧ ∃ st' result,
      request (refusingAfter 1) 2 signedIn getPublishedPrices = Some (st', result)
      ∧ getRefreshToken st' = None.
Proof.
  split; [reflexivity|]. eexists _, _. split.
  - refine (proj1 (refused_refresh_removes_tokens (refusingAfter 1) 0
              (mkWindow {[ "access_token" := "a1"; "refresh_token" := "r1" ]}
                        "/dashboard/retailer")
              [] getPublishedPrices
              (mkResponse 401 (OtherBody "token not valid")) "r1" _ _ _ _ _ _));
      first [reflexivity | discriminate].
  - vm_compute. reflexivity.
Defined.

End ClientLawsSamples.

(* ===================================================================== *)
(** ** The auth context and the guarded pages                             *)
(* ===================================================================== *)

Section AuthFlow.
Import ApiClient AuthContext ApiClientLaws.

Context (asUser : Body → User).

Lemma isAuthenticated_window st :
  isAuthenticated st = true → ∃ w, window st = Some w.
Proof.
  unfold isAuthenticated, getAccessToken, getItem.
  destruct (window st) as [w|]; [eauto | done].
Qed.

(** X6: when the provider mounts without a usable access token in storage,
    initializeAuth sends no request and changes nothing around the client;
    it leaves the user null and ends the loading state, so that every
    guarded page then sends the visitor to /login and renders nothing. *)
Theorem visitor_without_token_goes_to_login
    (server : Server) (fuel : nat) (st : State) (allowed : list Role) :
  isAuthenticated st = false →
  initializeAuth asUser server fuel initialAuth st
    = Some (mkAuthState None false, st)
  ∧ (∀ auth' st', initializeAuth asUser server fuel initialAuth st = Some (auth', st') →
       ProtectedRoute.routerPush
         (ProtectedRoute.AuthProvider (user auth') (isLoading auth')) allowed
         = Some "/login"
       ∧ ProtectedRoute.render
           (ProtectedRoute.AuthProvider (user auth') (isLoading auth')) allowed
           = ProtectedRoute.Null).
Proof.
  intros Hno. unfold initializeAuth. rewrite Hno. split; [done|].
  intros auth' st' [= <- _]. done.
Qed.

(** X7: when the provider mounts with an access token and the profile
    request ends rejected, initializeAuth logs out: both tokens are removed,
    the browser is sent to /login, the user stays as it was (null at
    mount) and the loading state ends; no further request is sent. *)
Theorem rejected_profile_logs_out
    (server : Server) (fuel : nat) (auth : AuthState) (st st' : State)
    (e : AxiosError) :
  isAuthenticated st = true →
  request server fuel st getProfile = Some (st', Rejected e) →
  ∃ after,
    initializeAuth asUser server fuel auth st
      = Some (mkAuthState (user auth) false, after)
    ∧ getAccessToken after = None
    ∧ getRefreshToken after = None
    ∧ (href <$> window after) = Some "/login"
    ∧ sent after = sent st'.
Proof.
  intros Hauth Hreq. unfold initializeAuth. rewrite Hauth, Hreq.
  destruct (isAuthenticated_window _ Hauth) as [w Hw].
  pose proof (request_frame _ _ _ _ _ _ Hreq) as [_ Hwin].
  rewrite Hw in Hwin. destruct (window st') as [w'|] eqn:Hw'; [|done].
  exists (setHref (clearTokens st') "/login").
  unfold logout. rewrite Hw'. cbn. split; [done|].
  unfold getAccessToken, getRefreshToken, getItem, setHref, clearTokens.
  rewrite Hw'. cbn. by simplify_map_eq.
Qed.

(** A failure the interceptor does not recover from is rejected after one
    request. *)
Lemma unrecoverable_is_rejected server fuel st config :
  failed (firstOutcome server st config) = true →
  recoverable st config (firstOutcome server st config) = false →
  ∃ e,
    request server (S fuel) st config =
      Some (mkState (window st) (sent st ++ [requestInterceptor st config]),
            Rejected e).
Proof.
  intros Hfail Hrec. cbn [request]. fold (firstOutcome server st config).
  assert (Hretry : _retry (requestInterceptor st config) = _retry config).
  { unfold requestInterceptor.
    destruct (getAccessToken st) as [t|]; [|done].
    by destruct (truthy (Some t)). }
  destruct (firstOutcome server st config) as [r|] eqn:Hout; cbn in Hfail, Hrec.
  - apply negb_true_iff in Hfail. rewrite Hfail.
    unfold responseErrorInterceptor, statusIs. cbn [ApiClient.config response].
    rewrite Hretry.
    change (getRefreshToken _) with (getRefreshToken st).
    destruct (Z.eqb (status r) 401) eqn:H401; cbn [andb] in *; [|by eexists].
    destruct (_retry config) eqn:Hr; cbn [negb andb] in *; [by eexists|].
    destruct (getRefreshToken st) as [t|] eqn:Htok; [|by eexists].
    rewrite Hrec. by eexists.
  - unfold responseErrorInterceptor, statusIs. cbn. by eexists.
Qed.

(** A server that answers 401 to everything never lets a request settle
    while a non-empty refresh token is stored. *)
Lemma always_unauthorized_never_settles (server : Server) :
  (∀ n c, ∃ r, server n c = Replied r ∧ status r = 401) →
  ∀ fuel st config,
    truthy (getRefreshToken st) = true → _retry config = false →
    request server fuel st config = None.
Proof.
  intros Hserver. induction fuel as [|fuel IH]; intros st config Htok Hretry;
    [done|].
  cbn [request].
  destruct (Hserver (length (sent st)) (requestInterceptor st config))
    as (r & -> & H401).
  rewrite (unauthorized_not_succeeded r H401).
  unfold responseErrorInterceptor, statusIs. cbn [ApiClient.config response].
  rewrite H401. cbn [Z.eqb Pos.eqb].
  assert (Hkeep : _retry (requestInterceptor st config) = false).
  { unfold requestInterceptor.
    destruct (getAccessToken st) as [t|]; [|done].
    by destruct (truthy (Some t)). }
  rewrite Hkeep. cbn [negb andb].
  change (getRefreshToken _) with (getRefreshToken st).
  destruct (getRefreshToken st) as [t|] eqn:Ht; [|done].
  rewrite Htok. rewrite IH; [done| |done].
  change (getRefreshToken _) with (getRefreshToken st). by rewrite Ht.
Qed.

(** X8: login, by what the server answers to the login request (the first
    request of the call).  A success that carries a token pair: the pair
    is written to localStorage and the user is set; from then on the
    client counts as authenticated (for a non-empty access token) and
    every request goes out bearing that access token.  A success without
    a token pair, or a failure the interceptor does not recover from (any
    failure but a first 401 while a non-empty refresh token is stored):
    login throws after that one request, leaves the user as it was and
    stores nothing.  In these cases, and whenever else the call settles,
    the loading state is ended.  But the call need not settle: while a
    non-empty refresh token is stored and the server answers 401 to
    everything, login never returns and the loading state it set at its
    start stays on. *)
Theorem login_stores_the_token_pair
    (server : Server) (fuel : nat) (auth : AuthState) (st : State)
    (credentials : string) :
  let first := firstOutcome server st (loginRequest credentials) in
  let st1 :=
    mkState (window st)
      (sent st ++ [requestInterceptor st (loginRequest credentials)]) in
  (∀ r tokens,
     first = Replied r → succeeded r = true → body r = AuthBody tokens →
     is_Some (window st) →
     login asUser server (S fuel) auth st credentials
       = Some (mkAuthState (Some (asUser (body r))) false,
               setTokens st1 tokens, Returned)
     ∧ getAccessToken (setTokens st1 tokens) = Some (access tokens)
     ∧ getRefreshToken (setTokens st1 tokens) = Some (refresh tokens)
     ∧ (access tokens ≠ "" →
        isAuthenticated (setTokens st1 tokens) = true
        ∧ ∀ config,
            authorization (requestInterceptor (setTokens st1 tokens) config)
            = Some (bearer (access tokens))))
  ∧ (∀ r text,
       first = Replied r → succeeded r = true → body r = OtherBody text →
       login asUser server (S fuel) auth st credentials
         = Some (mkAuthState (user auth) false, st1, Threw))
  ∧ (failed first = true →
     recoverable st (loginRequest credentials) first = false →
     login asUser server (S fuel) auth st credentials
       = Some (mkAuthState (user auth) false, st1, Threw))
  ∧ (∀ auth' after ended,
       login asUser server fuel auth st credentials = Some (auth', after, ended) →
       isLoading auth' = false
       ∧ providerAfterLogin asUser server fuel auth st credentials = auth')
  ∧ ((∀ n c, ∃ r, server n c = Replied r ∧ status r = 401) →
     truthy (getRefreshToken st) = true →
     login asUser server fuel auth st credentials = None
     ∧ providerAfterLogin asUser server fuel auth st credentials
       = mkAuthState (user auth) true).
Proof.
  intros first st1. subst first st1.
  split; [|split; [|split; [|split]]].
  - intros r tokens Hfirst Hok Hbody [w Hw]. unfold login.
    cbn [request]. fold (firstOutcome server st (loginRequest credentials)).
    rewrite Hfirst, Hok, Hbody. cbn [window]. rewrite Hw.
    split; [done|].
    set (st1 := mkState _ _).
    assert (Ha : getAccessToken (setTokens st1 tokens) = Some (access tokens)).
    { unfold getAccessToken, getItem, setTokens. subst st1. cbn.
      by simplify_map_eq. }
    assert (Hr : getRefreshToken (setTokens st1 tokens) = Some (refresh tokens)).
    { unfold getRefreshToken, getItem, setTokens. subst st1. cbn.
      by simplify_map_eq. }
    split; [done|]. split; [done|].
    intros Hne. unfold isAuthenticated, requestInterceptor. rewrite Ha.
    rewrite (truthy_Some _ Hne). done.
  - intros r text Hfirst Hok Hbody. unfold login.
    cbn [request]. fold (firstOutcome server st (loginRequest credentials)).
    by rewrite Hfirst, Hok, Hbody.
  - intros Hfail Hrec. unfold login.
    destruct (unrecoverable_is_rejected server fuel st
                (loginRequest credentials) Hfail Hrec) as (e & ->).
    done.
  - intros auth' after ended Hlogin. unfold providerAfterLogin.
    rewrite Hlogin. split; [|done].
    unfold login in Hlogin.
    destruct (request server fuel st (loginRequest credentials))
      as [[st' [r|e]]|]; [| |done].
    + destruct (body r), (window st'); by injection Hlogin as <- _ _.
    + by injection Hlogin as <- _ _.
  - intros Hserver Htok. unfold providerAfterLogin, login.
    by rewrite (always_unauthorized_never_settles server Hserver fuel st
                  (loginRequest credentials) Htok eq_refl).
Qed.

End AuthFlow.

Section GuardedPages.
Import ProtectedRoute Pages.

(** X9: a redirect of the guard settles in one hop: the dashboard a user is
    sent to is a guarded page that renders its children for that user and
    redirects no further, while it turns away every user of another role
    (to their own dashboard) and every visitor without a user (to
    /login). *)
Theorem redirect_lands_on_an_admitting_page (u : User) :
  visit (Some u) (dashboardOf (role u)) = Some (None, Children)
  ∧ (∀ v, role v ≠ role u →
       visit (Some v) (dashboardOf (role u))
         = Some (Some (dashboardOf (role v)), Null))
  ∧ visit None (dashboardOf (role u)) = Some (Some "/login", Null).
Proof.
  destruct u as [i n e r v]. cbn [role].
  split; [|split].
  - by destruct r.
  - intros [i' n' e' r' v']. cbn [role]. by destruct r, r'.
  - by destruct r.
Qed.

End GuardedPages.

Section AuthFlowSamples.
Import ApiClient AuthContext.

(** X6 on a browser without tokens. *)
Lemma signed_out_visitor_goes_to_login :
  isAuthenticated signedOut = false
  ∧ initializeAuth asha unavailableServer 1 initialAuth signedOut
    = Some (mkAuthState None false, signedOut).
Proof.
  split; [reflexivity|].
  exact (proj1 (visitor_without_token_goes_to_login asha unavailableServer 1
                  signedOut [farmer] eq_refl)).
Defined.

(** X7 on the unavailable server. *)
Lemma unavailable_profile_logs_out :
  isAuthenticated signedIn = true
  ∧ ∃ after,
      initializeAuth asha unavailableServer 1 initialAuth signedIn
        = Some (mkAuthState None false, after)
      ∧ getAccessToken after = None.
Proof.
  split; [reflexivity|].
  destruct (rejected_profile_logs_out asha unavailableServer 1 initialAuth
              signedIn
              (mkState (window signedIn) [requestInterceptor signedIn getProfile])
              (mkError (requestInterceptor signedIn getProfile)
                       (Some (mkResponse 503 (OtherBody "maintenance"))))
              eq_refl eq_refl) as (after & Hinit & Haccess & _).
  exists after. split; [exact Hinit | exact Haccess].
Defined.

(** X8 on the login server, and on the server on which every token has
    expired. *)
Example login_on_login_server :
  login asha loginServer 1 initialAuth signedOut "asha:secret"
  = Some (mkAuthState (Some (asha (AuthBody (mkTokens "a1" "r1")))) false,
          mkState
            (Some (mkWindow {[ "access_token" := "a1"; "refresh_token" := "r1" ]}
                            "/dashboard/farmer"))
            [loginRequest "asha:secret"],
          Returned).
Proof. vm_compute. reflexivity. Qed.

Example login_with_expired_pair_stays_loading :
  providerAfterLogin asha unauthorizedServer 50 initialAuth signedIn "asha:secret"
  = mkAuthState None true.
Proof. vm_compute. reflexivity. Qed.

Example login_then_request_bears_token :
  (λ r, getAccessToken r.1.2) <$>
     login asha loginServer 1 initialAuth signedOut "asha:secret"
  = Some (Some "a1").
Proof. vm_compute. reflexivity. Qed.

End AuthFlowSamples.

(* ===================================================================== *)
(** ** Complaint sessions: modals and resolve requests                    *)
(* ===================================================================== *)

Section ComplaintSessionLaws.
Import ComplaintManagement ComplaintSessions.




(** A card used behind the open resolution modal opens the detail modal
    as well. *)
Example both_modals_open :
  feasible initialState cardsBehindModal = true
  ∧ layered initialState cardsBehindModal = false
  ∧ isDetailModalOpen (finalState initialState cardsBehindModal) = true
  ∧ isResolutionModalOpen (finalState initialState cardsBehindModal) = true.
Proof. vm_compute. repeat split. Qed.

(** Every step of a feasible session was possible where it was taken. *)
Lemma run_step_possible s : ∀ st0 st ev reqs,
  feasible st0 s = true →
  (st, ev, reqs) ∈ run st0 s →
  reqs = (step st ev).2 ∧ ∃ cs, possible cs st ev = true.
Proof.
  induction s as [|[cs e] rest IH]; intros st0 st ev reqs Hf Hin; cbn in *.
  - by apply elem_of_nil in Hin.
  - apply andb_true_iff in Hf as [Hp Hf].
    apply elem_of_cons in Hin as [[= -> -> ->] | Hin]; [eauto|].
    by eapply IH.
Qed.

(** X11: every resolve request sent in a session the page allows comes from
    the submit button of the resolution form, carries exactly what the form
    held when it was clicked, with an action and a report that are not
    empty, and is sent while no other resolve request is pending. *)
Theorem resolve_requests_are_complete (s : Session) :
  feasible initialState s = true →
  ∀ st ev reqs complaintId data,
    (st, ev, reqs) ∈ run initialState s →
    ResolveComplaint complaintId data ∈ reqs →
    ev = Click ResolutionSubmit
    ∧ data = resolutionData st
    ∧ resolution_action data ≠ ""
    ∧ resolution_report data ≠ ""
    ∧ resolvePending st = false
    ∧ (id <$> selectedComplaint st) = Some complaintId.
Proof.
  intros Hf st ev reqs i d Hin Hreq.
  destruct (run_step_possible s _ _ _ _ Hf Hin) as [-> [cs Hp]].
  destruct ev as [ctl| d' | |]; cbn in Hreq, Hp;
    try (by apply elem_of_nil in Hreq).
  apply bool_decide_eq_true in Hp. apply offered_cases in Hp.
  destruct Hp as [(Hres & [-> | (-> & Ha & Hr & Hpend)])
                 | [(Hdet & c & Hc & [-> | [-> | ->]])
                   | (c & [-> | [-> | ->]])]];
    cbn in Hreq; rewrite ?Hc in Hreq; cbn in Hreq;
    try (by apply elem_of_nil in Hreq);
    try (by apply list_elem_of_singleton in Hreq).
  unfold handleResolveComplaint in Hreq.
  destruct (selectedComplaint st) as [c|]; [|by apply elem_of_nil in Hreq].
  apply list_elem_of_singleton in Hreq as [= -> ->].
  apply bool_decide_eq_false in Ha, Hr. done.
Qed.

Lemma resolvesSent_cons st cs ev rest :
  resolvesSent st ((cs, ev) :: rest) =
    (length (List.filter isResolve (step st ev).2)
     + resolvesSent (step st ev).1 rest)%nat.
Proof.
  unfold resolvesSent. cbn [run flat_map snd].
  by rewrite List.filter_app, length_app.
Qed.

(** X12: resolve requests are never doubled: in every session the page
    allows, the number of resolve requests sent is the number that came
    back (with success or failure) plus the one still pending, if any.
    Between two resolve requests the first has always settled. *)
Theorem one_resolve_request_at_a_time (s : Session) :
  feasible initialState s = true →
  resolvesSent initialState s =
    (settlements s + pendingCount (finalState initialState s))%nat.
Proof.
  assert (Hgen : ∀ st, feasible st s = true →
    (resolvesSent st s + pendingCount st)%nat
    = (settlements s + pendingCount (finalState st s))%nat).
  { induction s as [|[cs ev] rest IH]; intros st Hf; [done|].
    cbn in Hf. apply andb_true_iff in Hf as [Hp Hf].
    rewrite resolvesSent_cons. cbn [finalState].
    specialize (IH _ Hf). unfold settlements in *. cbn [List.filter snd].
    destruct ev as [ctl| d | |]; cbn in Hp; cbn [isSettlement length].
    - apply bool_decide_eq_true in Hp. apply offered_cases in Hp.
      destruct Hp as [(Hres & [-> | (-> & Ha & Hr & Hpend)])
                     | [(Hdet & c & Hc & [-> | [-> | ->]])
                       | (c & [-> | [-> | ->]])]];
        cbn in IH |- *; rewrite ?Hc in *; cbn in IH |- *;
        try (unfold pendingCount in *; cbn in *; lia).
      unfold handleResolveComplaint, pendingCount in *.
      destruct (selectedComplaint st); cbn in *; rewrite Hpend; lia.
    - cbn in IH |- *. unfold pendingCount in *. cbn in *. lia.
    - cbn in IH |- *. unfold pendingCount in *. cbn in *. rewrite Hp. lia.
    - cbn in IH |- *. unfold pendingCount in *. cbn in *. rewrite Hp. lia. }
  intros Hf. specialize (Hgen initialState Hf).
  unfold pendingCount in Hgen at 1. cbn in Hgen. lia.
Qed.


Lemma sample_session_resolve_complete :
  feasible initialState sampleSession = true
  ∧ ∀ st ev reqs complaintId data,
      (st, ev, reqs) ∈ run initialState sampleSession →
      ResolveComplaint complaintId data ∈ reqs →
      resolution_action data ≠ "".
Proof.
  split; [vm_compute; reflexivity|].
  intros st ev reqs i d Hin Hreq.
  exact (proj1 (proj2 (proj2
    (resolve_requests_are_complete sampleSession eq_refl st ev reqs i d Hin Hreq)))).
Defined.

Lemma sample_session_one_resolve :
  feasible initialState sampleSession = true
  ∧ resolvesSent initialState sampleSession = 1%nat.
Proof.
  split; [vm_compute; reflexivity|].
  rewrite (one_resolve_request_at_a_time sampleSession); vm_compute; reflexivity.
Defined.

End ComplaintSessionLaws.

(* ===================================================================== *)
(** ** Price management: lookups and the edit cycle                       *)
(* ===================================================================== *)

Section PriceLaws.
Import Js PriceManagement PriceHandlers.

Lemma isDistrictSpecific_true skuId d ref :
  isDistrictSpecific skuId d ref = true ↔
    sku_id (rp_sku ref) = skuId ∧ scopeOf ref = Some d.
Proof.
  unfold isDistrictSpecific, districtIs, scopeOf.
  rewrite andb_true_iff, Z.eqb_eq.
  destruct (rp_district ref) as [| |dist]; [naive_solver..|].
  rewrite Z.eqb_eq. naive_solver.
Qed.

Lemma isGlobal_true skuId ref :
  isGlobal skuId ref = true ↔ sku_id (rp_sku ref) = skuId ∧ rp_district ref = Null.
Proof.
  unfold isGlobal, isNull. rewrite andb_true_iff, Z.eqb_eq.
  destruct (rp_district ref); naive_solver.
Qed.

(** X13: whatever getReferencePrice returns is one of the loaded reference
    prices, is for the SKU asked, and is either scoped to the district
    asked (a non-zero one) or global (district null): never the price of
    another product or of another district. *)
Theorem reference_price_found_is_for_the_sku
    (results : option (list ReferencePrice)) (skuId : Z) (districtId : option Z)
    (ref : ReferencePrice) :
  getReferencePrice results skuId districtId = Val ref →
  ∃ refs, results = Some refs ∧ ref ∈ refs
    ∧ sku_id (rp_sku ref) = skuId
    ∧ (rp_district ref = Null
       ∨ (∃ d, districtId = Some d ∧ d ≠ 0 ∧ scopeOf ref = Some d)).
Proof.
  destruct results as [refs|]; [|done]. intros Hget. exists refs.
  split; [done|].
  assert (Hglobal : arrayFind (isGlobal skuId) refs = Val ref →
    ref ∈ refs ∧ sku_id (rp_sku ref) = skuId
    ∧ (rp_district ref = Null
       ∨ (∃ d, districtId = Some d ∧ d ≠ 0 ∧ scopeOf ref = Some d))).
  { intros [Hin Hg]%arrayFind_Val. apply isGlobal_true in Hg as [? ?]. auto. }
  unfold getReferencePrice in Hget.
  destruct districtId as [d|]; [|by apply Hglobal].
  destruct (truthyNumber d) eqn:Ht; [|by apply Hglobal].
  destruct (arrayFind (isDistrictSpecific skuId d) refs) as [| |found] eqn:Hd;
    [by apply Hglobal..|].
  injection Hget as <-. apply arrayFind_Val in Hd as [Hin Hs].
  apply isDistrictSpecific_true in Hs as [? ?].
  split; [done|]. split; [done|]. right. exists d.
  split; [done|]. split; [|done].
  unfold truthyNumber in Ht. apply negb_true_iff, Z.eqb_neq in Ht. done.
Qed.

Lemma arrayFind_app_first {A} (p : A → bool) (before after : list A) (a : A) :
  (∀ b, b ∈ before → p b = false) → p a = true →
  arrayFind p (before ++ a :: after)%list = Val a.
Proof.
  intros Hbefore Ha. unfold arrayFind.
  induction before as [|b before IH]; cbn.
  - by rewrite Ha.
  - rewrite (Hbefore b) by (by left).
    apply IH. intros x Hx. apply Hbefore. by right.
Qed.

(** X14: the earliest match wins, and a district price beats a global one
    wherever it stands: for a non-zero district id, the first reference
    price of the list for that SKU and district is returned, even when
    global prices of the SKU stand before it; without a usable district id,
    or without any price for the district, the first global price of the
    SKU is returned. *)
Theorem earliest_reference_price_wins
    (before after : list ReferencePrice) (ref : ReferencePrice)
    (skuId : Z) (districtId : option Z) :
  sku_id (rp_sku ref) = skuId →
  (∀ d, d ≠ 0 → scopeOf ref = Some d → districtId = Some d →
     (∀ b, b ∈ before → isDistrictSpecific skuId d b = false) →
     getReferencePrice (Some (before ++ ref :: after)%list) skuId districtId = Val ref)
  ∧ (rp_district ref = Null →
     (∀ b, b ∈ before → isGlobal skuId b = false) →
     (∀ d x, givenDistrict districtId = Some d → x ∈ (before ++ ref :: after)%list →
             isDistrictSpecific skuId d x = false) →
     getReferencePrice (Some (before ++ ref :: after)%list) skuId districtId = Val ref).
Proof.
  intros Hsku. split.
  - intros d Hd Hscope -> Hbefore.
    rewrite (lookup_with_district _ _ _ d).
    + rewrite (arrayFind_app_first _ before after ref Hbefore); [done|].
      by apply isDistrictSpecific_true.
    + unfold givenDistrict, truthyNumber.
      by rewrite (proj2 (Z.eqb_neq d 0) Hd).
  - intros Hnull Hbefore Hnone.
    assert (Hg : arrayFind (isGlobal skuId) (before ++ ref :: after)%list = Val ref).
    { apply arrayFind_app_first; [done|]. by apply isGlobal_true. }
    destruct (givenDistrict districtId) as [d|] eqn:Hgiven.
    + rewrite (lookup_with_district _ _ _ d Hgiven).
      assert (Hu : arrayFind (isDistrictSpecific skuId d) (before ++ ref :: after)%list
                   = Undefined).
      { apply arrayFind_Undefined. intros x Hx. by eapply Hnone. }
      by rewrite Hu.
    + by rewrite (lookup_without_district _ _ _ Hgiven).
Qed.

(** X15: the mark on a product of the select and the recovery from the
    overlap error agree: a product is marked as having an active price
    exactly when, for a failed request on that product, the handler finds a
    loaded price to switch the form to. *)
Theorem active_price_mark_matches_recovery
    (publishedPrices : option (list PublishedPrice)) (sku : SKU)
    (district : option (Number Z)) (price : Number Q) :
  hasActivePrice publishedPrices sku = true ↔
    ∃ existing,
      findExisting (Some (mkData (Num (sku_id sku)) district price)) publishedPrices
        = Val existing.
Proof.
  unfold hasActivePrice, findExisting.
  destruct publishedPrices as [results|]; [|split; [done | by intros [? ?]]].
  rewrite existsb_exists. split.
  - intros (x & Hin & Hx).
    destruct (arrayFind_cases (sameSku (mkData (Num (sku_id sku)) district price))
                results) as [[a Ha] | Hu]; [eauto|].
    rewrite arrayFind_Undefined in Hu. apply list_elem_of_In in Hin.
    apply Hu in Hin. unfold sameSku in Hin. cbn in Hin. congruence.
  - intros [existing [Hin Hsame]%arrayFind_Val]. exists existing.
    split; [by apply list_elem_of_In | done].
Qed.

(** X16: opening a price for editing and submitting the form as it stands
    sends one update request, for that very price and with its own values
    (its district is sent unless its id is 0), and never a create request;
    a price below 0.01 is stopped by validation instead.  The same holds
    when the form was switched to the price by the overlap handler. *)
Theorem edit_then_submit_updates_that_price (st : State) (price : PublishedPrice) :
  (Qltb (pp_price price) (1 # 100) = false →
   handleSubmit (handleEdit st price) =
     Some (handleEdit st price,
           [UpdatePublishedPrice (pp_id price)
              (mkData (Num (sku_id (pp_sku price)))
                 (if Z.eqb (district_id (pp_district price)) 0 then None
                  else Some (Num (district_id (pp_district price))))
                 (Num (pp_price price)))]))
  ∧ (Qltb (pp_price price) (1 # 100) = true →
     ∃ st', handleSubmit (handleEdit st price) = Some (st', [])
            ∧ err_price (errors st') = Some "Price must be greater than 0")
  ∧ (∀ ms, runTimers st [SetTimeoutEdit ms price] = handleEdit st price).
Proof.
  split; [|split; [|done]].
  - intros Hok. unfold handleSubmit, validate, validatePrice, handleEdit.
    cbn. rewrite Hok. cbn.
    by destruct (Z.eqb (district_id (pp_district price)) 0).
  - intros Hlow. unfold handleSubmit, validate, validatePrice, handleEdit.
    cbn. rewrite Hlow. cbn. eauto.
Qed.

(** X17: after an update succeeds the modal is left open, the form keeps
    its values and the form is back in create mode (the title reads Publish
    New Price): submitting once more sends a create request with the very
    data just used for the update. *)
Theorem resubmit_after_update_creates
    (st st1 : State) (priceId : Z) (data : PriceFormData) :
  handleSubmit st = Some (st1, [UpdatePublishedPrice priceId data]) →
  let st2 := (updateSucceeded st1).1 in
  isCreateModalOpen st2 = isCreateModalOpen st
  ∧ form st2 = form st
  ∧ modalTitle st2 = "Publish New Price"
  ∧ ∃ st3, handleSubmit st2 = Some (st3, [CreatePublishedPrice data]).
Proof.
  intros Hsub. unfold handleSubmit in Hsub.
  destruct (err_sku_id (validate (form st))) eqn:Hs; [done|].
  destruct (err_price (validate (form st))) eqn:Hp; [done|].
  unfold onSubmit in Hsub. cbn [editingPrice form] in Hsub.
  destruct (parseIntOfToString (f_sku_id (form st))) as [sku|] eqn:Hsku; [|done].
  destruct (parseFloatOfToString (f_price (form st))) as [price|] eqn:Hprice;
    [|done].
  destruct (editingPrice st) as [editing|] eqn:He; [|done].
  injection Hsub as Hst1 Hid Hdata. subst st1 data. cbn.
  split; [done|]. split; [done|]. split; [done|].
  unfold handleSubmit. cbn [form]. rewrite Hs, Hp.
  unfold onSubmit. cbn [editingPrice form]. rewrite Hsku, Hprice. eauto.
Qed.

Lemma defaults_follow_the_last_edit events : ∀ page last,
  defaultValues page = default blankForm (valuesOf <$> last) →
  defaultValues (fold_left formStep events page)
  = default blankForm
      (valuesOf <$>
         fold_left (λ last e, match e with EditPrice price => Some price
                                         | _ => last end) events last).
Proof.
  induction events as [|e events IH]; intros page last Hpage; [done|].
  cbn [fold_left]. apply IH. destruct e; cbn; done.
Qed.

(** X18: closing the modal, after whatever happened to the form since the
    mount, leaves it closed, in create mode, with no message and no field
    error, and puts the default values back into the fields: these are
    blank as long as no price was opened for editing, and the values of
    the price last opened for editing from then on.  So a submit right
    after a close sends nothing before the first edit (no product, no
    price), but after an edit it sends a create request with the values of
    the price that was being edited, if its price is at least 0.01; and
    whatever the form holds, a submit in that state never updates. *)
Theorem close_modal_returns_to_create_mode (events : list FormEvent) :
  let closed := handleCloseModal (pageAfter events) in
  isCreateModalOpen (view closed) = false
  ∧ editingPrice (view closed) = None
  ∧ error (view closed) = ""
  ∧ errors (view closed) = noErrors
  ∧ modalTitle (openModal (view closed)) = "Publish New Price"
  ∧ form (view closed)
    = match lastEdited events with
      | Some price => valuesOf price
      | None => blankForm
      end
  ∧ (lastEdited events = None →
     handleSubmit (openModal (view closed)) =
       Some (mkState true None "" blankForm
               (mkErrors (Some "Please select a product")
                         (Some "Price is required")),
             []))
  ∧ (∀ price,
       lastEdited events = Some price →
       Qltb (pp_price price) (1 # 100) = false →
       handleSubmit (openModal (view closed)) =
         Some (mkState true None "" (valuesOf price) noErrors,
               [CreatePublishedPrice
                  (mkData (Num (sku_id (pp_sku price)))
                     (if Z.eqb (district_id (pp_district price)) 0 then None
                      else Some (Num (district_id (pp_district price))))
                     (Num (pp_price price)))]))
  ∧ (∀ values st' effects,
       handleSubmit (mkState true None "" values noErrors) = Some (st', effects) →
       ∀ e, e ∈ effects → ∃ data, e = CreatePublishedPrice data).
Proof.
  intros closed.
  assert (Hform : form (view closed)
                  = default blankForm (valuesOf <$> lastEdited events)).
  { subst closed. cbn [handleCloseModal view form]. unfold pageAfter, lastEdited.
    by apply defaults_follow_the_last_edit. }
  assert (Hview : view closed
                  = mkState false None "" (form (view closed)) noErrors)
    by done.
  do 5 (split; [done|]).
  split; [rewrite Hform; by destruct (lastEdited events)|].
  split; [|split].
  - intros Hnone. rewrite Hview, Hform, Hnone. reflexivity.
  - intros price Hlast Hok. rewrite Hview, Hform, Hlast.
    unfold openModal, handleSubmit, validate, validatePrice, valuesOf.
    cbn. rewrite Hok. cbn.
    by destruct (Z.eqb (district_id (pp_district price)) 0).
  - intros values st' effects. unfold handleSubmit. cbn [form].
    destruct (err_sku_id (validate values)), (err_price (validate values));
      try (intros [= <- <-] e He; by apply elem_of_nil in He).
    unfold onSubmit. cbn [editingPrice].
    destruct (parseIntOfToString (f_sku_id values)); [|done].
    destruct (parseFloatOfToString (f_price values)); [|done].
    intros [= <- <-] e He. apply list_elem_of_singleton in He. eauto.
Qed.

(** Opened for editing and cancelled: the form keeps the values of the
    price, and the next submit creates a price from them. *)
Example cancelled_edit_then_submit_creates :
  handleSubmit
    (openModal (view (pageAfter [EditPrice loadedUrea; CloseForm; OpenForm])))
  = Some (mkState true None "" (valuesOf loadedUrea) noErrors,
          [CreatePublishedPrice (mkData (Num 1) (Some (Num 7)) (Num (280 # 1)))]).
Proof. vm_compute. reflexivity. Qed.

(** X19: the error handler of the create request, in every branch and for
    every error, sends nothing to the server and changes nothing of the
    page state but the message; and it schedules the switch to edit mode
    only for a server error list that contains the overlap message. *)
Theorem create_error_only_sets_the_message
    (getErrorMessage : AxiosError → string) (st : State) (err : AxiosError)
    (variables : option PriceFormData)
    (publishedPrices : option (list PublishedPrice)) :
  let result := onError getErrorMessage st err variables publishedPrices in
  Forall (λ e, writesPrice e = false) result.2
  ∧ result.1 = setError st (error result.1)
  ∧ (result.2 ≠ [] →
     ∃ messages existing,
       response_data err = Some (ErrArray messages)
       ∧ overlapError ∈ messages
       ∧ result.2 = [SetTimeoutEdit 1000 existing]
       ∧ findExisting variables publishedPrices = Val existing).
Proof.
  cbv zeta. unfold onError.
  destruct (response_data err) as [[messages|fields|text]|]; cbn;
    try (split; [constructor|]; split; [done|]; done).
  - destruct (bool_decide (overlapError ∈ messages)) eqn:Hin; cbn;
      [|split; [constructor|]; split; [done|]; done].
    apply bool_decide_eq_true in Hin.
    destruct (findExisting variables publishedPrices) as [| |existing] eqn:Hf;
      cbn; try (split; [constructor|]; split; [done|]; done).
    split; [by repeat constructor|]. split; [done|]. intros _. eauto 6.
  - destruct (negb (bool_decide (text = ""))); cbn;
      (split; [constructor|]; split; [done|]; done).
Qed.

End PriceLaws.

Section PriceLawsSamples.
Import Js PriceManagement PriceHandlers.

(** X13 on the global urea price. *)
Lemma global_urea_found_is_for_urea :
  getReferencePrice (Some [globalUrea; districtZeroUrea]) 1 None = Val globalUrea
  ∧ sku_id (rp_sku globalUrea) = 1.
Proof.
  assert (H : getReferencePrice (Some [globalUrea; districtZeroUrea]) 1 None
              = Val globalUrea) by reflexivity.
  split; [exact H|].
  destruct (reference_price_found_is_for_the_sku _ _ _ _ H)
    as (refs & _ & _ & Hsku & _).
  exact Hsku.
Defined.

(** X14 on the global urea price standing first. *)
Lemma global_urea_wins_without_district :
  sku_id (rp_sku globalUrea) = 1
  ∧ getReferencePrice (Some ([] ++ globalUrea :: [districtZeroUrea])%list) 1 None
    = Val globalUrea.
Proof.
  split; [reflexivity|].
  refine (proj2 (earliest_reference_price_wins [] [districtZeroUrea] globalUrea
                   1 None eq_refl) eq_refl _ _).
  - intros b Hb. by apply elem_of_nil in Hb.
  - intros d x Hd. discriminate Hd.
Defined.

(** X17 on the loaded urea price, opened for editing. *)
Lemma resubmit_after_urea_update_creates :
  ∃ data st3,
    handleSubmit (handleEdit initialState loadedUrea)
      = Some (handleEdit initialState loadedUrea,
              [UpdatePublishedPrice 5 data])
    ∧ handleSubmit (updateSucceeded (handleEdit initialState loadedUrea)).1
      = Some (st3, [CreatePublishedPrice data]).
Proof.
  eexists _. 
  assert (H : handleSubmit (handleEdit initialState loadedUrea)
              = Some (handleEdit initialState loadedUrea,
                      [UpdatePublishedPrice 5
                         (mkData (Num 1) (Some (Num 7)) (Num (280 # 1)))]))
    by reflexivity.
  destruct (resubmit_after_update_creates _ _ _ _ H) as (_ & _ & _ & st3 & H3).
  exists st3. split; [exact H | exact H3].
Defined.

End PriceLawsSamples.

(* ===================================================================== *)
(** ** The compliance bar; ties and icons of the data table               *)
(* ===================================================================== *)

Section ComplianceBar.
Import PriceManagement CompliancePage.

Lemma rate_at_least (k : Z) ps :
  (0 < totalPrices ps)%nat →
  Qle_bool (inject_Z k) (complianceRate ps) = true ↔
    (k * Z.of_nat (totalPrices ps) ≤ 100 * Z.of_nat (compliantPrices ps))%Z.
Proof.
  intros Hpos. rewrite Qle_bool_iff. unfold complianceRate.
  rewrite (proj2 (Nat.ltb_lt _ _) Hpos).
  set (c := inject_Z (Z.of_nat (compliantPrices ps))).
  set (t := inject_Z (Z.of_nat (totalPrices ps))).
  assert (Ht : (0 < t)%Q).
  { subst t. change 0%Q with (inject_Z 0). rewrite <- Zlt_Qlt. lia. }
  assert (Hx : (c / t * 100 * t == c * 100)%Q).
  { field. intros H0. rewrite H0 in Ht. by apply Qlt_irrefl in Ht. }
  rewrite <- (Qmult_le_r _ _ t Ht), Hx.
  subst c t. change (100 : Q) with (inject_Z 100).
  rewrite <- !inject_Z_mult, <- Zle_Qle. lia.
Qed.

(** X20: the colour of the compliance bar, in counts: it is green exactly
    when there is a price and at least four in five are compliant, yellow
    exactly when fewer than four but at least three in five are, and red
    otherwise, an empty list included. *)
Theorem compliance_bar_thresholds (ps : list PublishedPrice) :
  let c := compliantPrices ps in
  let t := totalPrices ps in
  (rateBarClass ps = "bg-green-600" ↔ (0 < t ∧ 4 * t ≤ 5 * c)%nat)
  ∧ (rateBarClass ps = "bg-yellow-600" ↔
       (0 < t ∧ 5 * c < 4 * t ∧ 3 * t ≤ 5 * c)%nat)
  ∧ (rateBarClass ps = "bg-red-600" ↔ (t = 0 ∨ 5 * c < 3 * t)%nat).
Proof.
  intros c t. unfold rateBarClass.
  destruct (Nat.eq_dec t 0%nat) as [H0|Hpos].
  - assert (Hrate : complianceRate ps = 0%Q).
    { unfold complianceRate. fold t. by rewrite H0. }
    rewrite Hrate. cbn. repeat split; try done; try lia.
  - assert (Ht : (0 < totalPrices ps)%nat) by (fold t; lia).
    pose proof (rate_at_least 80 ps Ht) as H80.
    pose proof (rate_at_least 60 ps Ht) as H60.
    change (inject_Z 80) with (80 : Q) in H80.
    change (inject_Z 60) with (60 : Q) in H60.
    fold c t in H80, H60.
    destruct (Qle_bool 80 (complianceRate ps)) eqn:E80.
    + assert (G80 : (80 * Z.of_nat t ≤ 100 * Z.of_nat c)%Z) by (by apply H80).
      repeat split; try done; try lia.
    + assert (G80 : ¬ (80 * Z.of_nat t ≤ 100 * Z.of_nat c)%Z)
        by (intros G; apply H80 in G; done).
      destruct (Qle_bool 60 (complianceRate ps)) eqn:E60.
      * assert (G60 : (60 * Z.of_nat t ≤ 100 * Z.of_nat c)%Z)
          by (by apply H60).
        repeat split; try done; try lia.
      * assert (G60 : ¬ (60 * Z.of_nat t ≤ 100 * Z.of_nat c)%Z)
          by (intros G; apply H60 in G; done).
        repeat split; try done; try lia.
Qed.

End ComplianceBar.

Section StableRows.
Import DataTable DataTableView.

Context {T V : Type} (get : T → string → V) (lt : V → V → bool).
Hypothesis lt_asymmetric : ∀ a b, lt a b = true → lt b a = false.
Hypothesis lt_between : ∀ a b c, lt a c = true → lt a b = true ∨ lt b c = true.

Lemma tied_trans c x y z :
  tied get lt c x y = true → tied get lt c x z = true → tied get lt c y z = true.
Proof.
  unfold tied. rewrite !andb_true_iff, !negb_true_iff.
  intros [Hxy Hyx] [Hxz Hzx]. split.
  - destruct (lt (get y (key c)) (get z (key c))) eqn:H; [|done].
    destruct (lt_between _ (get x (key c)) _ H); congruence.
  - destruct (lt (get z (key c)) (get y (key c))) eqn:H; [|done].
    destruct (lt_between _ (get x (key c)) _ H); congruence.
Qed.

(** An element the comparator moves [y] past is not tied with [y]. *)
Lemma moved_past_not_tied c y z :
  Z.leb (comparator get lt c y z) 0 = false → tied get lt c y z = false.
Proof.
  unfold comparator, tied.
  destruct (lt (get y (key c)) (get z (key c))); [done|].
  destruct (lt (get z (key c)) (get y (key c))); [done|].
  intros H. discriminate H.
Qed.

Lemma filter_tied_insert c x y l :
  List.filter (tied get lt c x) (insert (comparator get lt c) y l)
  = List.filter (tied get lt c x) (y :: l).
Proof.
  induction l as [|z l IH]; [done|]. cbn [insert].
  destruct (Z.leb (comparator get lt c y z) 0) eqn:Hcmp; [done|].
  cbn [List.filter]. rewrite IH. cbn [List.filter].
  destruct (tied get lt c x y) eqn:Hy, (tied get lt c x z) eqn:Hz; try done.
  pose proof (tied_trans c x y z Hy Hz) as Hyz.
  by rewrite (moved_past_not_tied c y z Hcmp) in Hyz.
Qed.

Lemma filter_tied_sort c x l :
  List.filter (tied get lt c x) (sort (comparator get lt c) l)
  = List.filter (tied get lt c x) l.
Proof.
  induction l as [|y l IH]; [done|].
  cbn [sort foldr]. fold (sort (comparator get lt c) l).
  rewrite filter_tied_insert. cbn [List.filter]. by rewrite IH.
Qed.

(** X21: sorting is stable in both directions: the rows tied with any given
    row in the sort column are rendered in the order they have in the data
    array.  (For cell values on which [<] is negatively transitive, as it
    is on numbers other than NaN and on strings.) *)
Theorem tied_rows_keep_their_order
    (heap : gmap nat (list T)) (data : Ref) (rows : list T)
    (c : SortConfig) (x : T) :
  heap !! data = Some rows →
  List.filter (tied get lt c x) (renderedRows get lt heap data (Some c))
  = List.filter (tied get lt c x) rows.
Proof.
  intros Hdata. unfold renderedRows.
  destruct (sortedData_Some get lt heap data rows c Hdata) as [-> _].
  rewrite lookup_insert_eq. cbn. apply filter_tied_sort.
Qed.

(** X22: the header icons follow the clicks and the rows follow the icons:
    after a click on a column that column alone shows a full chevron, every
    other column the dimmed one; the chevron points down exactly when the
    column was already sorted ascending, and up otherwise; when it points
    up the rows are rendered in ascending order of the column, when it
    points down in descending order. *)
Theorem icons_match_the_order
    (heap : gmap nat (list T)) (data : Ref) (rows : list T)
    (sortConfig : option SortConfig) (k : string) :
  heap !! data = Some rows →
  let clicked := handleSort sortConfig k in
  (∀ k', k' ≠ k → getSortIcon clicked k' = DimmedUp)
  ∧ getSortIcon clicked k ≠ DimmedUp
  ∧ (getSortIcon clicked k = ChevronDown ↔ sortConfig = Some (mkSort k asc))
  ∧ (getSortIcon clicked k = ChevronUp →
     StronglySorted (λ a b, lt (get b k) (get a k) = false)
       (renderedRows get lt heap data clicked))
  ∧ (getSortIcon clicked k = ChevronDown →
     StronglySorted (λ a b, lt (get a k) (get b k) = false)
       (renderedRows get lt heap data clicked)).
Proof.
  intros Hdata clicked.
  assert (Hrows : ∀ c,
    renderedRows get lt heap data (Some c) = sort (comparator get lt c) rows).
  { intros c. unfold renderedRows.
    destruct (sortedData_Some get lt heap data rows c Hdata) as [-> _].
    by rewrite lookup_insert_eq. }
  assert (Hclicked : ∃ d, clicked = Some (mkSort k d)
            ∧ (d = desc ↔ sortConfig = Some (mkSort k asc))).
  { subst clicked. unfold handleSort. destruct sortConfig as [[k0 d0]|]; cbn.
    - destruct (bool_decide (k0 = k)) eqn:Hk; cbn.
      + apply bool_decide_eq_true in Hk as ->.
        destruct d0; [rewrite bool_decide_eq_true_2 by done
                     |rewrite bool_decide_eq_false_2 by done];
          (eexists; split; [reflexivity|]; split; congruence).
      + apply bool_decide_eq_false in Hk.
        eexists; split; [reflexivity|]. split; congruence.
    - eexists; split; [reflexivity|]. split; congruence. }
  destruct Hclicked as (d & -> & Hd).
  unfold getSortIcon. cbn [key direction].
  rewrite (bool_decide_eq_false_2 (k ≠ k)) by (intros H; by apply H).
  split; [|split; [|split; [|split]]].
  - intros k' Hk'. by rewrite bool_decide_eq_true_2 by congruence.
  - by destruct d.
  - rewrite <- Hd. destruct d; split; congruence.
  - destruct d; [|done]. intros _. rewrite Hrows.
    apply (sort_sorted get lt lt_asymmetric lt_between (mkSort k asc)).
  - destruct d; [done|]. intros _. rewrite Hrows.
    apply (sort_sorted get lt lt_asymmetric lt_between (mkSort k desc)).
Qed.

End StableRows.

Section StableRowsSamples.
Import DataTable DataTableView.

(** X21 on the price table: Urea and SSP, both at 266, keep their order. *)
Lemma tied_prices_keep_their_order :
  priceHeap !! 0%nat = Some priceRows
  ∧ List.filter (tied cell Z.ltb (mkSort "price" desc) ("Urea", 266))
      (renderedRows cell Z.ltb priceHeap 0%nat (Some (mkSort "price" desc)))
    = [("Urea", 266); ("SSP", 266)].
Proof.
  assert (Hdata : priceHeap !! 0%nat = Some priceRows) by reflexivity.
  split; [exact Hdata|].
  assert (Hbetween : ∀ a b c : Z,
            Z.ltb a c = true → Z.ltb a b = true ∨ Z.ltb b c = true) by lia.
  rewrite (tied_rows_keep_their_order cell Z.ltb Hbetween priceHeap 0%nat
             priceRows (mkSort "price" desc) ("Urea", 266) Hdata).
  reflexivity.
Defined.

(** X22 on the price table, first click on the price column. *)
Lemma price_icon_matches_the_order :
  priceHeap !! 0%nat = Some priceRows
  ∧ getSortIcon (handleSort None "price") "price" ≠ DimmedUp.
Proof.
  assert (Hdata : priceHeap !! 0%nat = Some priceRows) by reflexivity.
  split; [exact Hdata|].
  assert (Hasym : ∀ a b : Z, Z.ltb a b = true → Z.ltb b a = false) by lia.
  assert (Hbetween : ∀ a b c : Z,
            Z.ltb a c = true → Z.ltb a b = true ∨ Z.ltb b c = true) by lia.
  exact (proj1 (proj2 (icons_match_the_order cell Z.ltb Hasym Hbetween
                         priceHeap 0%nat priceRows None "price" Hdata))).
Defined.

End StableRowsSamples.

(* ===================================================================== *)
(** ** The comparison page                                                *)
(* ===================================================================== *)

Section ComparisonLaws.
Import Js PriceManagement ComparisonPage.

Lemma includes_In l id : includes l id = true ↔ In id l.
Proof.
  unfold includes. rewrite existsb_exists. split.
  - intros (x & Hx & Heq). apply Z.eqb_eq in Heq. by subst.
  - intros Hin. exists id. split; [done|]. apply Z.eqb_refl.
Qed.

Lemma includes_not_In l id : includes l id = false ↔ ¬ In id l.
Proof. rewrite <- includes_In. by destruct (includes l id). Qed.

Lemma without_length (id : Z) l :
  In id l →
  (length (List.filter (λ x, negb (Z.eqb x id)) l) < length l)%nat.
Proof.
  induction l as [|x l IH]; [done|]. intros [->|Hin]; cbn.
  - rewrite Z.eqb_refl. cbn.
    pose proof (List.filter_length_le (λ x, negb (Z.eqb x id)) l). lia.
  - specialize (IH Hin). destruct (negb (Z.eqb x id)); cbn; lia.
Qed.

Lemma without_not_In (id : Z) l :
  ¬ In id (List.filter (λ x, negb (Z.eqb x id)) l).
Proof.
  rewrite List.filter_In. intros [_ H]. by rewrite Z.eqb_refl in H.
Qed.

Lemma toggle_NoDup id l : List.NoDup l → List.NoDup (handleTogglePrice id l).
Proof.
  intros Hnd. unfold handleTogglePrice.
  destruct (includes l id) eqn:Hin.
  - by apply List.NoDup_filter.
  - apply includes_not_In in Hin. apply NoDup_ListNoDup, NoDup_app.
    split; [by apply NoDup_ListNoDup|]. split.
    + intros x Hx [->|[]]%list_elem_of_In. by apply list_elem_of_In in Hx.
    + apply NoDup_singleton.
Qed.

Lemma toggle_length id l :
  (length (handleTogglePrice id l) ≤ S (length l))%nat
  ∧ (In id l → length (handleTogglePrice id l) < length l)%nat.
Proof.
  unfold handleTogglePrice. destruct (includes l id) eqn:Hin.
  - split; [|apply without_length].
    pose proof (List.filter_length_le (λ x, negb (Z.eqb x id)) l). lia.
  - split; [rewrite length_app; cbn; lia|].
    intros H. by apply includes_not_In in Hin.
Qed.

Lemma click_keeps_selection l e :
  List.NoDup l ∧ (length l ≤ 5)%nat →
  List.NoDup (click l e) ∧ (length (click l e) ≤ 5)%nat.
Proof.
  intros [Hnd Hlen]. destruct e as [id|id]; cbn [click].
  - unfold rowClick. destruct (includes l id) eqn:Hin.
    + split; [by apply toggle_NoDup|].
      apply includes_In in Hin.
      pose proof (proj2 (toggle_length id l) Hin). lia.
    + destruct (Nat.ltb_spec (length l) 5); [|done].
      split; [by apply toggle_NoDup|].
      pose proof (proj1 (toggle_length id l)). lia.
  - unfold checkboxDisabled, rowClick.
    destruct (includes l id) eqn:Hin; cbn [negb andb].
    + split; [by do 2 apply toggle_NoDup|].
      apply includes_In in Hin.
      pose proof (proj2 (toggle_length id l) Hin).
      pose proof (proj1 (toggle_length id (handleTogglePrice id l))). lia.
    + destruct (Nat.leb_spec 5 (length l)) as [|Hlt]; [done|].
      rewrite (proj2 (Nat.ltb_lt _ _) Hlt).
      split; [by do 2 apply toggle_NoDup|].
      assert (Hadd : handleTogglePrice id l = (l ++ [id])%list)
        by (unfold handleTogglePrice; by rewrite Hin).
      assert (Hthere : In id (handleTogglePrice id l)).
      { rewrite Hadd. apply in_or_app. right. by left. }
      pose proof (proj2 (toggle_length id (handleTogglePrice id l)) Hthere).
      rewrite Hadd, length_app in *. cbn in *. lia.
Qed.

Lemma clicks_keep_selection clicks l :
  List.NoDup l ∧ (length l ≤ 5)%nat →
  List.NoDup (fold_left click clicks l)
  ∧ (length (fold_left click clicks l) ≤ 5)%nat.
Proof.
  revert l. induction clicks as [|e clicks IH]; intros l Hl; [done|].
  cbn. apply IH. by apply click_keeps_selection.
Qed.

(** X23: whatever rows and checkboxes are clicked, in whatever order, the
    selection never holds more than five ids and never the same id twice;
    so, for prices with distinct ids, the comparison table never has more
    than five rows. *)
Theorem selection_stays_within_five (clicks : list Click) :
  NoDup (selectionAfter clicks)
  ∧ (length (selectionAfter clicks) ≤ 5)%nat
  ∧ (∀ prices : list PublishedPrice,
       NoDup (map pp_id prices) →
       (length (comparisonData prices (selectionAfter clicks)) ≤ 5)%nat).
Proof.
  assert (Hsel : List.NoDup (selectionAfter clicks)
                 ∧ (length (selectionAfter clicks) ≤ 5)%nat).
  { apply clicks_keep_selection. split; [apply List.NoDup_nil|cbn; lia]. }
  destruct Hsel as [Hnd Hlen].
  split; [by apply NoDup_ListNoDup|]. split; [done|].
  intros prices Hids%NoDup_ListNoDup. unfold comparisonData.
  set (chosen := List.filter _ prices).
  assert (Hchosen : List.NoDup (map pp_id chosen)).
  { subst chosen. clear -Hids. induction prices as [|p ps IH]; [done|].
    cbn in *. apply List.NoDup_cons_iff in Hids as [Hp Hps].
    destruct (includes _ (pp_id p)); [|by apply IH].
    cbn. apply List.NoDup_cons; [|by apply IH].
    intros Hin. apply Hp. apply in_map_iff in Hin as (q & Heq & Hq).
    apply List.filter_In in Hq as [Hq _]. apply in_map_iff. by exists q. }
  assert (Hincl : incl (map pp_id chosen) (selectionAfter clicks)).
  { intros id Hin. apply in_map_iff in Hin as (q & <- & Hq).
    subst chosen. apply List.filter_In in Hq as [_ Hq]. by apply includes_In. }
  pose proof (List.NoDup_incl_length Hchosen Hincl) as Hle.
  rewrite length_map in Hle. lia.
Qed.

Lemma fold_lower_first_lowest rest first :
  ∃ before after : list PublishedPrice,
    first :: rest = (before ++ fold_left lower rest first :: after)%list
    ∧ Forall (λ q, (pp_price (fold_left lower rest first) < pp_price q)%Q) before
    ∧ Forall (λ q, (pp_price (fold_left lower rest first) <= pp_price q)%Q) after.
Proof.
  induction rest as [|y rest IH] using rev_ind.
  - exists [], []. by repeat split.
  - destruct IH as (before & after & Heq & Hbefore & Hafter).
    rewrite fold_left_app. cbn [fold_left].
    set (m := fold_left lower rest first) in *. unfold lower.
    destruct (Qltb (pp_price y) (pp_price m)) eqn:Hlt.
    + apply Qltb_lt in Hlt.
      exists (before ++ m :: after)%list, []. split; [|split].
      * by rewrite app_comm_cons, Heq.
      * apply Forall_app. split; [|apply Forall_cons; split; [done|]].
        -- eapply Forall_impl; [exact Hbefore|]. intros q Hq. cbn in *.
           by eapply Qlt_trans.
        -- eapply Forall_impl; [exact Hafter|]. intros q Hq. cbn in *.
           by eapply Qlt_le_trans.
      * constructor.
    + assert (Hle : (pp_price m <= pp_price y)%Q).
      { apply Qnot_lt_le. intros H%Qltb_lt. congruence. }
      exists before, (after ++ [y])%list. split; [|split; [done|]].
      * rewrite app_comm_cons, Heq. by rewrite <- app_assoc.
      * apply Forall_app. split; [done|]. by apply Forall_singleton.
Qed.

Lemma fold_higher_first_highest rest first :
  ∃ before after : list PublishedPrice,
    first :: rest = (before ++ fold_left higher rest first :: after)%list
    ∧ Forall (λ q, (pp_price q < pp_price (fold_left higher rest first))%Q) before
    ∧ Forall (λ q, (pp_price q <= pp_price (fold_left higher rest first))%Q) after.
Proof.
  induction rest as [|y rest IH] using rev_ind.
  - exists [], []. by repeat split.
  - destruct IH as (before & after & Heq & Hbefore & Hafter).
    rewrite fold_left_app. cbn [fold_left].
    set (m := fold_left higher rest first) in *. unfold higher.
    destruct (Qltb (pp_price m) (pp_price y)) eqn:Hlt.
    + apply Qltb_lt in Hlt.
      exists (before ++ m :: after)%list, []. split; [|split].
      * by rewrite app_comm_cons, Heq.
      * apply Forall_app. split; [|apply Forall_cons; split; [done|]].
        -- eapply Forall_impl; [exact Hbefore|]. intros q Hq. cbn in *.
           by eapply Qlt_trans.
        -- eapply Forall_impl; [exact Hafter|]. intros q Hq. cbn in *.
           by eapply Qle_lt_trans.
      * constructor.
    + assert (Hle : (pp_price y <= pp_price m)%Q).
      { apply Qnot_lt_le. intros H%Qltb_lt. congruence. }
      exists before, (after ++ [y])%list. split; [|split; [done|]].
      * rewrite app_comm_cons, Heq. by rewrite <- app_assoc.
      * apply Forall_app. split; [done|]. by apply Forall_singleton.
Qed.

(** X24: the lowest and the highest price of a comparison: both are [null]
    exactly on an empty comparison; otherwise the lowest is a row of the
    comparison whose price no row undercuts, and among rows of that price
    the first one (every row before it is strictly dearer); the highest is
    a row whose price no row exceeds, again the first such row. *)
Theorem lowest_and_highest_are_first_extremes (rows : list PublishedPrice) :
  (getLowestPrice rows = Null ↔ rows = [])
  ∧ (getHighestPrice rows = Null ↔ rows = [])
  ∧ (∀ p, getLowestPrice rows = Val p →
       ∃ before after : list PublishedPrice,
         rows = (before ++ p :: after)%list
         ∧ Forall (λ q, (pp_price p < pp_price q)%Q) before
         ∧ Forall (λ q, (pp_price p <= pp_price q)%Q) after)
  ∧ (∀ p, getHighestPrice rows = Val p →
       ∃ before after : list PublishedPrice,
         rows = (before ++ p :: after)%list
         ∧ Forall (λ q, (pp_price q < pp_price p)%Q) before
         ∧ Forall (λ q, (pp_price q <= pp_price p)%Q) after).
Proof.
  destruct rows as [|first rest]; cbn [getLowestPrice getHighestPrice].
  - repeat split; try done.
  - split; [split; done|]. split; [split; done|]. split.
    + intros p [= <-]. apply fold_lower_first_lowest.
    + intros p [= <-]. apply fold_higher_first_highest.
Qed.

End ComparisonLaws.

(* ===================================================================== *)
(** ** Registering a complaint                                            *)
(* ===================================================================== *)

Section RegistrationLaws.
Import Js ComplaintRegistration.

Lemma truthyString_spec s : truthyString s = true ↔ s ≠ "".
Proof.
  unfold truthyString. rewrite negb_true_iff, bool_decide_eq_false. done.
Qed.

Lemma truthyZ_spec n : truthyZ n = true ↔ n ≠ NaN ∧ n ≠ Num 0.
Proof.
  destruct n as [|neg|z]; cbn.
  - split; [done|]. by intros [? _].
  - split; [|done]. intros _. by split.
  - rewrite negb_true_iff, Z.eqb_neq. split.
    + intros Hz. split; [done|]. by intros [= ->].
    + intros [_ Hz] ->. by apply Hz.
Qed.

Lemma truthyQ_spec n :
  truthyQ n = true ↔ n ≠ NaN ∧ ∀ q, n = Num q → ¬ (q == 0)%Q.
Proof.
  destruct n as [|neg|q]; cbn.
  - split; [done|]. by intros [? _].
  - split; [|done]. intros _. by split.
  - rewrite negb_true_iff, <- not_true_iff_false, Qeq_bool_iff. split.
    + intros Hq. split; [done|]. by intros q' [= <-].
    + intros [_ Hq]. by apply Hq.
Qed.

Lemma orZero_is_a_number n : orZero n ≠ NaN.
Proof.
  unfold orZero. destruct (truthyQ n) eqn:Hn; [|done].
  by apply truthyQ_spec in Hn as [Hn _].
Qed.

Lemma step_keeps_price_a_number st e :
  reported_price (formData st) ≠ NaN →
  reported_price (formData (step st e)) ≠ NaN.
Proof.
  intros Hst. destruct e; cbn; try done.
  apply orZero_is_a_number.
Qed.

Lemma events_keep_price_a_number events st :
  reported_price (formData st) ≠ NaN →
  reported_price (formData (fold_left step events st)) ≠ NaN.
Proof.
  revert st. induction events as [|e events IH]; intros st Hst; [done|].
  cbn. apply IH. by apply step_keeps_price_a_number.
Qed.

Lemma missingRequired_spec d :
  missingRequired d = false ↔
    title d ≠ "" ∧ description d ≠ ""
    ∧ (district d ≠ NaN ∧ district d ≠ Num 0)
    ∧ (sku d ≠ NaN ∧ sku d ≠ Num 0)
    ∧ (reported_retailer d ≠ NaN ∧ reported_retailer d ≠ Num 0)
    ∧ (reported_price d ≠ NaN ∧ ∀ q, reported_price d = Num q → ¬ (q == 0)%Q).
Proof.
  unfold missingRequired.
  rewrite !orb_false_iff, !negb_false_iff, !truthyString_spec, !truthyZ_spec,
    truthyQ_spec.
  tauto.
Qed.

(** X25: submitting the complaint form, after any sequence of input, file
    and open/close events: the reported price held by the form is never
    NaN; submitting sends the create request, carrying the form data as it
    stands, exactly when title and description are non-empty, district,
    product and retailer are numbers other than zero and the price is not
    zero (a negative price passes, and so does an infinite number);
    otherwise its only effect is the error toast; and right after the form
    is closed a submit sends nothing. *)
Theorem complaint_is_sent_only_when_complete (events : list Event) :
  let st := stateAfter events in
  let d := formData st in
  reported_price d ≠ NaN
  ∧ ((handleSubmit st).2 = [CreatePriceViolationComplaint d] ↔
       title d ≠ "" ∧ description d ≠ ""
       ∧ (district d ≠ NaN ∧ district d ≠ Num 0)
       ∧ (sku d ≠ NaN ∧ sku d ≠ Num 0)
       ∧ (reported_retailer d ≠ NaN ∧ reported_retailer d ≠ Num 0)
       ∧ (reported_price d ≠ NaN
          ∧ ∀ q, reported_price d = Num q → ¬ (q == 0)%Q))
  ∧ ((handleSubmit st).2 ≠ [CreatePriceViolationComplaint d] →
     (handleSubmit st).2 = [ToastError "Please fill in all required fields"])
  ∧ (handleSubmit (step st Close)).2
    = [ToastError "Please fill in all required fields"].
Proof.
  intros st d. split; [|split; [|split]].
  - by apply events_keep_price_a_number.
  - rewrite <- missingRequired_spec. unfold handleSubmit. fold d.
    destruct (missingRequired d); cbn; split; done.
  - unfold handleSubmit. fold d. destruct (missingRequired d); cbn; done.
  - reflexivity.
Qed.

Lemma uploadAll_spec uploaded id description files i :
  omap uploadedFile (uploadAll uploaded id description i files).1 = files
  ∧ omap toastOf (uploadAll uploaded id description i files).1 = []
  ∧ Forall (λ e, ∃ file, e = UploadComplaintEvidence id file
                                (evidenceType file) description)
      (uploadAll uploaded id description i files).1
  ∧ ((uploadAll uploaded id description i files).2 = false ↔
       ∃ j file, files !! j = Some file ∧ uploaded (i + j)%nat file = false).
Proof.
  revert i. induction files as [|file rest IH]; intros i.
  - cbn. repeat split; try done. by intros (j & f & ? & _).
  - cbn [uploadAll].
    destruct (IH (S i)) as (Hfiles & Htoasts & Hreqs & Hok).
    destruct (uploadAll uploaded id description (S i) rest) as [reqs ok].
    cbn in *. rewrite Hfiles, Htoasts. split; [done|]. split; [done|]. split.
    + constructor; [by eexists|done].
    + rewrite andb_false_iff, Hok. split.
      * intros [Hfile|(j & f & Hj & Hf)].
        -- exists 0%nat, file. by rewrite Nat.add_0_r.
        -- exists (S j), f. split; [done|].
           by replace (i + S j)%nat with (S (i + j)) by lia.
      * intros ([|j] & f & Hj & Hf).
        -- left. cbn in Hj. injection Hj as ->. by rewrite Nat.add_0_r in Hf.
        -- right. exists j, f. split; [done|].
           by replace (S (i + j)) with (i + S j)%nat by lia.
Qed.

(** X26: what follows a created complaint: when the response carries a
    non-zero id, every evidence file is uploaded to that complaint, once
    and in order, whether or not earlier uploads failed, each with the
    description built from the title and as an image or a document by its
    type; without such an id no file is uploaded.  In every case exactly
    one toast is shown and it is a success toast, which mentions failed
    files exactly when an upload was made and did not resolve; and the
    form is closed, emptied and the files dropped. *)
Theorem evidence_follows_the_complaint
    (uploaded : nat → File → bool) (responseId : option Z) (st : State) :
  let st' := (onSuccess uploaded responseId st).1 in
  let effects := (onSuccess uploaded responseId st).2 in
  (∀ id, responseId = Some id → id ≠ 0 →
     omap uploadedFile effects = evidenceFiles st
     ∧ ∀ e file, e ∈ effects → uploadedFile e = Some file →
         e = UploadComplaintEvidence id file (evidenceType file)
               ("Evidence for complaint: " +:+ title (formData st)))
  ∧ (truthyResponseId responseId = None → omap uploadedFile effects = [])
  ∧ (∃ msg, omap toastOf effects = [ToastSuccess msg]
       ∧ (msg = "Complaint submitted successfully, but some evidence files failed to upload"
          ↔ (∃ id, truthyResponseId responseId = Some id)
            ∧ ∃ i file, evidenceFiles st !! i = Some file
                        ∧ uploaded i file = false))
  ∧ isOpen st' = false ∧ formData st' = emptyFormData ∧ evidenceFiles st' = [].
Proof.
  intros st' effects. subst st' effects. unfold onSuccess. cbn [fst snd].
  destruct (evidenceFiles st) as [|file rest] eqn:Hfiles.
  - split; [|split; [|split]]; try done.
    + intros id _ _. split; [done|]. intros e f He Hf.
      cbn in He. set_solver.
    + exists "Complaint submitted successfully!". split; [done|].
      split; [done|]. by intros [_ (i & f & ? & _)].
  - destruct (truthyResponseId responseId) as [id|] eqn:Hid.
    + pose proof (uploadAll_spec uploaded id
        ("Evidence for complaint: " +:+ title (formData st)) (file :: rest) 0)
        as (Hsent & Htoasts & Hreqs & Hok).
      destruct (uploadAll uploaded id _ 0 (file :: rest)) as [reqs ok].
      cbn [fst snd] in *.
      assert (Hup : omap uploadedFile
                (((reqs ++ [ToastSuccess
                    (if ok
                     then "Complaint and evidence submitted successfully!"
                     else "Complaint submitted successfully, but some evidence files failed to upload")])
                  ++ [InvalidateComplaints; OnSuccess])%list)
              = file :: rest).
      { rewrite !omap_app, Hsent. cbn. by rewrite !app_nil_r. }
      split; [|split; [|split]]; try done.
      * intros id' -> Hid'. cbn in Hid.
        destruct (Z.eqb id' 0); [done|]. injection Hid as <-.
        split; [done|]. intros e f He Hf.
        rewrite !elem_of_app in He. destruct He as [[He|He]|He].
        -- rewrite Forall_forall in Hreqs.
           destruct (Hreqs e He) as (f' & ->). cbn in Hf. by injection Hf as ->.
        -- apply list_elem_of_singleton in He as ->. done.
        -- set_solver.
      * eexists. split.
        { rewrite !omap_app, Htoasts. cbn. reflexivity. }
        split.
        -- destruct ok; [done|]. intros _. split; [by eexists|].
           destruct (proj1 Hok eq_refl) as (j & f & Hj & Hf). by exists j, f.
        -- intros [_ (j & f & Hj & Hf)].
           assert (ok = false) as -> by (apply Hok; by exists j, f). done.
    + split; [|split; [|split]]; try done.
      * intros id -> Hne. cbn in Hid. destruct (Z.eqb_spec id 0); done.
      * exists "Complaint submitted successfully!". split; [done|].
        split; [done|]. by intros [(id & ?) _].
Qed.

Lemma filterIndexed_removes {A} (index k : nat) (l : list A) :
  filterIndexed (λ _ i, negb (Nat.eqb i index)) k l
  = if (index <? k)%nat then l
    else (take (index - k) l ++ drop (S (index - k)) l)%list.
Proof.
  revert k. induction l as [|x l IH]; intros k.
  - cbn [filterIndexed]. destruct (index <? k)%nat; [done|].
    by rewrite take_nil, drop_nil.
  - cbn [filterIndexed]. rewrite IH.
    destruct (Nat.eqb_spec k index) as [->|Hne].
    + cbn [negb]. rewrite (proj2 (Nat.ltb_lt index (S index))) by lia.
      rewrite Nat.ltb_irrefl, Nat.sub_diag. done.
    + cbn [negb]. destruct (Nat.ltb_spec index k).
      * by rewrite (proj2 (Nat.ltb_lt index (S k))) by lia.
      * rewrite (proj2 (Nat.ltb_ge index (S k))) by lia.
        replace (index - k)%nat with (S (index - S k)) by lia. done.
Qed.

(** X27: the remove button of an evidence file drops exactly the file at
    its index: the files before and after it stay, in order; an index past
    the end changes nothing; the form data is untouched.  So a file that
    was just chosen is taken back by removing the last index. *)
Theorem remove_file_drops_that_file (index : nat) (st : State) :
  evidenceFiles (removeFile index st)
    = (take index (evidenceFiles st) ++ drop (S index) (evidenceFiles st))%list
  ∧ (length (evidenceFiles st) ≤ index →
     evidenceFiles (removeFile index st) = evidenceFiles st)%nat
  ∧ formData (removeFile index st) = formData st
  ∧ (∀ file,
       evidenceFiles
         (removeFile (length (evidenceFiles st)) (handleFileUpload [file] st))
       = evidenceFiles st).
Proof.
  assert (Hrm : ∀ i s, evidenceFiles (removeFile i s)
    = (take i (evidenceFiles s) ++ drop (S i) (evidenceFiles s))%list).
  { intros i s. unfold removeFile. cbn [evidenceFiles].
    rewrite filterIndexed_removes. cbn. by rewrite Nat.sub_0_r. }
  split; [apply Hrm|]. split; [|split; [done|]].
  - intros Hlen. rewrite Hrm.
    rewrite take_ge by lia. rewrite drop_ge by lia. by rewrite app_nil_r.
  - intros file. rewrite Hrm. cbn [handleFileUpload evidenceFiles].
    rewrite take_app_length. rewrite drop_ge by (rewrite length_app; cbn; lia).
    by rewrite app_nil_r.
Qed.

End RegistrationLaws.

(* ===================================================================== *)
(** ** The sidebar and the route guard                                    *)
(* ===================================================================== *)

Section SidebarLinks.
Import ProtectedRoute Pages Sidebar.

(** X28: the sidebar agrees with the route guard: every link shown to a
    user stays under the dashboard of the user's role, the first link is
    that dashboard itself, and no link leads to a page whose guard turns
    the user away: each linked page that is guarded renders its children
    for the user and redirects nowhere.  A visitor without a user is shown
    no link, under the heading of the admin portal. *)
Theorem sidebar_links_pass_the_guard (u : User) :
  (∀ item, item ∈ getNavItems (Some u) →
     String.prefix (dashboardOf (role u)) (href item) = true
     ∧ (is_Some (allowedRolesOf (pathOf (href item))) →
        visit (Some u) (pathOf (href item)) = Some (None, Children)))
  ∧ href <$> head (getNavItems (Some u)) = Some (dashboardOf (role u))
  ∧ getNavItems None = []
  ∧ portalTitle None = "Admin Portal".
Proof.
  destruct u as [i n e r v]. cbn [role].
  split; [|split; [|split]]; [|by destruct r|done|done].
  intros item Hin.
  destruct r; cbn in Hin;
    repeat (apply elem_of_cons in Hin as [->|Hin]);
    try (by apply elem_of_nil in Hin);
    (split; [reflexivity|]); vm_compute;
    (intros [roles Hroles]; first [discriminate Hroles | reflexivity]).
Qed.

End SidebarLinks.
